(** * DeepSeek chat view provider: a shallow embedding of [extension.ts]

    The development follows the source file by file and function by
    function.  JavaScript strings are sequences of code units; here a code
    unit is an [ascii] (the code units 0..255), which covers every literal
    of the program and the range on which [toLowerCase], [\s], [\w] and
    [.] are defined below without Unicode tables. *)

From Stdlib Require Import Ascii String DecimalString DecimalN DecimalFacts.
From Stdlib Require QArith.
From Stdlib Require Import List NArith ZArith Lia Bool Arith.
Import ListNotations.

Set Implicit Arguments.

(** ** Strings and character classes *)

Definition jsstring := list ascii.

Definition js (s : string) : jsstring := list_ascii_of_string s.

Definition LF : ascii := ascii_of_N 10.

Definition code (c : ascii) : N := N_of_ascii c.

Definition in_range (lo hi : N) (c : ascii) : bool :=
  ((lo <=? code c) && (code c <=? hi))%N.

Definition is_upper (c : ascii) : bool := in_range 65 90 c.
Definition is_lower (c : ascii) : bool := in_range 97 122 c.
Definition is_digit (c : ascii) : bool := in_range 48 57 c.

(** [[a-zA-Z0-9]] *)
Definition is_alnum (c : ascii) : bool := is_lower c || is_upper c || is_digit c.

(** [\w] is [[A-Za-z0-9_]]. *)
Definition is_word (c : ascii) : bool := is_alnum c || (code c =? 95)%N.

(** [\s], and the characters [trim] strips: TAB, LF, VT, FF, CR, SP, NBSP. *)
Definition is_space (c : ascii) : bool :=
  in_range 9 13 c || (code c =? 32)%N || (code c =? 160)%N.

(** [.] matches everything but a line terminator. *)
Definition is_line_terminator (c : ascii) : bool :=
  (code c =? 10)%N || (code c =? 13)%N.

Definition not_line_terminator (c : ascii) : bool := negb (is_line_terminator c).

(** [[\s\S]] *)
Definition any_char (c : ascii) : bool := is_space c || negb (is_space c).

Definition is_char (a c : ascii) : bool := Ascii.eqb c a.

(** [String.prototype.toLowerCase] on the code units 0..255: A-Z and the
    Latin-1 capitals U+00C0..U+00DE (but the multiplication sign U+00D7)
    move up by 32. *)
Definition toLowerCase_char (c : ascii) : ascii :=
  if is_upper c || (in_range 192 222 c && negb (code c =? 215)%N)
  then ascii_of_N (code c + 32)
  else c.

Definition toLowerCase (s : jsstring) : jsstring := map toLowerCase_char s.

(** A pattern character under the [i] flag: on the code units 0..255 two
    characters have the same canonical form exactly when they have the same
    lower case. *)
Definition is_char_ci (a c : ascii) : bool :=
  Ascii.eqb (toLowerCase_char c) (toLowerCase_char a).

Fixpoint trimStart (s : jsstring) : jsstring :=
  match s with
  | c :: s' => if is_space c then trimStart s' else s
  | [] => []
  end.

Definition trimEnd (s : jsstring) : jsstring := rev (trimStart (rev s)).

(** [String.prototype.trim] *)
Definition trim (s : jsstring) : jsstring := trimEnd (trimStart s).

(** ** Regular expressions

    The regular expression literals of the program are translated to a
    small syntax, and matched by a backtracking matcher in
    continuation-passing style that tries the alternatives in the order
    ECMAScript does: a greedy quantifier first tries one more iteration, a
    lazy one first tries to stop. *)

Inductive regex : Type :=
| Empty
| Class (p : ascii -> bool)
| Seq (r1 r2 : regex)
| Alt (r1 r2 : regex)
| Star (greedy : bool) (r : regex)
| Group (n : nat) (r : regex).

Definition captures := nat -> option jsstring.

Definition no_captures : captures := fun _ => None.

Definition capture (n : nat) (v : jsstring) (c : captures) : captures :=
  fun m => if Nat.eqb m n then Some v else c m.

Definition continuation := jsstring -> captures -> option (captures * jsstring).

(** One quantifier: [fuel] bounds the number of iterations; an iteration
    that consumes nothing is rejected, as in ECMAScript's RepeatMatcher. *)
Fixpoint repeat_match (body : jsstring -> captures -> continuation -> option (captures * jsstring))
    (greedy : bool) (fuel : nat) (s : jsstring) (c : captures) (k : continuation)
    : option (captures * jsstring) :=
  match fuel with
  | 0 => k s c
  | S fuel' =>
      let again :=
        body s c (fun s' c' =>
          if length s' <? length s then repeat_match body greedy fuel' s' c' k else None) in
      if greedy then
        match again with Some res => Some res | None => k s c end
      else
        match k s c with Some res => Some res | None => again end
  end.

Fixpoint rmatch (r : regex) (s : jsstring) (c : captures) (k : continuation)
    : option (captures * jsstring) :=
  match r with
  | Empty => k s c
  | Class p =>
      match s with
      | a :: s' => if p a then k s' c else None
      | [] => None
      end
  | Seq r1 r2 => rmatch r1 s c (fun s' c' => rmatch r2 s' c' k)
  | Alt r1 r2 =>
      match rmatch r1 s c k with
      | Some res => Some res
      | None => rmatch r2 s c k
      end
  | Star greedy r' => repeat_match (rmatch r') greedy (length s) s c k
  | Group n r' =>
      rmatch r' s c (fun s' c' => k s' (capture n (firstn (length s - length s') s) c'))
  end.

(** [r+], [r?] (both greedy), a literal string, and a literal under [i]. *)
Definition Plus (r : regex) : regex := Seq r (Star true r).
Definition Opt (r : regex) : regex := Alt r Empty.

Fixpoint Lit (s : jsstring) : regex :=
  match s with
  | [] => Empty
  | a :: s' => Seq (Class (is_char a)) (Lit s')
  end.

Fixpoint Lit_ci (s : jsstring) : regex :=
  match s with
  | [] => Empty
  | a :: s' => Seq (Class (is_char_ci a)) (Lit_ci s')
  end.

(** The result of [RegExp.prototype.exec] / [String.prototype.match]:
    [m_index] is [match.index], [m_text] is [match[0]], [m_groups n] is
    [match[n]], and [m_rest] is the input from [lastIndex] on. *)
Record match_result : Type := {
  m_index : nat;
  m_text : jsstring;
  m_groups : captures;
  m_rest : jsstring
}.

Definition match_here (r : regex) (s : jsstring) : option (captures * jsstring) :=
  rmatch r s no_captures (fun rest c => Some (c, rest)).

(** The leftmost match at or after the start of [s]; [i] is the index of
    [s] in the whole input. *)
Fixpoint exec_from (r : regex) (i : nat) (s : jsstring) : option match_result :=
  match match_here r s with
  | Some (c, rest) =>
      Some {| m_index := i; m_text := firstn (length s - length rest) s;
              m_groups := c; m_rest := rest |}
  | None =>
      match s with
      | [] => None
      | _ :: s' => exec_from r (S i) s'
      end
  end.

Definition exec (r : regex) (s : jsstring) : option match_result := exec_from r 0 s.

(** ** [_extractCodeBlocks] *)

Record CodeBlock : Type := { language : jsstring; code_text : jsstring }.

Definition fence : jsstring := js "```".

(** [/```(\w+)?\s*\n([\s\S]*?)\n```/g] *)
Definition codeBlockRegex : regex :=
  Seq (Lit fence)
 (Seq (Opt (Group 1 (Plus (Class is_word))))
 (Seq (Star true (Class is_space))
 (Seq (Class (is_char LF))
 (Seq (Group 2 (Star false (Class any_char)))
      (Lit (LF :: fence)))))).

(** [match[1] || ''] *)
Definition or_empty (v : option jsstring) : jsstring :=
  match v with Some s => s | None => [] end.

Definition block_of_match (m : match_result) : CodeBlock :=
  {| language := or_empty (m_groups m 1);
     code_text := trim (or_empty (m_groups m 2)) |}.

(** The [while ((match = codeBlockRegex.exec(response)) !== null)] loop.
    [rest] is the response from [lastIndex] on; [fuel] bounds the number of
    iterations. *)
Fixpoint extract_loop (fuel : nat) (rest : jsstring) (blocks : list CodeBlock)
    : list CodeBlock :=
  match fuel with
  | 0 => blocks
  | S fuel' =>
      match exec codeBlockRegex rest with
      | None => blocks
      | Some m => extract_loop fuel' (m_rest m) (blocks ++ [block_of_match m])
      end
  end.

Definition _extractCodeBlocks (response : jsstring) : list CodeBlock :=
  extract_loop (length response) response [].

(** [String.prototype.startsWith], [indexOf] and [includes], used to state
    where the markers of a text are. *)
Fixpoint starts_with (p s : jsstring) : bool :=
  match p, s with
  | [], _ => true
  | a :: p', b :: s' => Ascii.eqb b a && starts_with p' s'
  | _ :: _, [] => false
  end.

Fixpoint indexOf (p s : jsstring) : option nat :=
  if starts_with p s then Some 0
  else match s with
       | [] => None
       | _ :: s' => option_map S (indexOf p s')
       end.

Definition includes (p s : jsstring) : bool :=
  match indexOf p s with Some _ => true | None => false end.

(** The successive results of [exec] in a [while ((m = r.exec(s)) !== null)]
    loop over a global regular expression. *)
Fixpoint all_matches (fuel : nat) (r : regex) (rest : jsstring) : list match_result :=
  match fuel with
  | 0 => []
  | S fuel' =>
      match exec r rest with
      | None => []
      | Some m => m :: all_matches fuel' r (m_rest m)
      end
  end.

(** Closed forms of the two quantifiers over a character class, used to
    reason about the matcher. *)

(** A lazy [[p]*?] followed by [k] stops at the first place where [k]
    succeeds. *)
Fixpoint lazy_scan (p : ascii -> bool) (s : jsstring) (c : captures) (k : continuation)
    : option (captures * jsstring) :=
  match k s c with
  | Some res => Some res
  | None =>
      match s with
      | a :: s' => if p a then lazy_scan p s' c k else None
      | [] => None
      end
  end.

(** A greedy [[p]*] followed by [k] stops at the last place where [k]
    succeeds. *)
Fixpoint greedy_scan (p : ascii -> bool) (s : jsstring) (c : captures) (k : continuation)
    : option (captures * jsstring) :=
  match s with
  | a :: s' =>
      if p a then
        match greedy_scan p s' c k with
        | Some res => Some res
        | None => k s c
        end
      else k s c
  | [] => k s c
  end.

(** ** [_getFileExtension] *)

Fixpoint str_eqb (a b : jsstring) : bool :=
  match a, b with
  | [], [] => true
  | x :: a', y :: b' => Ascii.eqb x y && str_eqb a' b'
  | _, _ => false
  end.

(** The own properties of the [extensionMap] literal, in source order. *)
Definition extensionMap : list (jsstring * jsstring) :=
  [ (js "html", js "html");
    (js "javascript", js "js");
    (js "typescript", js "ts");
    (js "css", js "css");
    (js "python", js "py");
    (js "java", js "java");
    (js "c", js "c");
    (js "cpp", js "cpp");
    (js "php", js "php");
    (js "ruby", js "rb");
    (js "go", js "go");
    (js "rust", js "rs");
    (js "swift", js "swift");
    (js "kotlin", js "kt");
    (js "sql", js "sql");
    (js "json", js "json");
    (js "xml", js "xml");
    (js "markdown", js "md");
    (js "yaml", js "yml");
    (js "shell", js "sh") ].

(** [extensionMap] is an object literal, so its prototype is
    [Object.prototype] and a property read that finds no own property
    continues there.  These are the property names of [Object.prototype]. *)
Definition Object_prototype : list jsstring :=
  [ js "constructor"; js "__proto__"; js "hasOwnProperty"; js "isPrototypeOf";
    js "propertyIsEnumerable"; js "toLocaleString"; js "toString"; js "valueOf";
    js "__defineGetter__"; js "__defineSetter__";
    js "__lookupGetter__"; js "__lookupSetter__" ].

(** What [extensionMap[key]] evaluates to when it is not [undefined]: a
    string of the literal, or the member [name] of [Object.prototype] (a
    function, or for [__proto__] the prototype object itself). *)
Inductive property_value : Type :=
| Str (s : jsstring)
| Inherited (name : jsstring).

Fixpoint own_property (o : list (jsstring * jsstring)) (key : jsstring) : option jsstring :=
  match o with
  | [] => None
  | (k, v) :: o' => if str_eqb k key then Some v else own_property o' key
  end.

(** [o[key]]; [None] is [undefined]. *)
Definition get_property (o : list (jsstring * jsstring)) (key : jsstring)
    : option property_value :=
  match own_property o key with
  | Some v => Some (Str v)
  | None => if existsb (str_eqb key) Object_prototype then Some (Inherited key) else None
  end.

(** [v || d]: [undefined] and the empty string are falsy, functions and
    objects are truthy. *)
Definition or_default (v : option property_value) (d : jsstring) : property_value :=
  match v with
  | None => Str d
  | Some (Str []) => Str d
  | Some w => w
  end.

Definition _getFileExtension (language : jsstring) : property_value :=
  or_default (get_property extensionMap (toLowerCase language)) (js "txt").

(** The string a template literal makes of such a value. *)
Definition to_string (v : property_value) : jsstring :=
  match v with
  | Str s => s
  | Inherited name =>
      if str_eqb name (js "__proto__") then js "[object Object]"
      else if str_eqb name (js "constructor") then js "function Object() { [native code] }"
      else js "function " ++ name ++ js "() { [native code] }"
  end.

(** [extension === lit] *)
Definition strict_eq (v : property_value) (lit : jsstring) : bool :=
  match v with
  | Str s => str_eqb s lit
  | Inherited _ => false
  end.

(** ** File names: the first half of [_createFile] *)

(** [String(n)] for a non-negative integer below 10^21, such as
    [Date.now()]. *)
Definition number_to_string (n : N) : jsstring :=
  js (NilEmpty.string_of_uint (N.to_uint n)).

(** [/<title>(.*?)<\/title>/i] *)
Definition titleRegex : regex :=
  Seq (Lit_ci (js "<title>"))
 (Seq (Group 1 (Star false (Class not_line_terminator)))
      (Lit_ci (js "</title>"))).

(** [[a-zA-Z_]] *)
Definition is_ident_start (c : ascii) : bool :=
  is_lower c || is_upper c || (code c =? 95)%N.

(** The pattern of [content.match] for Python: [def], then [\s+], then a
    group made of one [[a-zA-Z_]] and a greedy run of [[a-zA-Z0-9_]], then
    a greedy run of [\s], then an opening parenthesis. *)
Definition funcRegex : regex :=
  Seq (Lit (js "def"))
 (Seq (Plus (Class is_space))
 (Seq (Group 1 (Seq (Class is_ident_start) (Star true (Class is_word))))
 (Seq (Star true (Class is_space))
      (Class (is_char (ascii_of_N 40)))))).

(** [s.replace(/[^a-zA-Z0-9]/g, '_')] *)
Definition replace_non_alnum (s : jsstring) : jsstring :=
  map (fun c => if is_alnum c then c else ascii_of_N 95) s.

(** [m && m[1]] as a condition, with the value of [m[1]] when it holds. *)
Definition first_group (m : option match_result) : option jsstring :=
  match m with
  | None => None
  | Some r =>
      match m_groups r 1 with
      | None => None
      | Some [] => None
      | Some g => Some g
      end
  end.

(** [`generated_${Date.now()}.${extension}`] *)
Definition default_name (extension : property_value) (now : N) : jsstring :=
  js "generated_" ++ number_to_string now ++ js "." ++ to_string extension.

(** Lines 270-284 of [_createFile]: the name of the file, from the content,
    the extension and the value [now] of [Date.now()]. *)
Definition fileNameFor (content : jsstring) (extension : property_value) (now : N)
    : jsstring :=
  let fileName := default_name extension now in
  if strict_eq extension (js "html") then
    match first_group (exec titleRegex content) with
    | Some title =>
        toLowerCase (replace_non_alnum title) ++ js "." ++ to_string extension
    | None => fileName
    end
  else if strict_eq extension (js "py") then
    match first_group (exec funcRegex content) with
    | Some name => name ++ js ".py"
    | None => fileName
    end
  else fileName.

(** ** The host: workspace, file system, notifications, view, network *)

Inductive Role : Type := user | assistant.

Record Message : Type := { role : Role; content : jsstring }.

(** The messages the provider posts to the webview. *)
Inductive ui_message : Type :=
| addMessage (text : jsstring) (isUser : bool)
| setTypingIndicator (value : bool)
| addTypingIndicator
| removeTypingIndicator.

(** The arguments of one call of [_callDeepSeekAPI] (or, in the earlier
    revision, [_testApiKey]); each call sends at most one request. *)
Record api_call : Type := {
  call_endpoint : jsstring;
  call_apiKey : jsstring;
  call_model : jsstring;
  call_messages : list Message;
  call_maxTokens : Z
}.

(** Everything outside the provider object that the code reads or changes.
    The lists are logs, oldest entry first; [files] is the log of the calls
    of [fs.writeFile], and what a path holds afterwards is read from it by
    [file_content] below. *)
Record host : Type := {
  workspaceFolders : option (list jsstring);  (* [fsPath] of each folder *)
  files : list (jsstring * jsstring);         (* [fs.writeFile(path, content)] *)
  shown : list jsstring;                      (* [showTextDocument] *)
  errorMessages : list jsstring;              (* [vscode.window.showErrorMessage] *)
  posted : list ui_message;                   (* [webview.postMessage] *)
  warnings : list jsstring;                   (* [console.warn] *)
  calls : list api_call                       (* calls of the two request functions *)
}.

Definition showErrorMessage (h : host) (text : jsstring) : host :=
  {| workspaceFolders := workspaceFolders h; files := files h; shown := shown h;
     errorMessages := errorMessages h ++ [text];
     posted := posted h; warnings := warnings h; calls := calls h |}.

(** [fs.writeFile(path, data)] that succeeds: the call is added to the log.
    It creates the file or replaces its content; [file_content] reads the
    log that way. *)
Definition writeFile (h : host) (path data : jsstring) : host :=
  {| workspaceFolders := workspaceFolders h; files := files h ++ [(path, data)];
     shown := shown h; errorMessages := errorMessages h;
     posted := posted h; warnings := warnings h; calls := calls h |}.

(** What the file at [path] holds after the writes of the log [writes]:
    [fs.writeFile] replaces the content of a file that exists, so it is the
    data of the last write to that path. *)
Fixpoint file_content (writes : list (jsstring * jsstring)) (path : jsstring)
    : option jsstring :=
  match writes with
  | [] => None
  | (written, data) :: later =>
      match file_content later path with
      | Some newer => Some newer
      | None => if str_eqb written path then Some data else None
      end
  end.

Definition showTextDocument (h : host) (path : jsstring) : host :=
  {| workspaceFolders := workspaceFolders h; files := files h;
     shown := shown h ++ [path]; errorMessages := errorMessages h;
     posted := posted h; warnings := warnings h; calls := calls h |}.

Definition postMessage (h : host) (m : ui_message) : host :=
  {| workspaceFolders := workspaceFolders h; files := files h; shown := shown h;
     errorMessages := errorMessages h;
     posted := posted h ++ [m]; warnings := warnings h; calls := calls h |}.

Definition console_warn (h : host) (text : jsstring) : host :=
  {| workspaceFolders := workspaceFolders h; files := files h; shown := shown h;
     errorMessages := errorMessages h;
     posted := posted h; warnings := warnings h ++ [text]; calls := calls h |}.

Definition request (h : host) (c : api_call) : host :=
  {| workspaceFolders := workspaceFolders h; files := files h; shown := shown h;
     errorMessages := errorMessages h;
     posted := posted h; warnings := warnings h; calls := calls h ++ [c] |}.

(** What the host answers during one call of [_createFile]: the clock, and
    for each awaited promise the message of the error it rejects with, if
    it does. *)
Record io_answers : Type := {
  Date_now : N;
  writeFile_error : option jsstring;
  openTextDocument_error : option jsstring;
  showTextDocument_error : option jsstring
}.

(** [path.join(dir, name)] as Node defines it for a POSIX host
    ([path.posix.join]): the arguments that are not empty are joined with
    one separator and the result is normalised. *)

Definition is_slash (c : ascii) : bool := (code c =? 47)%N.

(** The segments between the separators of a path; [segment] is the one
    being read. *)
Fixpoint split_path (path segment : jsstring) : list jsstring :=
  match path with
  | [] => [segment]
  | c :: path' =>
      if is_slash c then segment :: split_path path' []
      else split_path path' (segment ++ [c])
  end.

(** [normalizeString]: empty segments and [.] are dropped and [..] removes
    the segment before it; [kept] holds the segments kept so far, the last
    one first.  Above the root of an absolute path [..] is dropped, and at
    the start of a relative one it is kept. *)
Fixpoint normalize_segments (segments kept : list jsstring) (allowAboveRoot : bool)
    : list jsstring :=
  match segments with
  | [] => rev kept
  | segment :: rest =>
      if str_eqb segment [] || str_eqb segment (js ".") then
        normalize_segments rest kept allowAboveRoot
      else if str_eqb segment (js "..") then
        match kept with
        | last :: kept' =>
            if str_eqb last (js "..") then normalize_segments rest (segment :: kept) allowAboveRoot
            else normalize_segments rest kept' allowAboveRoot
        | [] =>
            if allowAboveRoot then normalize_segments rest [segment] allowAboveRoot
            else normalize_segments rest [] allowAboveRoot
        end
      else normalize_segments rest (segment :: kept) allowAboveRoot
  end.

Fixpoint join_segments (segments : list jsstring) : jsstring :=
  match segments with
  | [] => []
  | [segment] => segment
  | segment :: rest => segment ++ js "/" ++ join_segments rest
  end.

(** [path.posix.normalize] *)
Definition path_normalize (path : jsstring) : jsstring :=
  match path with
  | [] => js "."
  | first :: _ =>
      let isAbsolute := is_slash first in
      let trailingSeparator := is_slash (last path first) in
      let normalized :=
        join_segments (normalize_segments (split_path path []) [] (negb isAbsolute)) in
      match normalized with
      | [] => if isAbsolute then js "/" else if trailingSeparator then js "./" else js "."
      | _ =>
          (if isAbsolute then js "/" else []) ++ normalized
            ++ (if trailingSeparator then js "/" else [])
      end
  end.

Definition path_join (dir name : jsstring) : jsstring :=
  match dir, name with
  | [], [] => js "."
  | [], _ => path_normalize name
  | _, [] => path_normalize dir
  | _, _ => path_normalize (dir ++ js "/" ++ name)
  end.

(** The message of the TypeError of [workspaceFolders[0].uri] on an empty
    array. *)
Definition no_folder_message : jsstring :=
  js "Cannot read properties of undefined (reading 'uri')".

(** ** [_createFile] *)

(** The result is the file name, or [None] for [null]. *)
Definition _createFile (h : host) (content : jsstring) (extension : property_value)
    (io : io_answers) : host * option jsstring :=
  let failed (h' : host) (errorMessage : jsstring) :=
    (showErrorMessage h' (js "Error creating file: " ++ errorMessage), None) in
  match workspaceFolders h with
  | None => (showErrorMessage h (js "No workspace folder open"), None)
  | Some [] => failed h no_folder_message
  | Some (workspacePath :: _) =>
      let fileName := fileNameFor content extension (Date_now io) in
      let filePath := path_join workspacePath fileName in
      match writeFile_error io with
      | Some e => failed h e
      | None =>
          let h1 := writeFile h filePath content in
          match openTextDocument_error io with
          | Some e => failed h1 e
          | None =>
              match showTextDocument_error io with
              | Some e => failed h1 e
              | None => (showTextDocument h1 filePath, Some fileName)
              end
          end
      end
  end.

(** ** [_processResponseForFiles] *)

(** [if (fileName) createdFiles.push(fileName)] *)
Definition push_if_truthy (createdFiles : list jsstring) (fileName : option jsstring)
    : list jsstring :=
  match fileName with
  | None => createdFiles
  | Some [] => createdFiles
  | Some name => createdFiles ++ [name]
  end.

(** The [for (const block of codeBlocks)] loop; [n] counts the calls of
    [_createFile] made so far, and [ios n] is what the host answers during
    the next one. *)
Fixpoint createFiles_loop (codeBlocks : list CodeBlock) (h : host)
    (ios : nat -> io_answers) (n : nat) (createdFiles : list jsstring)
    : host * list jsstring :=
  match codeBlocks with
  | [] => (h, createdFiles)
  | block :: rest =>
      let extension := _getFileExtension (language block) in
      let '(h', fileName) := _createFile h (code_text block) extension (ios n) in
      createFiles_loop rest h' ios (S n) (push_if_truthy createdFiles fileName)
  end.

Definition _processResponseForFiles (h : host) (response : jsstring)
    (ios : nat -> io_answers) : host * list jsstring :=
  let codeBlocks := _extractCodeBlocks response in
  if length codeBlocks =? 0 then (h, [])
  else createFiles_loop codeBlocks h ios 0 [].

(** ** JSON values and the runtime *)

(** A value produced by [JSON.parse].  A number carries the rational value
    of its double. *)
#[local] Set Warnings "-register-all".
Inductive json : Type :=
| JNull
| JBool (b : bool)
| JNumber (x : QArith_base.Q)
| JString (s : jsstring)
| JArray (items : list json)
| JObject (fields : list (jsstring * json)).

(** What the program takes from the JavaScript runtime without defining it:
    [JSON.parse] ([None] when it throws a SyntaxError), the string that a
    template literal makes of a value that is not a string, and the
    comparison [v > 0] for a string, an array or an object [v]. *)
Class Runtime : Type := {
  JSON_parse : jsstring -> option json;
  ToString : json -> jsstring;
  ToNumber_gt0 : json -> bool
}.

(** A JavaScript value read out of a parsed body; [None] is [undefined]. *)
Definition value := option json.

(** An own property of a parsed object; the last of several equal keys is
    the one [JSON.parse] keeps. *)
Fixpoint field (fields : list (jsstring * json)) (name : jsstring) : value :=
  match fields with
  | [] => None
  | (k, v) :: fields' =>
      match field fields' name with
      | Some w => Some w
      | None => if str_eqb k name then Some v else None
      end
  end.

(** [v.name] for one of the names [choices], [message], [content], [error]:
    a TypeError ([None]) on [undefined] and [null], the own property of an
    object, and [undefined] on every other value. *)
Definition get (v : value) (name : jsstring) : option value :=
  match v with
  | None => None
  | Some JNull => None
  | Some (JObject fields) => Some (field fields name)
  | Some _ => Some None
  end.

(** [v[0]] *)
Definition first_element (v : value) : value :=
  match v with
  | Some (JArray (x :: _)) => Some x
  | Some (JString (c :: _)) => Some (JString [c])
  | Some (JObject fields) => field fields (js "0")
  | _ => None
  end.

(** The condition [if (v)]. *)
Definition truthy (v : value) : bool :=
  match v with
  | None => false
  | Some JNull => false
  | Some (JBool b) => b
  | Some (JNumber x) => negb (QArith_base.Qnum x =? 0)%Z
  | Some (JString s) => negb (length s =? 0)
  | Some _ => true
  end.

(** [v > 0] *)
Definition gt_zero `{Runtime} (v : value) : bool :=
  match v with
  | None => false
  | Some JNull => false
  | Some (JBool b) => b
  | Some (JNumber x) => (0 <? QArith_base.Qnum x)%Z
  | Some w => ToNumber_gt0 w
  end.

(** [v.length > 0] for a truthy [v] *)
Definition length_gt_zero `{Runtime} (v : value) : bool :=
  match v with
  | Some (JArray items) => 0 <? length items
  | Some (JString s) => 0 <? length s
  | Some (JObject fields) => gt_zero (field fields (js "length"))
  | _ => false
  end.

(** The text a template literal, or [exec], makes of a value.  The
    completion is declared to be a string; for a value of another type the
    turn below keeps this text. *)
Definition text_of `{Runtime} (v : value) : jsstring :=
  match v with
  | None => js "undefined"
  | Some (JString s) => s
  | Some w => ToString w
  end.

(** ** [_callDeepSeekAPI] *)

(** How the promise of [_callDeepSeekAPI] settles. *)
Inductive outcome : Type :=
| Resolved (v : value)
| Rejected (message : jsstring).

(** What the network does with a request whose promise settles:
    [new URL(endpoint)] (or [https.request]) throws, the request emits
    [error], or a response arrives with its status code and its whole
    body.  The request has no timeout and no handler for a response that is
    aborted before its [end] event, so the promise may also stay pending;
    that case is [Stays_pending] of [completion] below, where the turn
    remains as [_handleMessage_begin] left it. *)
Inductive net_answer : Type :=
| InvalidUrl
| NetError (message : jsstring)
| Response (statusCode : N) (data : jsstring).

Definition parse_failed : jsstring := js "Failed to parse API response".
Definition no_response : jsstring := js "No response from API".
Definition auth_failed : jsstring :=
  js "Authentication failed. Please check your API key in settings.".

(** The branch [res.statusCode === 200] of the [end] handler. *)
Definition on_ok `{Runtime} (data : jsstring) : outcome :=
  match JSON_parse data with
  | None => Rejected parse_failed
  | Some response =>
      match get (Some response) (js "choices") with
      | None => Rejected parse_failed
      | Some choices =>
          if truthy choices && length_gt_zero choices then
            match get (first_element choices) (js "message") with
            | None => Rejected parse_failed
            | Some message =>
                match get message (js "content") with
                | None => Rejected parse_failed
                | Some content => Resolved content
                end
            end
          else Rejected no_response
      end
  end.

(** The last branch of the [end] handler: any status but 200 and 401. *)
Definition on_error_status `{Runtime} (statusCode : N) (data : jsstring) : outcome :=
  let api_error (detail : jsstring) :=
    Rejected (js "API error: " ++ number_to_string statusCode ++ js " - " ++ detail) in
  match JSON_parse data with
  | None => api_error data
  | Some errorResponse =>
      match get (Some errorResponse) (js "error") with
      | None => api_error data
      | Some error =>
          let message :=
            match get error (js "message") with
            | None => None
            | Some m => m
            end in
          api_error (if truthy message then text_of message else data)
      end
  end.

Definition _callDeepSeekAPI `{Runtime} (endpoint : jsstring) (net : net_answer) : outcome :=
  match net with
  | InvalidUrl => Rejected (js "Invalid API endpoint: " ++ endpoint)
  | NetError message => Rejected message
  | Response statusCode data =>
      if (statusCode =? 200)%N then on_ok data
      else if (statusCode =? 401)%N then Rejected auth_failed
      else on_error_status statusCode data
  end.

(** ** Configuration *)

(** [vscode.workspace.getConfiguration('deepseek')]; each field is what
    [config.get] returns for the key, [None] for [undefined]. *)
Record configuration : Type := {
  get_apiKey : option jsstring;
  get_endpoint : option jsstring;
  get_model : option jsstring;
  get_maxResponseTokens : option Z;
  get_allowEditing : option bool
}.

(** [v || d] on strings, numbers and booleans. *)
Definition string_or (v : option jsstring) (d : jsstring) : jsstring :=
  match v with
  | Some (c :: s) => c :: s
  | _ => d
  end.

Definition number_or (v : option Z) (d : Z) : Z :=
  match v with
  | Some n => if (n =? 0)%Z then d else n
  | None => d
  end.

Definition boolean_or (v : option bool) (d : bool) : bool :=
  match v with
  | Some true => true
  | _ => d
  end.

Definition default_endpoint : jsstring := js "https://api.deepseek.com/v1/chat/completions".

(** ** [DeepseekChatViewProvider] *)

Record WebviewView : Type := { has_webview : bool }.

Record provider : Type := {
  _view : option WebviewView;
  _conversationHistory : list Message;
  _isProcessing : bool;
  _selectedModel : jsstring
}.

Definition no_webview : jsstring := js "No webview available to send message to".

(** [_safePostMessage] for a provider with the view [view]: the message is
    posted, or its absence is logged; only the host changes. *)
Definition safePost (view : option WebviewView) (h : host) (m : ui_message) : host :=
  match view with
  | Some v => if has_webview v then postMessage h m else console_warn h no_webview
  | None => console_warn h no_webview
  end.

Definition _safePostMessage (p : provider) (h : host) (m : ui_message) : host :=
  safePost (_view p) h m.

Definition missing_key : jsstring := js "Error: Please set your DeepSeek API key in settings.".

(** What a turn that awaits [_callDeepSeekAPI] keeps in its closure. *)
Record pending : Type := {
  pending_call : api_call;
  pending_allowEditing : bool
}.

Definition is_attached (view : option WebviewView) : bool :=
  match view with Some _ => true | None => false end.

(** [_handleMessage] from its first line to the [await]: the provider and
    the host afterwards, and the suspended turn if there is one. *)
Definition _handleMessage_begin (p : provider) (h : host) (message model : jsstring)
    (config : configuration) : provider * host * option pending :=
  if negb (is_attached (_view p)) || _isProcessing p then (p, h, None)
  else
    let history := _conversationHistory p ++ [{| role := user; content := message |}] in
    let apiKey := get_apiKey config in
    let endpoint := string_or (get_endpoint config) default_endpoint in
    let maxTokens := number_or (get_maxResponseTokens config) 1024 in
    let allowEditing := boolean_or (get_allowEditing config) true in
    match apiKey with
    | Some (c :: key) =>
        let p1 := {| _view := _view p; _conversationHistory := history;
                     _isProcessing := true; _selectedModel := model |} in
        let h1 := _safePostMessage p1 h (setTypingIndicator true) in
        let call := {| call_endpoint := endpoint; call_apiKey := c :: key;
                       call_model := model; call_messages := history;
                       call_maxTokens := maxTokens |} in
        (p1, request h1 call,
         Some {| pending_call := call; pending_allowEditing := allowEditing |})
    | _ =>
        let p1 := {| _view := _view p; _conversationHistory := history;
                     _isProcessing := false; _selectedModel := model |} in
        (p1, _safePostMessage p1 h (addMessage missing_key false), None)
    end.

Definition join_lines (l : list jsstring) : jsstring :=
  match l with
  | [] => []
  | x :: l' => fold_left (fun acc y => acc ++ LF :: y) l' x
  end.

(** The check mark U+2705 that opens the message.  It is one code unit
    above 255, which [ascii] cannot hold; it stands here as its three
    UTF-8 bytes, and no property below depends on what it is. *)
Definition check_mark : jsstring := [ascii_of_N 226; ascii_of_N 156; ascii_of_N 133].

Definition created_message (createdFiles : list jsstring) (response : jsstring) : jsstring :=
  check_mark ++ js " Created " ++ number_to_string (N.of_nat (length createdFiles))
    ++ js " file(s):" ++ LF :: join_lines createdFiles ++ LF :: LF :: response.

(** [_handleMessage] from the [await] on, when the promise has settled with
    [result]. *)
Definition _handleMessage_resume `{Runtime} (p : provider) (h : host) (turn : pending)
    (result : outcome) (ios : nat -> io_answers) : provider * host :=
  let idle (history : list Message) :=
    {| _view := _view p; _conversationHistory := history;
       _isProcessing := false; _selectedModel := _selectedModel p |} in
  match result with
  | Resolved v =>
      let response := text_of v in
      let history := _conversationHistory p ++ [{| role := assistant; content := response |}] in
      let h1 := _safePostMessage p h (setTypingIndicator false) in
      let '(h2, createdFiles) :=
        if pending_allowEditing turn then _processResponseForFiles h1 response ios
        else (h1, []) in
      let text :=
        if 0 <? length createdFiles then created_message createdFiles response
        else response in
      (idle history, _safePostMessage p h2 (addMessage text false))
  | Rejected errorMessage =>
      let h1 := _safePostMessage p h (setTypingIndicator false) in
      (idle (_conversationHistory p),
       _safePostMessage p h1 (addMessage (js "Error: " ++ errorMessage) false))
  end.

(** A whole turn during which no other message arrives. *)
Definition _handleMessage `{Runtime} (p : provider) (h : host) (message model : jsstring)
    (config : configuration) (net : net_answer) (ios : nat -> io_answers)
    : provider * host :=
  match _handleMessage_begin p h message model config with
  | (p1, h1, None) => (p1, h1)
  | (p1, h1, Some turn) =>
      _handleMessage_resume p1 h1 turn
        (_callDeepSeekAPI (call_endpoint (pending_call turn)) net) ios
  end.

(** What becomes of the awaited call of a turn: its promise settles, with
    the answer [net] of the network, or it never does. *)
Inductive completion : Type :=
| Settles (net : net_answer)
| Stays_pending.

(** [_handleMessage] as far as it gets: to its end when the awaited call
    settles, and to the [await] when it does not. *)
Definition _handleMessage_so_far `{Runtime} (p : provider) (h : host)
    (message model : jsstring) (config : configuration) (answer : completion)
    (ios : nat -> io_answers) : provider * host :=
  match answer with
  | Settles net => _handleMessage p h message model config net ios
  | Stays_pending => fst (_handleMessage_begin p h message model config)
  end.

(** ** The earlier revision of the provider

    The second source file is a revision of [extension.ts] from before the
    file creation and the [_isProcessing] flag; it probes the key with
    [_testApiKey] before each completion. *)
Module Earlier.

Record provider : Type := {
  _view : option WebviewView;
  _conversationHistory : list Message
}.

Definition _safePostMessage (p : provider) (h : host) (m : ui_message) : host :=
  safePost (_view p) h m.

Definition view_unavailable : jsstring :=
  js "Chat view is not available. Please try reopening the chat.".

Definition invalid_key : jsstring :=
  js "Error: Invalid API key. Please check your DeepSeek API key in settings.".

(** [_testApiKey]: [true] only for a response with status 200. *)
Definition _testApiKey (net : net_answer) : bool :=
  match net with
  | Response statusCode _ => (statusCode =? 200)%N
  | _ => false
  end.

Definition probe_call (apiKey endpoint : jsstring) : api_call :=
  {| call_endpoint := endpoint; call_apiKey := apiKey;
     call_model := js "deepseek-chat";
     call_messages := [{| role := user; content := js "Hello" |}];
     call_maxTokens := 5 |}.

(** The constants of a turn, read from the configuration at its start. *)
Record closure : Type := {
  apiKey : jsstring;
  endpoint : jsstring;
  model : jsstring;
  maxTokens : Z
}.

(** [_handleMessage] up to [await this._testApiKey(...)]. *)
Definition _handleMessage_begin (p : provider) (h : host) (message : jsstring)
    (config : configuration) : provider * host * option closure :=
  match _view p with
  | None => (p, showErrorMessage h view_unavailable, None)
  | Some _ =>
      let p1 := {| _view := _view p;
                   _conversationHistory :=
                     _conversationHistory p ++ [{| role := user; content := message |}] |} in
      let endpoint' := string_or (get_endpoint config) default_endpoint in
      let model' := string_or (get_model config) (js "deepseek-chat") in
      let maxTokens' := number_or (get_maxResponseTokens config) 1024 in
      match get_apiKey config with
      | Some (c :: key) =>
          (p1, request h (probe_call (c :: key) endpoint'),
           Some {| apiKey := c :: key; endpoint := endpoint';
                   model := model'; maxTokens := maxTokens' |})
      | _ => (p1, _safePostMessage p1 h (addMessage missing_key false), None)
      end
  end.

(** From the answer of the probe to [await this._callDeepSeekAPI(...)];
    the history is the one the provider has by then. *)
Definition _handleMessage_probed (p : provider) (h : host) (turn : closure)
    (isValidKey : bool) : host * option api_call :=
  if isValidKey then
    let h1 := _safePostMessage p h addTypingIndicator in
    let call := {| call_endpoint := endpoint turn; call_apiKey := apiKey turn;
                   call_model := model turn;
                   call_messages := _conversationHistory p;
                   call_maxTokens := maxTokens turn |} in
    (request h1 call, Some call)
  else (_safePostMessage p h (addMessage invalid_key false), None).

(** From the settled completion to the end. *)
Definition _handleMessage_resume `{Runtime} (p : provider) (h : host) (result : outcome)
    : provider * host :=
  let h1 := _safePostMessage p h removeTypingIndicator in
  match result with
  | Resolved v =>
      let response := text_of v in
      ({| _view := _view p;
          _conversationHistory :=
            _conversationHistory p ++ [{| role := assistant; content := response |}] |},
       _safePostMessage p h1 (addMessage response false))
  | Rejected errorMessage =>
      (p, _safePostMessage p h1 (addMessage (js "Error: " ++ errorMessage) false))
  end.

(** A whole turn during which no other message arrives: [probe] answers
    [_testApiKey] and [net] answers [_callDeepSeekAPI]. *)
Definition _handleMessage `{Runtime} (p : provider) (h : host) (message : jsstring)
    (config : configuration) (probe net : net_answer) : provider * host :=
  match _handleMessage_begin p h message config with
  | (p1, h1, None) => (p1, h1)
  | (p1, h1, Some turn) =>
      match _handleMessage_probed p1 h1 turn (_testApiKey probe) with
      | (h2, None) => (p1, h2)
      | (h2, Some call) => _handleMessage_resume p1 h2 (_callDeepSeekAPI (call_endpoint call) net)
      end
  end.

End Earlier.

(** ** Notions used to state the properties *)

(** Two code units that differ at most in case, and two tags that are case
    variants of each other. *)
Definition same_letter (a b : ascii) : bool :=
  Ascii.eqb a b || Ascii.eqb (toLowerCase_char a) b || Ascii.eqb a (toLowerCase_char b).

Fixpoint case_variant (s t : jsstring) : bool :=
  match s, t with
  | [], [] => true
  | a :: s', b :: t' => same_letter a b && case_variant s' t'
  | _, _ => false
  end.

(** A language of the fixed mapping, in any case. *)
Definition known_language (tag : jsstring) : bool :=
  match own_property extensionMap (toLowerCase tag) with
  | Some _ => true
  | None => false
  end.

(** What the title heuristic does to one code unit. *)
Definition slug_char (c : ascii) : ascii :=
  if is_alnum c then toLowerCase_char c else ascii_of_N 95.

(** The slug in the words of the specification: lower case, and every run
    of non-alphanumeric characters collapsed to a single separator. *)
Fixpoint collapse_runs (s : jsstring) (in_run : bool) : jsstring :=
  match s with
  | [] => []
  | c :: s' =>
      if is_alnum c then toLowerCase_char c :: collapse_runs s' false
      else if in_run then collapse_runs s' true
      else ascii_of_N 95 :: collapse_runs s' true
  end.

Definition spec_slug (title : jsstring) : jsstring := collapse_runs title false.

Fixpoint starts_with_ci (p s : jsstring) : bool :=
  match p, s with
  | [], _ => true
  | a :: p', b :: s' => is_char_ci a b && starts_with_ci p' s'
  | _ :: _, [] => false
  end.

(** What [_createFile] returns for a block, which depends on the host only
    through its workspace folders. *)
Definition bare_host (folders : option (list jsstring)) : host :=
  {| workspaceFolders := folders; files := []; shown := []; errorMessages := [];
     posted := []; warnings := []; calls := [] |}.

Definition write_result (folders : option (list jsstring)) (block : CodeBlock)
    (io : io_answers) : option jsstring :=
  snd (_createFile (bare_host folders) (code_text block)
         (_getFileExtension (language block)) io).

(** The blocks of a batch with the number of their call of [_createFile]. *)
Fixpoint numbered (n : nat) (blocks : list CodeBlock) : list (nat * CodeBlock) :=
  match blocks with
  | [] => []
  | b :: rest => (n, b) :: numbered (S n) rest
  end.

Definition successes (results : list (option jsstring)) : list jsstring :=
  flat_map (fun r => match r with Some name => [name] | None => [] end) results.

Definition failures (results : list (option jsstring)) : nat :=
  length (filter (fun r => match r with Some _ => false | None => true end) results).

(** The white space a text starts with. *)
Fixpoint blank_prefix (s : jsstring) : jsstring :=
  match s with
  | c :: s' => if is_space c then c :: blank_prefix s' else []
  | [] => []
  end.

(** Whether the content of a block can be [raw] when [rest] follows its
    closing fence.  The white space after the tag of the opening fence is
    matched greedily, line feeds included, and the content starts after the
    last of its line feeds that still has a closing marker after it.  So
    [raw] has no line feed in the white space it starts with, and when
    [raw] is nothing but white space, there is no closing marker after the
    fence that closes it. *)
Definition starts_content (raw rest : jsstring) : bool :=
  negb (existsb (is_char LF) (blank_prefix raw)) &&
  (negb (forallb is_space raw) || negb (includes (LF :: fence) (fence ++ rest))).

(** The text [s] starts with a block whose tag is [tag] and whose content
    is [raw], followed by [rest]: an opening fence, the tag, white space
    and a line feed, the content, and the first closing marker (a line
    feed and a fence) at or after the start of the content. *)
Definition block_starts (s tag raw rest : jsstring) : Prop :=
  exists ws,
    s = fence ++ tag ++ ws ++ LF :: raw ++ LF :: fence ++ rest /\
    forallb is_word tag = true /\
    forallb is_space ws = true /\
    indexOf (LF :: fence) (raw ++ LF :: fence ++ rest) = Some (length raw) /\
    starts_content raw rest = true.

(** The first workspace folder, when there is one. *)
Definition first_folder (folders : option (list jsstring)) : option jsstring :=
  match folders with
  | Some (folder :: _) => Some folder
  | _ => None
  end.

(** The answers under which [fs.writeFile] succeeds, and those under which
    the file is also opened and shown. *)
Definition written_ok (io : io_answers) : bool :=
  match writeFile_error io with None => true | Some _ => false end.

Definition shown_ok (io : io_answers) : bool :=
  match writeFile_error io, openTextDocument_error io, showTextDocument_error io with
  | None, None, None => true
  | _, _, _ => false
  end.

(** The name [_createFile] gives the file of a block. *)
Definition block_name (block : CodeBlock) (io : io_answers) : jsstring :=
  fileNameFor (code_text block) (_getFileExtension (language block)) (Date_now io).

(** What the call of [_createFile] number [fst nb], for the block [snd nb],
    writes. *)
Definition writes_of (folders : option (list jsstring)) (ios : nat -> io_answers)
    (nb : nat * CodeBlock) : list (jsstring * jsstring) :=
  match first_folder folders with
  | Some folder =>
      if written_ok (ios (fst nb))
      then [(path_join folder (block_name (snd nb) (ios (fst nb))), code_text (snd nb))]
      else []
  | None => []
  end.

(** ** Sample inputs *)

Definition dq : ascii := ascii_of_N 34.
Definition backslash_n : jsstring := [ascii_of_N 92; ascii_of_N 110].

Definition fenced_python : jsstring :=
  js "```python" ++ LF :: js "def foo():" ++ LF :: js "    pass" ++ LF :: js "```".

(** Three response bodies and what [JSON.parse] makes of them: a
    completion whose content is [fenced_python], a body whose only choice
    has no message, and a body with an empty list of choices. *)
Definition body_completion : jsstring :=
  js "{" ++ dq :: js "choices" ++ dq :: js ":[{" ++ dq :: js "message" ++ dq :: js ":{"
    ++ dq :: js "content" ++ dq :: js ":" ++ dq :: js "```python" ++ backslash_n
    ++ js "def foo():" ++ backslash_n ++ js "    pass" ++ backslash_n ++ js "```"
    ++ dq :: js "}}]}".

Definition body_no_message : jsstring :=
  js "{" ++ dq :: js "choices" ++ dq :: js ":[{}]}".

Definition body_no_choices : jsstring :=
  js "{" ++ dq :: js "choices" ++ dq :: js ":[]}".

Definition sample_parse (data : jsstring) : option json :=
  if str_eqb data body_completion then
    Some (JObject [(js "choices",
            JArray [JObject [(js "message",
                      JObject [(js "content", JString fenced_python)])]])])
  else if str_eqb data body_no_message then
    Some (JObject [(js "choices", JArray [JObject []])])
  else if str_eqb data body_no_choices then
    Some (JObject [(js "choices", JArray [])])
  else None.

(** A runtime that knows these three bodies. *)
#[local] Instance sample_runtime : Runtime := {
  JSON_parse := sample_parse;
  ToString := fun _ => js "[object Object]";
  ToNumber_gt0 := fun _ => false
}.

Definition sample_view : WebviewView := {| has_webview := true |}.

Definition idle_provider : provider :=
  {| _view := Some sample_view; _conversationHistory := [];
     _isProcessing := false; _selectedModel := js "deepseek-chat" |}.

Definition sample_host : host := bare_host (Some [js "/home/user/project"]).

Definition sample_config (key : option jsstring) (editing : option bool) : configuration :=
  {| get_apiKey := key; get_endpoint := None; get_model := None;
     get_maxResponseTokens := None; get_allowEditing := editing |}.

(** Answers of a host whose clock stands at [now] and whose file system
    and editor do what they are asked. *)
Definition all_fine (now : N) : io_answers :=
  {| Date_now := now; writeFile_error := None;
     openTextDocument_error := None; showTextDocument_error := None |}.

(** A response with two blocks without a language tag. *)
Definition two_plain_blocks : jsstring :=
  js "```" ++ LF :: js "first" ++ LF :: js "```" ++ LF ::
  js "```" ++ LF :: js "second" ++ LF :: js "```".

(** Answers of a host that refuses the first write and does the second. *)
Definition one_fails (n : nat) : io_answers :=
  match n with
  | 0 => {| Date_now := 1700000000000; writeFile_error := Some (js "EACCES: permission denied");
            openTextDocument_error := None; showTextDocument_error := None |}
  | _ => all_fine 1700000000001
  end.

(** Answers of a host that writes the file and then cannot open it. *)
Definition open_fails (now : N) : io_answers :=
  {| Date_now := now; writeFile_error := None;
     openTextDocument_error := Some (js "cannot open file");
     showTextDocument_error := None |}.

(** The provider and the host while the first turn awaits its completion. *)
Definition in_flight : provider * host :=
  fst (_handleMessage_begin idle_provider sample_host (js "first") (js "deepseek-chat")
         (sample_config (Some (js "sk-test")) None)).

Definition earlier_idle : Earlier.provider :=
  {| Earlier._view := Some sample_view; Earlier._conversationHistory := [] |}.

(** The configuration [config] with the API key removed. *)
Definition without_key (config : configuration) : configuration :=
  {| get_apiKey := None; get_endpoint := get_endpoint config;
     get_model := get_model config;
     get_maxResponseTokens := get_maxResponseTokens config;
     get_allowEditing := get_allowEditing config |}.

Definition user_message (message : jsstring) : Message :=
  {| role := user; content := message |}.

(** ** Further functions of the provider *)

(** [msg.role === 'user'] *)
Definition is_user (r : Role) : bool :=
  match r with user => true | assistant => false end.

(** [_restoreConversation]: the [forEach] over the history posts one
    message for each entry. *)
Definition _restoreConversation (p : provider) (h : host) : host :=
  match _view p with
  | None => h
  | Some _ =>
      fold_left
        (fun h' msg => _safePostMessage p h' (addMessage (content msg) (is_user (role msg))))
        (_conversationHistory p) h
  end.

(** The alphabet of [getNonce]. *)
Definition possible : jsstring :=
  js "ABCDEFGHIJKLMNOPQRSTUVWXYZabcdefghijklmnopqrstuvwxyz0123456789".

(** [s.charAt(i)]: the empty string outside the string. *)
Definition charAt (s : jsstring) (i : nat) : jsstring :=
  match nth_error s i with
  | Some c => [c]
  | None => []
  end.

(** The [for] loop of [getNonce] with [steps] iterations left, at counter
    [i]; [random_index i] is the value of
    [Math.floor(Math.random() * possible.length)] in iteration [i]. *)
Fixpoint getNonce_loop (steps i : nat) (random_index : nat -> nat) (text : jsstring)
    : jsstring :=
  match steps with
  | 0 => text
  | S steps' =>
      getNonce_loop steps' (S i) random_index (text ++ charAt possible (random_index i))
  end.

Definition getNonce (random_index : nat -> nat) : jsstring :=
  getNonce_loop 32 0 random_index [].

(** One [sendMessage] event with what the world answers during its turn. *)
Record turn_input : Type := {
  turn_message : jsstring;
  turn_model : jsstring;
  turn_config : configuration;
  turn_net : net_answer;
  turn_ios : nat -> io_answers
}.

(** The [sendMessage] events of a session, each handled to its end before
    the next arrives. *)
Fixpoint run_turns `{Runtime} (p : provider) (h : host) (turns : list turn_input)
    : provider * host :=
  match turns with
  | [] => (p, h)
  | t :: rest =>
      let '(p', h') :=
        _handleMessage p h (turn_message t) (turn_model t) (turn_config t)
          (turn_net t) (turn_ios t) in
      run_turns p' h' rest
  end.

(** ** Further notions used to state properties *)

(** A path separator, of either platform. *)
Definition is_separator (c : ascii) : bool :=
  (code c =? 47)%N || (code c =? 92)%N.

Definition no_separator (s : jsstring) : bool :=
  forallb (fun c => negb (is_separator c)) s.

(** A Python identifier as the pattern of [_createFile] takes it. *)
Definition is_identifier (s : jsstring) : bool :=
  match s with
  | [] => false
  | c :: rest => is_ident_start c && forallb is_word rest
  end.

(** A text that neither starts nor ends with white space. *)
Definition starts_clean (s : jsstring) : bool :=
  match s with
  | [] => true
  | c :: _ => negb (is_space c)
  end.

Definition is_trimmed (s : jsstring) : bool := starts_clean s && starts_clean (rev s).

Definition user_contents (history : list Message) : list jsstring :=
  map content (filter (fun m => is_user (role m)) history).

(** What [_restoreConversation] posts for one entry of the history. *)
Definition replayed (m : Message) : ui_message :=
  addMessage (content m) (is_user (role m)).

(** A body whose completion has no code block, and a runtime that knows
    it. *)
Definition body_plain : jsstring :=
  js "{" ++ dq :: js "choices" ++ dq :: js ":[{" ++ dq :: js "message" ++ dq :: js ":{"
    ++ dq :: js "content" ++ dq :: js ":" ++ dq :: js "Hello!" ++ dq :: js "}}]}".

Definition body_rate_limited : jsstring :=
  js "{" ++ dq :: js "error" ++ dq :: js ":{" ++ dq :: js "message" ++ dq :: js ":"
    ++ dq :: js "Rate limit reached" ++ dq :: js "}}".

Definition plain_parse (data : jsstring) : option json :=
  if str_eqb data body_plain then
    Some (JObject [(js "choices",
            JArray [JObject [(js "message",
                      JObject [(js "content", JString (js "Hello!"))])]])])
  else if str_eqb data body_rate_limited then
    Some (JObject [(js "error", JObject [(js "message", JString (js "Rate limit reached"))])])
  else None.

Definition plain_runtime : Runtime :=
  {| JSON_parse := plain_parse;
     ToString := fun _ => js "[object Object]";
     ToNumber_gt0 := fun _ => false |}.

(** Two turns of a session: the first is refused by the provider of the
    completions, the second answered. *)
Definition two_turns : list turn_input :=
  [ {| turn_message := js "first"; turn_model := js "deepseek-chat";
       turn_config := sample_config (Some (js "sk-test")) None;
       turn_net := Response 401 (js "Unauthorized");
       turn_ios := fun _ => all_fine 0 |};
    {| turn_message := js "second"; turn_model := js "deepseek-coder";
       turn_config := sample_config (Some (js "sk-test")) None;
       turn_net := Response 200 body_completion;
       turn_ios := fun _ => all_fine 1 |} ].

(** A response with two blocks that define the same Python function. *)
Definition two_main_blocks : jsstring :=
  js "```python" ++ LF :: js "def main():" ++ LF :: js "    return 1" ++ LF :: js "```"
    ++ LF ::
  js "```python" ++ LF :: js "def main():" ++ LF :: js "    return 2" ++ LF :: js "```".

Definition python_script : jsstring :=
  js "import os" ++ LF :: LF :: js "def  main (argv):" ++ LF :: js "    return 0".

(** * Properties *)

(** ** The matcher, equationally *)

Section MatcherFacts.

Implicit Types (s : jsstring) (c : captures) (k : continuation).

Lemma starts_with_split p s :
  starts_with p s = true -> s = p ++ skipn (length p) s.
Proof.
  revert s; induction p as [|a p IH]; intros [|b s] H; simpl in *; try easy.
  apply andb_prop in H as [Hab Hp].
  apply Ascii.eqb_eq in Hab; subst b. now rewrite <- IH.
Qed.

Lemma starts_with_app p rest : starts_with p (p ++ rest) = true.
Proof.
  induction p as [|a p IH]; simpl; [easy|].
  now rewrite Ascii.eqb_refl, IH.
Qed.

Lemma rmatch_Lit p s c k :
  rmatch (Lit p) s c k = if starts_with p s then k (skipn (length p) s) c else None.
Proof.
  revert s; induction p as [|a p IH]; intros s; simpl; [easy|].
  destruct s as [|b s]; [easy|]. unfold is_char.
  destruct (Ascii.eqb b a); simpl; [apply IH|easy].
Qed.

Lemma rmatch_Seq r1 r2 s c k :
  rmatch (Seq r1 r2) s c k = rmatch r1 s c (fun s' c' => rmatch r2 s' c' k).
Proof. reflexivity. Qed.

Lemma rmatch_Group n r s c k :
  rmatch (Group n r) s c k =
  rmatch r s c (fun s' c' => k s' (capture n (firstn (length s - length s') s) c')).
Proof. reflexivity. Qed.

Lemma repeat_lazy_class p fuel s c k :
  length s <= fuel ->
  repeat_match (rmatch (Class p)) false fuel s c k = lazy_scan p s c k.
Proof.
  revert s; induction fuel as [|fuel IH]; intros s Hlen.
  - destruct s; [|simpl in Hlen; lia]. simpl. now destruct (k [] c).
  - destruct s as [|a s]; simpl.
    + now destruct (k [] c).
    + destruct (k (a :: s) c); [easy|].
      destruct (p a); [|easy].
      replace (length s <? S (length s)) with true by (symmetry; apply Nat.ltb_lt; lia).
      apply IH. simpl in Hlen; lia.
Qed.

Lemma repeat_greedy_class p fuel s c k :
  length s <= fuel ->
  repeat_match (rmatch (Class p)) true fuel s c k = greedy_scan p s c k.
Proof.
  revert s; induction fuel as [|fuel IH]; intros s Hlen.
  - destruct s; [|simpl in Hlen; lia]. reflexivity.
  - destruct s as [|a s]; simpl; [easy|].
    destruct (p a); [|easy].
    replace (length s <? S (length s)) with true by (symmetry; apply Nat.ltb_lt; lia).
    rewrite IH by (simpl in Hlen; lia). reflexivity.
Qed.

Lemma rmatch_lazy_class p s c k :
  rmatch (Star false (Class p)) s c k = lazy_scan p s c k.
Proof. simpl. now apply repeat_lazy_class. Qed.

Lemma rmatch_greedy_class p s c k :
  rmatch (Star true (Class p)) s c k = greedy_scan p s c k.
Proof. simpl. now apply repeat_greedy_class. Qed.

Lemma lazy_scan_inv p s c k res :
  lazy_scan p s c k = Some res ->
  exists j, j <= length s /\ forallb p (firstn j s) = true /\
            k (skipn j s) c = Some res /\
            forall i, i < j -> k (skipn i s) c = None.
Proof.
  revert res; induction s as [|a s IH]; intros res H; simpl in H.
  - destruct (k [] c) eqn:E; [|easy]. injection H as <-.
    exists 0. simpl. repeat split; auto; lia.
  - destruct (k (a :: s) c) eqn:E.
    + injection H as <-. exists 0. simpl. repeat split; auto; lia.
    + destruct (p a) eqn:Ep; [|easy].
      destruct (IH _ H) as (j & Hj & Hall & Hk & Hmin).
      exists (S j). simpl. rewrite Ep, Hall. repeat split; auto; try lia.
      intros [|i] Hi; simpl; [easy|]. apply Hmin; lia.
Qed.

Lemma lazy_scan_first p s c k j res :
  j <= length s -> forallb p (firstn j s) = true ->
  k (skipn j s) c = Some res ->
  (forall i, i < j -> k (skipn i s) c = None) ->
  lazy_scan p s c k = Some res.
Proof.
  revert s; induction j as [|j IH]; intros s Hj Hall Hk Hmin.
  - simpl in Hk. destruct s; simpl; now rewrite Hk.
  - destruct s as [|a s]; [simpl in Hj; lia|].
    pose proof (Hmin 0 ltac:(lia)) as H0. simpl in *. rewrite H0.
    apply andb_prop in Hall as [-> Hall].
    apply IH; auto; try lia.
    intros i Hi. apply (Hmin (S i)); lia.
Qed.

Lemma greedy_scan_inv p s c k res :
  greedy_scan p s c k = Some res ->
  exists j, j <= length s /\ forallb p (firstn j s) = true /\
            k (skipn j s) c = Some res.
Proof.
  revert res; induction s as [|a s IH]; intros res H; simpl in H.
  - exists 0. simpl. auto.
  - destruct (p a) eqn:Ep.
    + destruct (greedy_scan p s c k) eqn:E.
      * injection H as <-. destruct (IH _ eq_refl) as (j & Hj & Hall & Hk).
        exists (S j). simpl. rewrite Ep, Hall. repeat split; auto; lia.
      * exists 0. simpl. repeat split; auto; lia.
    + exists 0. simpl. repeat split; auto; lia.
Qed.

Lemma indexOf_first p s j :
  j <= length s -> starts_with p (skipn j s) = true ->
  (forall i, i < j -> starts_with p (skipn i s) = false) ->
  indexOf p s = Some j.
Proof.
  revert s; induction j as [|j IH]; intros s Hj Hat Hmin.
  - simpl in Hat. destruct s; simpl; now rewrite Hat.
  - destruct s as [|a s]; [simpl in Hj; lia|].
    pose proof (Hmin 0 ltac:(lia)) as H0. cbn [skipn] in H0.
    cbn [indexOf]. rewrite H0.
    rewrite (IH s); simpl in *; auto; try lia.
    intros i Hi. apply (Hmin (S i)); lia.
Qed.

Lemma indexOf_inv p s j :
  indexOf p s = Some j ->
  j <= length s /\ starts_with p (skipn j s) = true /\
  forall i, i < j -> starts_with p (skipn i s) = false.
Proof.
  revert j; induction s as [|a s IH]; intros j H; cbn [indexOf] in H.
  - destruct (starts_with p []) eqn:E; [|easy]. injection H as <-.
    simpl; repeat split; auto; lia.
  - destruct (starts_with p (a :: s)) eqn:E.
    + injection H as <-. simpl; repeat split; auto; lia.
    + destruct (indexOf p s) as [j'|] eqn:Ei; [|easy]. injection H as <-.
      destruct (IH _ eq_refl) as (Hj & Hat & Hmin).
      simpl; repeat split; auto; try lia.
      intros [|i] Hi; simpl; [easy|]. apply Hmin; lia.
Qed.

Lemma indexOf_here p s : starts_with p s = true -> indexOf p s = Some 0.
Proof. intros H. destruct s; cbn [indexOf]; now rewrite H. Qed.

Lemma includes_app p pre post : includes p (pre ++ p ++ post) = true.
Proof.
  unfold includes. induction pre as [|a pre IH]; cbn [indexOf app].
  - now rewrite indexOf_here by apply starts_with_app.
  - destruct (starts_with p (a :: pre ++ p ++ post)); [easy|].
    now destruct (indexOf p (pre ++ p ++ post)).
Qed.

End MatcherFacts.

(** ** Scanning and searching *)

Section ScanFacts.

Lemma greedy_scan_max p pre rest c k res :
  forallb p pre = true ->
  match rest with [] => true | b :: _ => negb (p b) end = true ->
  k rest c = Some res ->
  greedy_scan p (pre ++ rest) c k = Some res.
Proof.
  intros Hpre Hstop Hk. induction pre as [|a pre IH]; cbn [app].
  - destruct rest as [|b rest']; cbn; [exact Hk|].
    apply negb_true_iff in Hstop. now rewrite Hstop.
  - cbn in Hpre. apply andb_prop in Hpre as [Ha Hpre]. cbn. rewrite Ha.
    now rewrite (IH Hpre).
Qed.

Lemma space_not_word c : is_space c = true -> is_word c = false.
Proof. destruct c as [[] [] [] [] [] [] [] []]; cbn; intros H; try discriminate H; reflexivity. Qed.

Lemma rmatch_Class p s c k :
  rmatch (Class p) s c k =
  match s with
  | a :: s' => if p a then k s' c else None
  | [] => None
  end.
Proof. reflexivity. Qed.

Lemma skipn_exact (a b : jsstring) : skipn (length a) (a ++ b) = b.
Proof. induction a; cbn; auto. Qed.

Lemma firstn_exact (a b : jsstring) : firstn (length (a ++ b) - length b) (a ++ b) = a.
Proof.
  rewrite length_app, Nat.add_sub, firstn_app, Nat.sub_diag, firstn_all. cbn.
  apply app_nil_r.
Qed.

Lemma exec_from_first r n s i c rest :
  i <= length s ->
  (forall k, k < i -> match_here r (skipn k s) = None) ->
  match_here r (skipn i s) = Some (c, rest) ->
  exists m, exec_from r n s = Some m /\ m_groups m = c /\ m_rest m = rest.
Proof.
  revert n s; induction i as [|i IH]; intros n s Hi Hnone Hat.
  - simpl in Hat. destruct s; cbn [exec_from]; rewrite Hat; eauto.
  - destruct s as [|a s]; [simpl in Hi; lia|].
    pose proof (Hnone 0 ltac:(lia)) as H0. cbn [skipn] in H0.
    cbn [exec_from]. rewrite H0. apply IH.
    + simpl in Hi; lia.
    + intros k Hk. apply (Hnone (S k)). lia.
    + exact Hat.
Qed.

Lemma starts_with_none p s j :
  includes p s = false -> starts_with p (skipn j s) = false.
Proof.
  unfold includes. revert j; induction s as [|a s IH]; intros j H; cbn [indexOf] in H.
  - destruct j; cbn; destruct (starts_with p []); easy.
  - destruct (starts_with p (a :: s)) eqn:E; [easy|].
    destruct j; cbn; [easy|]. apply IH. now destruct (indexOf p s).
Qed.

Lemma exec_from_nowhere r n s :
  (forall j, match_here r (skipn j s) = None) -> exec_from r n s = None.
Proof.
  revert n; induction s as [|a s IH]; intros n H; cbn [exec_from].
  - now rewrite (H 0 : match_here r [] = None).
  - rewrite (H 0 : match_here r (a :: s) = None).
    apply IH. intros j. apply (H (S j)).
Qed.

Lemma rmatch_Alt r1 r2 (s : jsstring) (c : captures) (k : continuation) :
  rmatch (Alt r1 r2) s c k =
  match rmatch r1 s c k with
  | Some res => Some res
  | None => rmatch r2 s c k
  end.
Proof. reflexivity. Qed.

Lemma firstn_app_exact (a b : jsstring) : firstn (length a) (a ++ b) = a.
Proof. now rewrite firstn_app, Nat.sub_diag, firstn_all, app_nil_r. Qed.

(** A greedy scan that fails has tried every place it could stop at. *)
Lemma greedy_scan_none p (s : jsstring) (c : captures) (k : continuation) :
  greedy_scan p s c k = None ->
  forall i, i <= length s -> forallb p (firstn i s) = true -> k (skipn i s) c = None.
Proof.
  induction s as [|a s IH]; cbn [greedy_scan]; intros H i Hi Hall.
  - destruct i; [exact H|cbn in Hi; lia].
  - destruct i as [|i]; cbn [skipn].
    + destruct (p a); [|exact H].
      now destruct (greedy_scan p s c k).
    + cbn [firstn forallb] in Hall. apply andb_prop in Hall as [Ha Hall].
      rewrite Ha in H.
      destruct (greedy_scan p s c k) eqn:E; [discriminate|].
      apply IH; auto. cbn in Hi; lia.
Qed.

(** A greedy scan stops at the last place where what follows succeeds. *)
Lemma greedy_scan_inv_max p (s : jsstring) (c : captures) (k : continuation) res :
  greedy_scan p s c k = Some res ->
  exists j, j <= length s /\ forallb p (firstn j s) = true /\
            k (skipn j s) c = Some res /\
            forall i, j < i -> i <= length s -> forallb p (firstn i s) = true ->
                      k (skipn i s) c = None.
Proof.
  revert res; induction s as [|a s IH]; intros res H; cbn [greedy_scan] in H.
  - exists 0. cbn. repeat split; auto. intros i Hi Hle. lia.
  - destruct (p a) eqn:Ep.
    + destruct (greedy_scan p s c k) eqn:E.
      * injection H as <-. destruct (IH _ eq_refl) as (j & Hj & Hall & Hk & Hmax).
        exists (S j). cbn. rewrite Ep, Hall. repeat split; auto; try lia.
        intros [|i] Hi Hle Hi_all; [lia|]. cbn in Hi_all, Hle.
        rewrite Ep in Hi_all. apply Hmax; auto; lia.
      * exists 0. cbn. repeat split; auto; try lia.
        intros [|i] Hi Hle Hi_all; [lia|]. cbn in Hi_all, Hle.
        rewrite Ep in Hi_all. apply (greedy_scan_none _ _ _ _ E); auto. lia.
    + exists 0. cbn. repeat split; auto; try lia.
      intros [|i] Hi Hle Hi_all; [lia|]. cbn in Hi_all. now rewrite Ep in Hi_all.
Qed.

Lemma greedy_scan_last p (s : jsstring) (c : captures) (k : continuation) j res :
  j <= length s -> forallb p (firstn j s) = true ->
  k (skipn j s) c = Some res ->
  (forall i, j < i -> i <= length s -> forallb p (firstn i s) = true ->
             k (skipn i s) c = None) ->
  greedy_scan p s c k = Some res.
Proof.
  revert j; induction s as [|a s IH]; intros j Hj Hall Hk Hmax.
  - destruct j; [exact Hk|cbn in Hj; lia].
  - cbn [greedy_scan]. destruct (p a) eqn:Ep.
    + destruct j as [|j].
      * destruct (greedy_scan p s c k) as [res'|] eqn:E; [|exact Hk].
        apply greedy_scan_inv in E as (j' & Hj' & Hall' & Hk').
        assert (Hno : k (skipn (S j') (a :: s)) c = None).
        { apply Hmax; [lia|cbn; lia|]. cbn. now rewrite Ep, Hall'. }
        cbn [skipn] in Hno. rewrite Hno in Hk'. discriminate.
      * cbn in Hall, Hk, Hj. rewrite Ep in Hall.
        rewrite (IH j); auto; try lia.
        intros i Hi Hle Hi_all. apply (Hmax (S i)); try lia; [cbn; lia|].
        cbn. now rewrite Ep, Hi_all.
    + destruct j as [|j]; [exact Hk|]. cbn in Hall. now rewrite Ep in Hall.
Qed.

End ScanFacts.

(** ** Shape of one match of [codeBlockRegex] *)

Section CodeBlockMatch.

Let finish : continuation := fun rest c => Some (c, rest).

Let closing : regex := Lit (LF :: fence).
Let bodyPart : regex := Seq (Group 2 (Star false (Class any_char))) closing.
Let linePart : regex :=
  Seq (Star true (Class is_space)) (Seq (Class (is_char LF)) bodyPart).
Let tagPart : regex := Opt (Group 1 (Plus (Class is_word))).

(** No line feed of the white space that [after] starts with is followed
    by a closing marker. *)
Let last_line_feed (after : jsstring) : Prop :=
  forall sp r, after = sp ++ LF :: r -> forallb is_space sp = true ->
               includes (LF :: fence) r = false.

Lemma codeBlockRegex_parts : codeBlockRegex = Seq (Lit fence) (Seq tagPart linePart).
Proof. reflexivity. Qed.

Lemma firstn_length_skipn (s : jsstring) j :
  j <= length s -> firstn (length s - length (skipn j s)) s = firstn j s.
Proof. intros H. rewrite length_skipn. f_equal. lia. Qed.

Lemma body_inv s c0 c rest :
  rmatch bodyPart s c0 finish = Some (c, rest) ->
  exists raw,
    s = raw ++ LF :: fence ++ rest /\
    c = capture 2 raw c0 /\
    indexOf (LF :: fence) s = Some (length raw).
Proof.
  unfold bodyPart. rewrite rmatch_Seq, rmatch_Group, rmatch_lazy_class. intros H.
  apply lazy_scan_inv in H as (j & Hj & _ & Hk & Hmin).
  unfold closing in Hk, Hmin. rewrite rmatch_Lit in Hk.
  destruct (starts_with (LF :: fence) (skipn j s)) eqn:Est; [|easy].
  unfold finish in Hk. injection Hk as <- <-.
  rewrite firstn_length_skipn by exact Hj.
  assert (Hlen : length (firstn j s) = j) by (apply firstn_length_le; exact Hj).
  exists (firstn j s). split; [|split].
  - rewrite <- (firstn_skipn j s) at 1. f_equal.
    now apply starts_with_split in Est.
  - reflexivity.
  - rewrite Hlen. apply indexOf_first; auto.
    intros i Hi. specialize (Hmin i Hi). rewrite rmatch_Lit in Hmin.
    now destruct (starts_with (LF :: fence) (skipn i s)).
Qed.

Lemma line_inv s c0 c rest :
  rmatch linePart s c0 finish = Some (c, rest) ->
  exists ws raw,
    s = ws ++ LF :: raw ++ LF :: fence ++ rest /\
    forallb is_space ws = true /\
    c = capture 2 raw c0 /\
    indexOf (LF :: fence) (raw ++ LF :: fence ++ rest) = Some (length raw).
Proof.
  unfold linePart.
  change (rmatch (Seq ?a ?b) s c0 finish)
    with (rmatch a s c0 (fun s' c' => rmatch b s' c' finish)).
  rewrite rmatch_greedy_class. intros H.
  apply greedy_scan_inv in H as (j & Hj & Hws & Hk).
  change (rmatch (Seq (Class ?p) ?b) ?s' ?c' finish)
    with (match s' with
          | a :: s'' => if p a then rmatch b s'' c' finish else None
          | [] => None
          end) in Hk.
  destruct (skipn j s) as [|a s'] eqn:Esk; [easy|].
  destruct (is_char LF a) eqn:Ea; [|easy].
  apply Ascii.eqb_eq in Ea; subst a.
  apply body_inv in Hk as (raw & Hs' & Hc & Hidx).
  exists (firstn j s), raw. repeat split; auto.
  - rewrite <- (firstn_skipn j s) at 1. rewrite Esk. now rewrite Hs' at 1.
  - now rewrite <- Hs'.
Qed.

Lemma tag_inv s c rest :
  rmatch (Seq tagPart linePart) s no_captures finish = Some (c, rest) ->
  exists tag ws raw,
    s = tag ++ ws ++ LF :: raw ++ LF :: fence ++ rest /\
    forallb is_word tag = true /\
    forallb is_space ws = true /\
    or_empty (c 1) = tag /\ c 2 = Some raw /\
    indexOf (LF :: fence) (raw ++ LF :: fence ++ rest) = Some (length raw).
Proof.
  change (rmatch (Seq tagPart linePart) s no_captures finish)
    with (match rmatch (Group 1 (Plus (Class is_word))) s no_captures
                  (fun s' c' => rmatch linePart s' c' finish) with
          | Some res => Some res
          | None => rmatch linePart s no_captures finish
          end).
  destruct (rmatch (Group 1 (Plus (Class is_word))) s no_captures _) as [res|] eqn:Etag.
  - intros [= ->].
    change (rmatch (Group 1 (Plus (Class is_word))) s no_captures ?k)
      with (match s with
            | a :: s' =>
                if is_word a
                then rmatch (Star true (Class is_word)) s' no_captures
                       (fun s'' c'' => k s'' (capture 1 (firstn (length s - length s'') s) c''))
                else None
            | [] => None
            end) in Etag.
    destruct s as [|a s]; [easy|]. destruct (is_word a) eqn:Ea; [|easy].
    rewrite rmatch_greedy_class in Etag.
    apply greedy_scan_inv in Etag as (j & Hj & Hw & Hk).
    apply line_inv in Hk as (ws & raw & Hs & Hws & Hc & Hidx).
    assert (E : length (a :: s) - length (skipn j s) = S j)
      by (rewrite length_skipn; cbn [length]; lia).
    rewrite E in Hc.
    exists (a :: firstn j s), ws, raw. subst c. repeat split; auto.
    + rewrite <- (firstn_skipn j s) at 1. rewrite Hs at 1. reflexivity.
    + simpl. now rewrite Ea, Hw.
  - intros H. apply line_inv in H as (ws & raw & Hs & Hws & Hc & Hidx).
    exists [], ws, raw. subst c. repeat split; auto.
Qed.

Lemma codeBlock_match_inv s c rest :
  match_here codeBlockRegex s = Some (c, rest) ->
  exists tag ws raw,
    s = fence ++ tag ++ ws ++ LF :: raw ++ LF :: fence ++ rest /\
    forallb is_word tag = true /\
    forallb is_space ws = true /\
    or_empty (c 1) = tag /\ c 2 = Some raw /\
    indexOf (LF :: fence) (raw ++ LF :: fence ++ rest) = Some (length raw).
Proof.
  unfold match_here. rewrite codeBlockRegex_parts.
  change (rmatch (Seq (Lit fence) ?b) s no_captures ?k)
    with (rmatch (Lit fence) s no_captures (fun s' c' => rmatch b s' c' k)).
  rewrite rmatch_Lit. destruct (starts_with fence s) eqn:Ef; [|easy].
  intros H. apply tag_inv in H as (tag & ws & raw & Hs & H).
  exists tag, ws, raw. split; [|exact H].
  apply starts_with_split in Ef. rewrite Ef at 1. now rewrite Hs at 1.
Qed.

(** *** The match, exactly *)

Lemma forallb_any_char (s : jsstring) : forallb any_char s = true.
Proof.
  induction s as [|a s IH]; cbn; [reflexivity|].
  rewrite IH. unfold any_char. now destruct (is_space a).
Qed.

Lemma body_forward s c0 q :
  indexOf (LF :: fence) s = Some q ->
  rmatch bodyPart s c0 finish = Some (capture 2 (firstn q s) c0, skipn 4 (skipn q s)).
Proof.
  intros H. apply indexOf_inv in H as (Hq & Hat & Hmin).
  unfold bodyPart. rewrite rmatch_Seq, rmatch_Group, rmatch_lazy_class.
  apply lazy_scan_first with (j := q); auto.
  - apply forallb_any_char.
  - unfold closing. rewrite rmatch_Lit, Hat. unfold finish.
    now rewrite firstn_length_skipn by exact Hq.
  - intros i Hi. unfold closing. now rewrite rmatch_Lit, (Hmin i Hi).
Qed.

Lemma body_none s c0 :
  includes (LF :: fence) s = false -> rmatch bodyPart s c0 finish = None.
Proof.
  intros Hinc. destruct (rmatch bodyPart s c0 finish) as [[c rest]|] eqn:E; [|reflexivity].
  apply body_inv in E as (raw & _ & _ & Hidx).
  unfold includes in Hinc. now rewrite Hidx in Hinc.
Qed.

Lemma body_found s c0 :
  rmatch bodyPart s c0 finish = None -> includes (LF :: fence) s = false.
Proof.
  intros Hnone. unfold includes.
  destruct (indexOf (LF :: fence) s) as [q|] eqn:E; [|reflexivity].
  now rewrite (body_forward _ c0 E) in Hnone.
Qed.

Lemma blank_prefix_line_feed sp t :
  forallb is_space sp = true ->
  existsb (is_char LF) (blank_prefix (sp ++ LF :: t)) = true.
Proof.
  induction sp as [|a sp IH]; cbn [app forallb]; intros H.
  - reflexivity.
  - apply andb_prop in H as [Ha Hsp]. cbn [blank_prefix]. rewrite Ha.
    cbn [existsb]. rewrite (IH Hsp). apply orb_true_r.
Qed.

Lemma blank_prefix_split raw :
  existsb (is_char LF) (blank_prefix raw) = true ->
  exists sp t, raw = sp ++ LF :: t /\ forallb is_space sp = true.
Proof.
  induction raw as [|a raw IH]; cbn [blank_prefix]; [discriminate|].
  destruct (is_space a) eqn:Ea; [|discriminate].
  cbn [existsb]. destruct (is_char LF a) eqn:El.
  - intros _. apply Ascii.eqb_eq in El. subst a. now exists [], raw.
  - cbn [orb]. intros H. destruct (IH H) as (sp & t & -> & Hsp).
    exists (a :: sp), t. cbn. now rewrite Ea, Hsp.
Qed.

Lemma starts_content_spec raw rest :
  starts_content raw rest = true <-> last_line_feed (raw ++ LF :: fence ++ rest).
Proof.
  unfold starts_content, last_line_feed. split.
  - intros H sp r Heq Hsp. apply andb_prop in H as [Hnb Hlast].
    apply negb_true_iff in Hnb.
    assert (Hsame : sp = raw -> r = fence ++ rest -> includes (LF :: fence) r = false).
    { intros -> ->. rewrite Hsp in Hlast. cbn [negb orb] in Hlast.
      now apply negb_true_iff in Hlast. }
    apply app_eq_app in Heq as [l [[Hraw Hr]|[Hsp' Hr]]].
    + destruct l as [|x l].
      * rewrite app_nil_r in Hraw. cbn [app] in Hr. injection Hr as Hr.
        now apply Hsame.
      * cbn [app] in Hr. injection Hr as <- _.
        rewrite Hraw, blank_prefix_line_feed in Hnb by exact Hsp. discriminate.
    + destruct l as [|x l].
      * rewrite app_nil_r in Hsp'. cbn [app] in Hr. injection Hr as Hr.
        now apply Hsame.
      * cbn [app] in Hr. injection Hr as <- Hr.
        rewrite Hsp', forallb_app in Hsp. apply andb_prop in Hsp as [_ Hl].
        cbn [forallb] in Hl. apply andb_prop in Hl as [_ Hl].
        destruct l as [|y l]; [discriminate Hr|].
        injection Hr as <- _. discriminate Hl.
  - intros H. apply andb_true_intro. split.
    + apply negb_true_iff.
      destruct (existsb (is_char LF) (blank_prefix raw)) eqn:E; [|reflexivity].
      apply blank_prefix_split in E as (sp & t & -> & Hsp).
      rewrite <- (H sp (t ++ (LF :: fence) ++ rest)); auto.
      * symmetry. apply includes_app.
      * now rewrite <- app_assoc.
    + destruct (forallb is_space raw) eqn:E; [|reflexivity].
      cbn [negb orb]. now rewrite (H raw (fence ++ rest)).
Qed.

Lemma line_forward ws after c0 q :
  forallb is_space ws = true ->
  indexOf (LF :: fence) after = Some q ->
  last_line_feed after ->
  rmatch linePart (ws ++ LF :: after) c0 finish
  = Some (capture 2 (firstn q after) c0, skipn 4 (skipn q after)).
Proof.
  intros Hws Hidx Hlast. unfold linePart. rewrite rmatch_Seq, rmatch_greedy_class.
  assert (Hskip : skipn (length ws) (ws ++ LF :: after) = LF :: after)
    by apply skipn_exact.
  apply greedy_scan_last with (j := length ws).
  - rewrite length_app. lia.
  - now rewrite firstn_app_exact.
  - rewrite Hskip, rmatch_Seq, rmatch_Class.
    replace (is_char LF LF) with true by reflexivity.
    now apply body_forward.
  - intros i Hi Hle Hall. rewrite rmatch_Seq, rmatch_Class.
    destruct (skipn i (ws ++ LF :: after)) as [|a tl] eqn:Esk; [reflexivity|].
    destruct (is_char LF a) eqn:Ea; [|reflexivity].
    apply Ascii.eqb_eq in Ea. subst a.
    apply body_none.
    pose proof (firstn_skipn i (ws ++ LF :: after)) as Hsplit. rewrite Esk in Hsplit.
    assert (Hfirst : firstn i (ws ++ LF :: after)
                     = ws ++ LF :: firstn (i - length ws - 1) after).
    { rewrite firstn_app.
      rewrite (firstn_all2 (n := i) ws) by lia.
      destruct (i - length ws) as [|d] eqn:Ed; [lia|]. cbn [firstn].
      do 3 f_equal. lia. }
    rewrite Hfirst in Hsplit, Hall.
    rewrite forallb_app in Hall. apply andb_prop in Hall as [_ Hall].
    cbn [forallb] in Hall. apply andb_prop in Hall as [_ Hall].
    apply (Hlast (firstn (i - length ws - 1) after) tl); [|exact Hall].
    rewrite <- app_assoc in Hsplit. apply app_inv_head in Hsplit.
    cbn [app] in Hsplit. now injection Hsplit as ->.
Qed.

Lemma line_exact s c0 c rest :
  rmatch linePart s c0 finish = Some (c, rest) ->
  exists ws raw,
    s = ws ++ LF :: raw ++ LF :: fence ++ rest /\
    forallb is_space ws = true /\
    c = capture 2 raw c0 /\
    indexOf (LF :: fence) (raw ++ LF :: fence ++ rest) = Some (length raw) /\
    starts_content raw rest = true.
Proof.
  unfold linePart. rewrite rmatch_Seq, rmatch_greedy_class. intros H.
  apply greedy_scan_inv_max in H as (j & Hj & Hws & Hk & Hmax).
  rewrite rmatch_Seq, rmatch_Class in Hk.
  destruct (skipn j s) as [|a s'] eqn:Esk; [discriminate|].
  destruct (is_char LF a) eqn:Ea; [|discriminate].
  apply Ascii.eqb_eq in Ea; subst a.
  apply body_inv in Hk as (raw & Hs' & Hc & Hidx).
  assert (Hs : s = firstn j s ++ LF :: raw ++ LF :: fence ++ rest).
  { rewrite <- (firstn_skipn j s) at 1. rewrite Esk. now rewrite Hs' at 1. }
  exists (firstn j s), raw. repeat split; auto.
  - now rewrite <- Hs'.
  - apply starts_content_spec. intros sp r Heq Hsp.
    apply body_found with (c0 := c0).
    assert (Hlen : length (firstn j s) = j) by now apply firstn_length_le.
    remember (firstn j s) as ws eqn:Ews.
    assert (Hs2 : s = (ws ++ LF :: sp) ++ LF :: r).
    { rewrite Hs at 1. rewrite Heq, <- app_assoc. reflexivity. }
    specialize (Hmax (length (ws ++ LF :: sp))).
    rewrite Hs2, firstn_app_exact, skipn_exact in Hmax.
    rewrite rmatch_Seq, rmatch_Class in Hmax.
    replace (is_char LF LF) with true in Hmax by reflexivity.
    apply Hmax.
    + rewrite length_app, Hlen. cbn [length]. lia.
    + rewrite !length_app. cbn [length]. lia.
    + rewrite forallb_app, Hws. cbn [forallb andb]. exact Hsp.
Qed.

Lemma tag_exact s c rest :
  rmatch (Seq tagPart linePart) s no_captures finish = Some (c, rest) ->
  exists tag ws raw,
    s = tag ++ ws ++ LF :: raw ++ LF :: fence ++ rest /\
    forallb is_word tag = true /\
    forallb is_space ws = true /\
    or_empty (c 1) = tag /\ c 2 = Some raw /\
    indexOf (LF :: fence) (raw ++ LF :: fence ++ rest) = Some (length raw) /\
    starts_content raw rest = true.
Proof.
  unfold tagPart, Opt. rewrite rmatch_Seq, rmatch_Alt.
  destruct (rmatch (Group 1 (Plus (Class is_word))) s no_captures _) as [res|] eqn:Etag.
  - intros [= ->]. unfold Plus in Etag.
    rewrite rmatch_Group, rmatch_Seq, rmatch_Class in Etag.
    destruct s as [|a s]; [discriminate|]. destruct (is_word a) eqn:Ea; [|discriminate].
    rewrite rmatch_greedy_class in Etag.
    apply greedy_scan_inv in Etag as (j & Hj & Hw & Hk).
    apply line_exact in Hk as (ws & raw & Hs & Hws & Hc & Hidx & Hstart).
    assert (E : length (a :: s) - length (skipn j s) = S j)
      by (rewrite length_skipn; cbn [length]; lia).
    rewrite E in Hc.
    exists (a :: firstn j s), ws, raw. subst c. repeat split; auto.
    + rewrite <- (firstn_skipn j s) at 1. rewrite Hs at 1. reflexivity.
    + simpl. now rewrite Ea, Hw.
  - cbn [rmatch]. intros H.
    apply line_exact in H as (ws & raw & Hs & Hws & Hc & Hidx & Hstart).
    exists [], ws, raw. subst c. repeat split; auto.
Qed.

(** What the pattern matches at the start of a text is a block that starts
    there, and nothing else. *)
Lemma codeBlock_match_exact s c rest :
  match_here codeBlockRegex s = Some (c, rest) ->
  block_starts s (or_empty (c 1)) (or_empty (c 2)) rest.
Proof.
  unfold match_here. rewrite codeBlockRegex_parts, rmatch_Seq, rmatch_Lit.
  destruct (starts_with fence s) eqn:Ef; [|discriminate].
  intros H. apply tag_exact in H as (tag & ws & raw & Hs & Hw & Hws & H1 & H2 & Hidx & Hstart).
  rewrite H1, H2. cbn [or_empty]. exists ws. repeat split; auto.
  apply starts_with_split in Ef. rewrite Ef at 1. now rewrite Hs at 1.
Qed.

(** A block that starts a text is matched there. *)
Lemma codeBlock_match_forward s tag raw rest :
  block_starts s tag raw rest ->
  exists c, match_here codeBlockRegex s = Some (c, rest) /\
            or_empty (c 1) = tag /\ c 2 = Some raw.
Proof.
  intros (ws & -> & Hw & Hws & Hidx & Hstart).
  apply starts_content_spec in Hstart.
  assert (Hline : forall c0,
            rmatch linePart (ws ++ LF :: raw ++ LF :: fence ++ rest) c0 finish
            = Some (capture 2 raw c0, rest)).
  { intros c0. rewrite (@line_forward ws _ c0 _ Hws Hidx Hstart).
    now rewrite firstn_app_exact, skipn_exact. }
  assert (Hstop : forall t : jsstring,
            match ws ++ LF :: t with [] => true | b :: _ => negb (is_word b) end = true).
  { intros t. destruct ws as [|w ws']; [reflexivity|].
    cbn in Hws. apply andb_prop in Hws as [Hw0 _].
    cbn. now rewrite (space_not_word _ Hw0). }
  unfold match_here. rewrite codeBlockRegex_parts, rmatch_Seq, rmatch_Lit.
  rewrite starts_with_app, skipn_exact.
  unfold tagPart, Opt, Plus. rewrite rmatch_Seq, rmatch_Alt, rmatch_Group, rmatch_Seq, rmatch_Class.
  destruct tag as [|a tag]; cbn [app].
  - assert (Hhead : match ws ++ LF :: raw ++ LF :: fence ++ rest with
                    | [] => None (A := captures * jsstring)
                    | b :: s' =>
                        if is_word b
                        then rmatch (Star true (Class is_word)) s' no_captures
                               (fun s'' c'' =>
                                  rmatch linePart s''
                                    (capture 1
                                       (firstn (length (ws ++ LF :: raw ++ LF :: fence ++ rest)
                                                - length s'')
                                          (ws ++ LF :: raw ++ LF :: fence ++ rest)) c'') finish)
                        else None
                    end = None).
    { specialize (Hstop (raw ++ LF :: fence ++ rest)).
      destruct (ws ++ LF :: raw ++ LF :: fence ++ rest) as [|b s']; [reflexivity|].
      apply negb_true_iff in Hstop. now rewrite Hstop. }
    unfold finish in *. rewrite Hhead. cbn [rmatch]. rewrite Hline.
    eexists. split; [reflexivity|]. now split.
  - cbn in Hw. apply andb_prop in Hw as [Ha Hw]. rewrite Ha, rmatch_greedy_class.
    erewrite greedy_scan_max; [| exact Hw | apply Hstop | apply Hline].
    eexists. split; [reflexivity|]. split; [|reflexivity].
    cbn [capture Nat.eqb or_empty].
    change (a :: tag ++ ws ++ LF :: raw ++ LF :: fence ++ rest)
      with ((a :: tag) ++ ws ++ LF :: raw ++ LF :: fence ++ rest).
    now rewrite firstn_exact.
Qed.

Lemma codeBlock_needs_fence s :
  starts_with fence s = false -> match_here codeBlockRegex s = None.
Proof.
  intros H. unfold match_here. now rewrite codeBlockRegex_parts, rmatch_Seq, rmatch_Lit, H.
Qed.

End CodeBlockMatch.

(** ** The loop of [_extractCodeBlocks] *)

Section ExtractLoop.

Lemma exec_from_inv r i s m :
  exec_from r i s = Some m ->
  exists skipped s',
    s = skipped ++ s' /\
    m_index m = i + length skipped /\
    match_here r s' = Some (m_groups m, m_rest m) /\
    m_text m = firstn (length s' - length (m_rest m)) s'.
Proof.
  revert i; induction s as [|a s IH]; intros i; cbn [exec_from].
  - destruct (match_here r []) as [[c rest]|] eqn:E; [|easy].
    intros [= <-]. exists [], []. simpl. rewrite E. repeat split; auto.
  - destruct (match_here r (a :: s)) as [[c rest]|] eqn:E.
    + intros [= <-]. exists [], (a :: s). cbn [m_index m_groups m_rest m_text app length].
      rewrite E. repeat split; auto.
    + intros H. apply IH in H as (skipped & s' & -> & Hi & Hm & Ht).
      exists (a :: skipped), s'. cbn [length app]. repeat split; auto. lia.
Qed.

(** What one iteration of the loop finds. *)
Lemma exec_codeBlock_inv s m :
  exec codeBlockRegex s = Some m ->
  exists skipped tag ws raw,
    s = skipped ++ m_text m ++ m_rest m /\
    m_text m = fence ++ tag ++ ws ++ LF :: raw ++ LF :: fence /\
    forallb is_word tag = true /\
    forallb is_space ws = true /\
    block_of_match m = {| language := tag; code_text := trim raw |} /\
    indexOf (LF :: fence) (raw ++ LF :: fence ++ m_rest m) = Some (length raw).
Proof.
  intros H. apply exec_from_inv in H as (skipped & s' & -> & _ & Hm & Ht).
  apply codeBlock_match_inv in Hm as (tag & ws & raw & Hs' & Hw & Hws & H1 & H2 & Hidx).
  assert (Htext : m_text m = fence ++ tag ++ ws ++ LF :: raw ++ LF :: fence).
  { rewrite Ht, Hs'.
    replace (fence ++ tag ++ ws ++ LF :: raw ++ LF :: fence ++ m_rest m)
      with ((fence ++ tag ++ ws ++ LF :: raw ++ LF :: fence) ++ m_rest m)
      by (repeat (rewrite <- ?app_assoc; cbn [app]); reflexivity).
    rewrite length_app, Nat.add_sub. now rewrite firstn_app, Nat.sub_diag, firstn_all, app_nil_r. }
  exists skipped, tag, ws, raw. repeat split; auto.
  - rewrite Htext, Hs'. repeat (rewrite <- ?app_assoc; cbn [app]). reflexivity.
  - unfold block_of_match. now rewrite H1, H2.
Qed.

Lemma exec_codeBlock_progress s m :
  exec codeBlockRegex s = Some m -> length (m_rest m) < length s.
Proof.
  intros H. apply exec_codeBlock_inv in H as (skipped & tag & ws & raw & Hs & Ht & _).
  rewrite Hs, Ht. repeat (rewrite ?length_app; cbn [length fence js list_ascii_of_string]). lia.
Qed.

Lemma all_matches_fuel n1 n2 s :
  length s <= n1 -> length s <= n2 ->
  all_matches n1 codeBlockRegex s = all_matches n2 codeBlockRegex s.
Proof.
  revert n2 s; induction n1 as [|n1 IH]; intros n2 s H1 H2.
  - destruct s; [|simpl in H1; lia]. destruct n2; [easy|].
    cbn [all_matches]. now destruct (exec codeBlockRegex []) eqn:E.
  - destruct n2 as [|n2].
    + destruct s; [|simpl in H2; lia].
      cbn [all_matches]. now destruct (exec codeBlockRegex []) eqn:E.
    + cbn [all_matches]. destruct (exec codeBlockRegex s) as [m|] eqn:E; [|easy].
      apply exec_codeBlock_progress in E. f_equal. apply IH; lia.
Qed.

Lemma extract_loop_matches fuel s acc :
  extract_loop fuel s acc = acc ++ map block_of_match (all_matches fuel codeBlockRegex s).
Proof.
  revert s acc; induction fuel as [|fuel IH]; intros s acc; cbn [extract_loop all_matches].
  - now rewrite app_nil_r.
  - destruct (exec codeBlockRegex s) as [m|]; [|now rewrite app_nil_r].
    rewrite IH, <- app_assoc. reflexivity.
Qed.

Lemma all_matches_located fuel s m :
  In m (all_matches fuel codeBlockRegex s) ->
  exists before, s = before ++ m_text m ++ m_rest m.
Proof.
  revert s; induction fuel as [|fuel IH]; intros s; cbn [all_matches]; [easy|].
  destruct (exec codeBlockRegex s) as [m0|] eqn:E; [|easy].
  intros [<-|Hin].
  - apply exec_codeBlock_inv in E as (skipped & _ & _ & _ & Hs & _). now exists skipped.
  - apply IH in Hin as (before & Hrest).
    apply exec_codeBlock_inv in E as (skipped & _ & _ & _ & Hs & _).
    exists (skipped ++ m_text m0 ++ before).
    rewrite Hs at 1. rewrite Hrest at 1. now rewrite <- !app_assoc.
Qed.

Lemma all_matches_exec fuel s m :
  In m (all_matches fuel codeBlockRegex s) ->
  exists s', exec codeBlockRegex s' = Some m.
Proof.
  revert s; induction fuel as [|fuel IH]; intros s; cbn [all_matches]; [easy|].
  destruct (exec codeBlockRegex s) as [m0|] eqn:E; [|easy].
  intros [<-|Hin]; [now exists s|]. now apply IH in Hin.
Qed.

Lemma exec_codeBlock_needs p s :
  (p = fence \/ p = LF :: fence) ->
  includes p s = false -> exec codeBlockRegex s = None.
Proof.
  intros Hp Hinc. destruct (exec codeBlockRegex s) as [m|] eqn:E; [|easy].
  apply exec_codeBlock_inv in E as (skipped & tag & ws & raw & Hs & Ht & _).
  rewrite Ht in Hs. exfalso. revert Hinc. rewrite Hs.
  destruct Hp as [-> | ->].
  - rewrite <- !app_assoc, includes_app. easy.
  - replace (skipped ++ (fence ++ tag ++ ws ++ LF :: raw ++ LF :: fence) ++ m_rest m)
      with ((skipped ++ fence ++ tag ++ ws ++ LF :: raw) ++ (LF :: fence) ++ m_rest m)
      by (repeat (rewrite <- ?app_assoc; cbn [app]); reflexivity).
    rewrite includes_app. easy.
Qed.

(** What one iteration of the loop finds, exactly. *)
Lemma exec_codeBlock_exact s m :
  exec codeBlockRegex s = Some m ->
  exists skipped tag ws raw,
    s = skipped ++ m_text m ++ m_rest m /\
    m_index m = length skipped /\
    m_text m = fence ++ tag ++ ws ++ LF :: raw ++ LF :: fence /\
    forallb is_word tag = true /\
    forallb is_space ws = true /\
    block_of_match m = {| language := tag; code_text := trim raw |} /\
    indexOf (LF :: fence) (raw ++ LF :: fence ++ m_rest m) = Some (length raw) /\
    starts_content raw (m_rest m) = true.
Proof.
  intros H. apply exec_from_inv in H as (skipped & s' & -> & Hindex & Hm & Ht).
  apply codeBlock_match_exact in Hm as (ws & Hs' & Hw & Hws & Hidx & Hstart).
  set (tag := or_empty (m_groups m 1)) in *. set (raw := or_empty (m_groups m 2)) in *.
  assert (Htext : m_text m = fence ++ tag ++ ws ++ LF :: raw ++ LF :: fence).
  { rewrite Ht, Hs'.
    replace (fence ++ tag ++ ws ++ LF :: raw ++ LF :: fence ++ m_rest m)
      with ((fence ++ tag ++ ws ++ LF :: raw ++ LF :: fence) ++ m_rest m)
      by (repeat (rewrite <- ?app_assoc; cbn [app]); reflexivity).
    apply firstn_exact. }
  exists skipped, tag, ws, raw. repeat split; auto.
  rewrite Htext, Hs'. repeat (rewrite <- ?app_assoc; cbn [app]). reflexivity.
Qed.

(** The first block of a text, and the blocks after it. *)
Lemma extract_first s i tag raw rest :
  i <= length s ->
  block_starts (skipn i s) tag raw rest ->
  (forall k, k < i -> match_here codeBlockRegex (skipn k s) = None) ->
  _extractCodeBlocks s
  = {| language := tag; code_text := trim raw |} :: _extractCodeBlocks rest.
Proof.
  intros Hi Hblock Hnone.
  apply codeBlock_match_forward in Hblock as (c & Hm & H1 & H2).
  destruct (@exec_from_first codeBlockRegex 0 s i c rest Hi Hnone Hm) as (m & Hexec & Hg & Hr).
  fold (exec codeBlockRegex s) in Hexec.
  pose proof (exec_codeBlock_progress _ Hexec) as Hprog.
  unfold _extractCodeBlocks. rewrite !extract_loop_matches. cbn [app].
  destruct (length s) as [|n] eqn:El; [lia|].
  cbn [all_matches]. rewrite Hexec. cbn [map]. f_equal.
  - unfold block_of_match. now rewrite Hg, H1, H2.
  - rewrite Hr in *. f_equal. apply all_matches_fuel; lia.
Qed.

Lemma extract_none s :
  (forall k, match_here codeBlockRegex (skipn k s) = None) -> _extractCodeBlocks s = [].
Proof.
  intros H. unfold _extractCodeBlocks. destruct (length s); [reflexivity|].
  cbn [extract_loop]. unfold exec. now rewrite exec_from_nowhere.
Qed.

Lemma no_block_no_match s :
  (forall tag raw rest, ~ block_starts s tag raw rest) ->
  match_here codeBlockRegex s = None.
Proof.
  intros H. destruct (match_here codeBlockRegex s) as [[c rest]|] eqn:E; [|reflexivity].
  apply codeBlock_match_exact in E. now apply H in E.
Qed.

End ExtractLoop.

(** ** Code block extraction (claim C8) *)

(** C8, as the code has it.  [_extractCodeBlocks] always returns (the loop
    ends within [length response] iterations, so more fuel changes
    nothing), and its blocks are the matches of the fence pattern in order.

    Every match is a piece [fence ++ tag ++ ws ++ LF :: raw ++ LF :: fence]
    of the response: the opening marker (a fence, its optional tag of word
    characters, white space and a line feed), the raw content, and the
    closing marker (a line feed and a fence).  The closing marker is the
    first one at or after the start of the content (the quantifier before
    it is lazy); where the content starts is decided by the greedy white
    space after the tag, which takes line feeds too: it starts after the
    last line feed of that white space that still has a closing marker
    after it ([starts_content]).

    Conversely the blocks are found: the first place of the response where
    a block starts gives the first block, and the search goes on after its
    closing fence; this is so in particular when a block starts at the
    first fence.  A response in which no block starts anywhere yields no
    block, and so do a response without a fence, one without a closing
    marker (an opening fence that is never closed), and the empty
    response; none of them is an error. *)
Theorem extractCodeBlocks_nearest_closing (response : jsstring) :
  (forall fuel, length response <= fuel ->
     extract_loop fuel response [] = _extractCodeBlocks response) /\
  _extractCodeBlocks response =
    map block_of_match (all_matches (length response) codeBlockRegex response) /\
  (forall m, In m (all_matches (length response) codeBlockRegex response) ->
     exists before tag ws raw,
       response = before ++ m_text m ++ m_rest m /\
       m_text m = fence ++ tag ++ ws ++ LF :: raw ++ LF :: fence /\
       forallb is_word tag = true /\
       forallb is_space ws = true /\
       block_of_match m = {| language := tag; code_text := trim raw |} /\
       indexOf (LF :: fence) (raw ++ LF :: fence ++ m_rest m) = Some (length raw) /\
       starts_content raw (m_rest m) = true) /\
  (forall i tag raw rest,
     i <= length response ->
     block_starts (skipn i response) tag raw rest ->
     (forall k tag' raw' rest', k < i -> ~ block_starts (skipn k response) tag' raw' rest') ->
     _extractCodeBlocks response
     = {| language := tag; code_text := trim raw |} :: _extractCodeBlocks rest) /\
  (forall i tag raw rest,
     indexOf fence response = Some i ->
     block_starts (skipn i response) tag raw rest ->
     _extractCodeBlocks response
     = {| language := tag; code_text := trim raw |} :: _extractCodeBlocks rest) /\
  ((forall k tag raw rest, ~ block_starts (skipn k response) tag raw rest) ->
   _extractCodeBlocks response = []) /\
  (includes fence response = false -> _extractCodeBlocks response = []) /\
  (includes (LF :: fence) response = false -> _extractCodeBlocks response = []) /\
  _extractCodeBlocks [] = [].
Proof.
  assert (Hnone : forall p, p = fence \/ p = LF :: fence ->
            includes p response = false -> _extractCodeBlocks response = []).
  { intros p Hp Hinc. unfold _extractCodeBlocks.
    destruct (length response); [easy|]. cbn [extract_loop].
    erewrite exec_codeBlock_needs; eauto. }
  split; [|split; [|split; [|split; [|split; [|split; [|split; [|split]]]]]]].
  - intros fuel Hfuel. unfold _extractCodeBlocks.
    rewrite !extract_loop_matches. f_equal. f_equal.
    now apply all_matches_fuel.
  - unfold _extractCodeBlocks. now rewrite extract_loop_matches.
  - intros m Hin.
    pose proof Hin as Hloc. apply all_matches_located in Hloc as (before & Hloc).
    apply all_matches_exec in Hin as (s' & Hexec).
    apply exec_codeBlock_exact in Hexec
      as (_ & tag & ws & raw & _ & _ & Ht & Hw & Hws & Hb & Hidx & Hstart).
    now exists before, tag, ws, raw.
  - intros i tag raw rest Hi Hblock Hfirst.
    apply extract_first with (i := i); auto.
    intros k Hk. apply no_block_no_match. intros tag' raw' rest'. now apply Hfirst.
  - intros i tag raw rest Hidx Hblock.
    apply indexOf_inv in Hidx as (Hi & _ & Hmin).
    apply extract_first with (i := i); auto.
    intros k Hk. apply codeBlock_needs_fence. now apply Hmin.
  - intros Hnowhere. apply extract_none.
    intros k. apply no_block_no_match. apply Hnowhere.
  - apply Hnone. now left.
  - apply Hnone. now right.
  - reflexivity.
Qed.

Lemma extractCodeBlocks_nearest_closing_witness :
  _extractCodeBlocks (js "Run this:" ++ LF :: fenced_python ++ LF :: js "Done.")
  = {| language := js "python"; code_text := js "def foo():" ++ LF :: js "    pass" |}
    :: _extractCodeBlocks (LF :: js "Done.") /\
  extract_loop 40 fenced_python [] = _extractCodeBlocks fenced_python /\
  _extractCodeBlocks (js "no fence here") = [] /\
  _extractCodeBlocks (js "```js" ++ LF :: js "never closed") = [].
Proof.
  split; [|split; [|split]].
  - destruct (extractCodeBlocks_nearest_closing
                (js "Run this:" ++ LF :: fenced_python ++ LF :: js "Done."))
      as (_ & _ & _ & _ & Hfirst & _).
    apply (Hfirst 10 (js "python") (js "def foo():" ++ LF :: js "    pass") (LF :: js "Done."));
      [reflexivity|].
    exists []. repeat split.
  - destruct (extractCodeBlocks_nearest_closing fenced_python) as (Hfuel & _).
    apply Hfuel. vm_compute. lia.
  - destruct (extractCodeBlocks_nearest_closing (js "no fence here"))
      as (_ & _ & _ & _ & _ & _ & Hfence & _).
    apply Hfence. reflexivity.
  - destruct (extractCodeBlocks_nearest_closing (js "```js" ++ LF :: js "never closed"))
      as (_ & _ & _ & _ & _ & _ & _ & Hclosing & _).
    apply Hclosing. reflexivity.
Defined.

(** C8 fails as stated: the closing marker nearest to the opening fence is
    not always the one it is paired with.  Here a closing marker follows
    the line of the opening fence at once (one character after the fence),
    and pairing the fence with it would give a block of eight characters
    with no content; but the white space after the fence takes the blank
    line too, the second fence becomes content, and the block is closed by
    the last fence. *)
Lemma blank_line_skips_nearest_closing :
  let response := js "```" ++ LF :: LF :: js "```" ++ LF :: js "foo" ++ LF :: js "```" in
  indexOf fence response = Some 0 /\
  indexOf (LF :: fence) (skipn (length fence) response) = Some 1 /\
  exists m,
    exec codeBlockRegex response = Some m /\
    m_index m = 0 /\
    m_text m = response /\
    length (m_text m) <> length fence + 1 + length (LF :: fence) /\
    _extractCodeBlocks response
    = [{| language := []; code_text := js "```" ++ LF :: js "foo" |}].
Proof.
  cbv zeta. split; [reflexivity|]. split; [reflexivity|].
  eexists. split; [reflexivity|]. repeat split. discriminate.
Qed.

Example extractCodeBlocks_python :
  _extractCodeBlocks fenced_python
  = [{| language := js "python"; code_text := js "def foo():" ++ LF :: js "    pass" |}].
Proof. reflexivity. Qed.

(** ** File extensions (claim C9) *)

Section Extensions.

Lemma toLowerCase_char_idem c :
  toLowerCase_char (toLowerCase_char c) = toLowerCase_char c.
Proof. destruct c as [[] [] [] [] [] [] [] []]; reflexivity. Qed.

Lemma same_letter_lower a b :
  same_letter a b = true -> toLowerCase_char a = toLowerCase_char b.
Proof.
  unfold same_letter. intros H.
  apply orb_prop in H as [H|H]; [apply orb_prop in H as [H|H]|];
    apply Ascii.eqb_eq in H.
  - now subst.
  - subst b. now rewrite toLowerCase_char_idem.
  - rewrite H. now rewrite toLowerCase_char_idem.
Qed.

Lemma case_variant_lower s t :
  case_variant s t = true -> toLowerCase s = toLowerCase t.
Proof.
  revert t; induction s as [|a s IH]; intros [|b t] H; simpl in *; try easy.
  apply andb_prop in H as [Hab Hst].
  now rewrite (same_letter_lower _ _ Hab), (IH _ Hst).
Qed.

(** The tag and a case variant of it get the same extension. *)
Lemma getFileExtension_case_insensitive s t :
  case_variant s t = true -> _getFileExtension s = _getFileExtension t.
Proof.
  intros H. unfold _getFileExtension. now rewrite (case_variant_lower _ _ H).
Qed.

(** A tag that is neither a language of the mapping nor, in lower case, a
    property name of [Object.prototype] gets [txt]. *)
Lemma getFileExtension_unknown tag :
  known_language tag = false ->
  existsb (str_eqb (toLowerCase tag)) Object_prototype = false ->
  _getFileExtension tag = Str (js "txt").
Proof.
  unfold known_language, _getFileExtension, get_property. intros Hk Hp.
  destruct (own_property extensionMap (toLowerCase tag)); [easy|].
  now rewrite Hp.
Qed.

Example getFileExtension_Python :
  _getFileExtension (js "Python") = Str (js "py") /\
  _getFileExtension (js "python") = Str (js "py") /\
  _getFileExtension (js "brainfuck") = Str (js "txt") /\
  _getFileExtension [] = Str (js "txt").
Proof. repeat split. Qed.

End Extensions.

(** C9, at the tag [constructor].  The tag is not a language of the
    mapping, and [_extractCodeBlocks] can deliver it; [extensionMap] has no
    own property of that name, the read continues in [Object.prototype] and
    finds the function [Object], which is truthy: the result is that
    function and not [txt], and the file gets the text of the function as
    its extension. *)
Theorem getFileExtension_constructor :
  known_language (js "constructor") = false /\
  map language (_extractCodeBlocks (js "```constructor" ++ LF :: js "x" ++ LF :: js "```"))
    = [js "constructor"] /\
  _getFileExtension (js "constructor") = Inherited (js "constructor") /\
  _getFileExtension (js "constructor") <> Str (js "txt") /\
  fileNameFor (js "x") (_getFileExtension (js "constructor")) 0
    = js "generated_0.function Object() { [native code] }".
Proof. repeat split. discriminate. Qed.

(** ** Default file names (claim C3) *)

Section DefaultNames.

Lemma js_inj a b : js a = js b -> a = b.
Proof.
  unfold js. intros H.
  now rewrite <- (string_of_list_ascii_of_string a), H, string_of_list_ascii_of_string.
Qed.

Lemma number_to_string_inj n1 n2 :
  number_to_string n1 = number_to_string n2 -> n1 = n2.
Proof.
  unfold number_to_string. intros H. apply js_inj in H.
  apply DecimalN.Unsigned.to_uint_inj.
  assert (E : Some (N.to_uint n1) = Some (N.to_uint n2))
    by (rewrite <- !NilEmpty.usu; now rewrite H).
  now injection E.
Qed.

Lemma string_of_uint_digits d :
  forallb is_digit (js (NilEmpty.string_of_uint d)) = true.
Proof. induction d; simpl; auto. Qed.

Lemma number_to_string_digits n : forallb is_digit (number_to_string n) = true.
Proof. apply string_of_uint_digits. Qed.

Lemma digits_then_dot d1 d2 x1 x2 :
  forallb is_digit d1 = true -> forallb is_digit d2 = true ->
  d1 ++ js "." ++ x1 = d2 ++ js "." ++ x2 -> d1 = d2 /\ x1 = x2.
Proof.
  revert d2; induction d1 as [|a d1 IH]; intros [|b d2] H1 H2 E; simpl in *.
  - injection E as E. now split.
  - injection E as E _. subst b. now apply andb_prop in H2 as [H2 _].
  - injection E as E _. subst a. now apply andb_prop in H1 as [H1 _].
  - injection E as -> E.
    apply andb_prop in H1 as [_ H1]. apply andb_prop in H2 as [_ H2].
    destruct (IH _ H1 H2 E) as [-> ->]. now split.
Qed.

Lemma default_name_eq e1 e2 now1 now2 :
  default_name e1 now1 = default_name e2 now2 <->
  now1 = now2 /\ to_string e1 = to_string e2.
Proof.
  unfold default_name. split.
  - intros H. apply app_inv_head in H.
    apply digits_then_dot in H as [Hn He];
      auto using number_to_string_digits, number_to_string_inj.
  - now intros [-> ->].
Qed.

End DefaultNames.

(** C3, as the code has it.  Two calls that fall back to the default name
    get the same name exactly when [Date.now()] returns the same number in
    both and the extensions are the same text; so two defaults are distinct
    whenever the two readings of the clock differ. *)
Theorem default_names_equal_iff_same_tick c1 c2 e1 e2 now1 now2 :
  fileNameFor c1 e1 now1 = default_name e1 now1 ->
  fileNameFor c2 e2 now2 = default_name e2 now2 ->
  (fileNameFor c1 e1 now1 = fileNameFor c2 e2 now2 <->
   now1 = now2 /\ to_string e1 = to_string e2) /\
  (now1 <> now2 -> fileNameFor c1 e1 now1 <> fileNameFor c2 e2 now2).
Proof.
  intros -> ->. split; [apply default_name_eq|].
  intros Hne H. apply default_name_eq in H as [H _]. contradiction.
Qed.

Lemma default_names_equal_iff_same_tick_witness :
  fileNameFor (js "first") (Str (js "txt")) 1700000000000
  <> fileNameFor (js "second") (Str (js "txt")) 1700000000001.
Proof.
  apply (@default_names_equal_iff_same_tick (js "first") (js "second")
           (Str (js "txt")) (Str (js "txt")) 1700000000000%N 1700000000001%N).
  - reflexivity.
  - reflexivity.
  - lia.
Defined.

(** C3 fails as stated: the two blocks of one response are written within
    the same millisecond, both fall back to the default name, and the names
    are equal; the second file replaces the first. *)
Lemma default_names_collide :
  let run := _processResponseForFiles sample_host two_plain_blocks
               (fun _ => all_fine 1700000000000) in
  snd run = [js "generated_1700000000000.txt"; js "generated_1700000000000.txt"] /\
  ~ NoDup (snd run) /\
  files (fst run) =
    [(js "/home/user/project/generated_1700000000000.txt", js "first");
     (js "/home/user/project/generated_1700000000000.txt", js "second")].
Proof.
  repeat split. intros H. vm_compute in H.
  inversion H as [|x l Hin _]; subst. apply Hin. now left.
Qed.

(** ** File names from a title (claim C4) *)

Section TitleNames.

Lemma rmatch_Lit_ci p s c k :
  rmatch (Lit_ci p) s c k = if starts_with_ci p s then k (skipn (length p) s) c else None.
Proof.
  revert s; induction p as [|a p IH]; intros s; simpl; [easy|].
  destruct s as [|b s]; [easy|].
  destruct (is_char_ci a b); simpl; [apply IH|easy].
Qed.

Lemma starts_with_ci_lower p s :
  toLowerCase p = p -> starts_with_ci p s = starts_with p (toLowerCase s).
Proof.
  revert s; induction p as [|a p IH]; intros s Hp; [easy|].
  destruct s as [|b s]; [easy|]. simpl in *.
  injection Hp as Ha Hp. unfold is_char_ci. rewrite Ha, (IH _ Hp). reflexivity.
Qed.

Lemma toLowerCase_skipn n s : toLowerCase (skipn n s) = skipn n (toLowerCase s).
Proof. unfold toLowerCase. symmetry. apply skipn_map. Qed.

Lemma lazy_scan_ext p s c k1 k2 :
  (forall s' c', k1 s' c' = k2 s' c') -> lazy_scan p s c k1 = lazy_scan p s c k2.
Proof.
  intros H. induction s as [|a s IH]; simpl; rewrite H; [easy|].
  now rewrite IH.
Qed.

Lemma slug_char_map t :
  toLowerCase (replace_non_alnum t) = map slug_char t.
Proof.
  unfold toLowerCase, replace_non_alnum. rewrite map_map.
  apply map_ext. intros c. unfold slug_char. now destruct (is_alnum c).
Qed.

Let finish : continuation := fun rest c => Some (c, rest).

Lemma title_match content i j :
  indexOf (js "<title>") (toLowerCase content) = Some i ->
  indexOf (js "</title>") (toLowerCase (skipn 7 (skipn i content))) = Some j ->
  forallb not_line_terminator (firstn j (skipn 7 (skipn i content))) = true ->
  exists m, exec titleRegex content = Some m /\
            m_groups m 1 = Some (firstn j (skipn 7 (skipn i content))).
Proof.
  intros Hopen Hclose Hline.
  apply indexOf_inv in Hopen as (Hi & Hat & Hmin).
  apply indexOf_inv in Hclose as (Hj & Hcat & Hcmin).
  unfold toLowerCase in Hi, Hj. rewrite length_map in Hi, Hj.
  set (s1 := skipn 7 (skipn i content)) in *.
  assert (Hhere : forall s, match_here titleRegex s =
            if starts_with (js "<title>") (toLowerCase s)
            then lazy_scan not_line_terminator (skipn 7 s) no_captures
                   (fun s' c' =>
                      if starts_with (js "</title>") (toLowerCase s')
                      then Some (capture 1 (firstn (length (skipn 7 s) - length s') (skipn 7 s)) c',
                                 skipn 8 s')
                      else None)
            else None).
  { intros s. unfold match_here, titleRegex.
    rewrite rmatch_Seq, rmatch_Lit_ci, starts_with_ci_lower by reflexivity.
    destruct (starts_with (js "<title>") (toLowerCase s)); [|easy].
    rewrite rmatch_Seq, rmatch_Group, rmatch_lazy_class.
    change (length (js "<title>")) with 7.
    apply lazy_scan_ext. intros s' c'.
    now rewrite rmatch_Lit_ci, starts_with_ci_lower. }
  destruct (@exec_from_first titleRegex 0 content i
              (capture 1 (firstn j s1) no_captures) (skipn 8 (skipn j s1)))
    as (m & Hm & Hg & _).
  - exact Hi.
  - intros k Hk. rewrite Hhere, toLowerCase_skipn, (Hmin k Hk). reflexivity.
  - rewrite Hhere, toLowerCase_skipn, Hat. fold s1.
    apply lazy_scan_first with (j := j); auto.
    + rewrite toLowerCase_skipn, Hcat. now rewrite firstn_length_skipn.
    + intros k Hk. now rewrite toLowerCase_skipn, (Hcmin k Hk).
  - exists m. split; [exact Hm|]. now rewrite Hg.
Qed.

End TitleNames.

(** C4, as the code has it.  For an [html] block, let the title be the text
    between the first [<title>] of the content (in any case) and the first
    [</title>] after it, and let it have no line terminator.  When the
    title is not empty, the file name is the title with every alphanumeric
    character in lower case and every other character replaced by one
    underscore, one for one (runs are not collapsed), followed by [.html].
    When the title is empty the name is the default one, whatever follows
    (a later title is not looked at), and so it is when the content has no
    [<title>] at all.  In particular [<title>My Page</title>] gives
    [my_page.html]. *)
Theorem title_file_name content now :
  (forall i j,
     let title := firstn j (skipn 7 (skipn i content)) in
     indexOf (js "<title>") (toLowerCase content) = Some i ->
     indexOf (js "</title>") (toLowerCase (skipn 7 (skipn i content))) = Some j ->
     forallb not_line_terminator title = true ->
     (0 < j ->
      fileNameFor content (Str (js "html")) now = map slug_char title ++ js ".html") /\
     (j = 0 ->
      fileNameFor content (Str (js "html")) now = default_name (Str (js "html")) now)) /\
  (indexOf (js "<title>") (toLowerCase content) = None ->
   fileNameFor content (Str (js "html")) now = default_name (Str (js "html")) now) /\
  fileNameFor (js "<title>My Page</title>") (_getFileExtension (js "html")) now
    = js "my_page.html".
Proof.
  split; [|split; [|reflexivity]].
  - intros i j title Hopen Hclose Hline.
    destruct (title_match _ Hopen Hclose Hline) as (m & Hm & Hg).
    unfold fileNameFor. cbn [strict_eq].
    replace (str_eqb (js "html") (js "html")) with true by reflexivity.
    rewrite Hm. cbn [first_group]. rewrite Hg. fold title.
    assert (Hlen : length title = j).
    { apply indexOf_inv in Hclose as (Hj & _).
      unfold toLowerCase in Hj. rewrite length_map in Hj.
      unfold title. now apply firstn_length_le. }
    split; intros Hj.
    + destruct title as [|c t] eqn:Et; [simpl in Hlen; lia|].
      rewrite slug_char_map. reflexivity.
    + destruct title as [|c t] eqn:Et; [reflexivity|simpl in Hlen; lia].
  - intros Hnone.
    unfold fileNameFor. cbn [strict_eq].
    replace (str_eqb (js "html") (js "html")) with true by reflexivity.
    unfold exec. rewrite exec_from_nowhere; [reflexivity|].
    intros k. unfold match_here, titleRegex.
    rewrite rmatch_Seq, rmatch_Lit_ci, starts_with_ci_lower by reflexivity.
    rewrite toLowerCase_skipn, starts_with_none; [reflexivity|].
    unfold includes. now rewrite Hnone.
Qed.

Lemma title_file_name_witness :
  fileNameFor (js "<html><head><TITLE>Hello, World!</TITLE></head></html>")
    (Str (js "html")) 0
  = js "hello__world_.html" /\
  fileNameFor (js "<title></title><title>Real</title>") (Str (js "html")) 7
  = js "generated_7.html" /\
  fileNameFor (js "<h1>Untitled</h1>") (Str (js "html")) 7
  = js "generated_7.html".
Proof.
  split; [|split].
  - destruct (@title_file_name
                (js "<html><head><TITLE>Hello, World!</TITLE></head></html>") 0%N)
      as (Htitle & _).
    apply (Htitle 12 13); [reflexivity | reflexivity | reflexivity | lia].
  - destruct (@title_file_name (js "<title></title><title>Real</title>") 7%N)
      as (Htitle & _).
    apply (Htitle 0 0); reflexivity.
  - destruct (@title_file_name (js "<h1>Untitled</h1>") 7%N) as (_ & Hnone & _).
    apply Hnone. reflexivity.
Defined.

(** C4 fails as stated: two spaces between the words of the title give two
    underscores, where the slug of the specification has one. *)
Lemma title_runs_not_collapsed :
  fileNameFor (js "<title>My  Page</title>") (_getFileExtension (js "html")) 0
    = js "my__page.html" /\
  spec_slug (js "My  Page") ++ js ".html" = js "my_page.html" /\
  fileNameFor (js "<title>My  Page</title>") (_getFileExtension (js "html")) 0
    <> spec_slug (js "My  Page") ++ js ".html".
Proof. repeat split. discriminate. Qed.

(** ** Writing the blocks of a response (claim C7) *)

Section WriteAll.

Lemma fileNameFor_nonempty content extension now :
  exists c name, fileNameFor content extension now = c :: name.
Proof.
  assert (Hdot : forall x y : jsstring, exists c name, x ++ js "." ++ y = c :: name)
    by (intros [|c x] y; simpl; eauto).
  unfold fileNameFor.
  destruct (strict_eq extension (js "html")).
  - destruct (first_group (exec titleRegex content)); [apply Hdot|].
    unfold default_name. simpl. eauto.
  - destruct (strict_eq extension (js "py")).
    + destruct (first_group (exec funcRegex content)); [|unfold default_name; simpl; eauto].
      apply (Hdot j (js "py")).
    + unfold default_name. simpl. eauto.
Qed.

(** One call of [_createFile]: it leaves the workspace folders alone, its
    result depends on the host through them only, a name is returned
    together with a write of the content under that name, and [null]
    together with exactly one error message. *)
Lemma createFile_spec h content extension io :
  let '(h', fileName) := _createFile h content extension io in
  workspaceFolders h' = workspaceFolders h /\
  fileName = snd (_createFile (bare_host (workspaceFolders h)) content extension io) /\
  match fileName with
  | Some name =>
      name <> [] /\
      errorMessages h' = errorMessages h /\
      exists folder others,
        workspaceFolders h = Some (folder :: others) /\
        files h' = files h ++ [(path_join folder name, content)]
  | None =>
      (exists text, errorMessages h' = errorMessages h ++ [text]) /\
      exists written, files h' = files h ++ written
  end.
Proof.
  unfold _createFile. cbn [bare_host workspaceFolders].
  destruct (workspaceFolders h) as [[|folder others]|] eqn:Ews; cbn.
  - repeat split; eauto. exists []. now rewrite app_nil_r.
  - destruct (writeFile_error io); cbn.
    { repeat split; eauto. exists []. now rewrite app_nil_r. }
    destruct (openTextDocument_error io); cbn; [repeat split; eauto|].
    destruct (showTextDocument_error io); cbn; [repeat split; eauto|].
    repeat split; eauto.
    destruct (fileNameFor_nonempty content extension (Date_now io)) as (c & name & ->).
    discriminate.
  - repeat split; eauto. exists []. now rewrite app_nil_r.
Qed.

Lemma createFiles_loop_spec blocks :
  forall h ios n createdFiles,
  let results := map (fun nb => write_result (workspaceFolders h) (snd nb) (ios (fst nb)))
                     (numbered n blocks) in
  let '(h', created) := createFiles_loop blocks h ios n createdFiles in
  workspaceFolders h' = workspaceFolders h /\
  created = createdFiles ++ successes results /\
  length (errorMessages h') = length (errorMessages h) + failures results /\
  (exists written, files h' = files h ++ written) /\
  forall name, In name (successes results) ->
    exists folder others code,
      workspaceFolders h = Some (folder :: others) /\
      In (path_join folder name, code) (files h').
Proof.
  induction blocks as [|block rest IH]; intros h ios n createdFiles; cbn [numbered map createFiles_loop].
  - cbn. rewrite app_nil_r. repeat split; auto; try (exists []; now rewrite app_nil_r).
    contradiction.
  - cbn [fst snd].
    pose proof (createFile_spec h (code_text block) (_getFileExtension (language block)) (ios n))
      as Hone.
    destruct (_createFile h (code_text block) (_getFileExtension (language block)) (ios n))
      as [h1 fileName].
    destruct Hone as (Hws & Hres & Hcase).
    specialize (IH h1 ios (S n) (push_if_truthy createdFiles fileName)).
    destruct (createFiles_loop rest h1 ios (S n) (push_if_truthy createdFiles fileName))
      as [h' created].
    cbn zeta in IH. destruct IH as (Hws' & Hcreated & Herr & (written' & Hfiles) & Hdisk).
    rewrite Hws in *. fold (write_result (workspaceFolders h) block (ios n)) in Hres.
    rewrite <- Hres.
    set (results := map (fun nb => write_result (workspaceFolders h) (snd nb) (ios (fst nb)))
                        (numbered (S n) rest)) in *.
    change (successes (fileName :: results))
      with ((match fileName with Some name => [name] | None => [] end) ++ successes results).
    destruct fileName as [name|].
    + destruct Hcase as (Hne & Herr1 & folder & others & Hfolder & Hfiles1).
      destruct name as [|c name]; [contradiction|]. cbn [push_if_truthy] in Hcreated.
      rewrite Herr1 in Herr. rewrite Hfiles1 in Hfiles.
      repeat split; auto.
      * now rewrite Hcreated, <- app_assoc.
      * exists ([(path_join folder (c :: name), code_text block)] ++ written').
        now rewrite Hfiles, <- app_assoc.
      * intros x [<-|Hx]; [|now apply Hdisk].
        exists folder, others, (code_text block). split; [exact Hfolder|].
        rewrite Hfiles. apply in_or_app. left. apply in_or_app. right. now left.
    + destruct Hcase as ((text & Herr1) & written & Hfiles1).
      cbn [push_if_truthy] in Hcreated. rewrite Herr1, length_app in Herr.
      rewrite Hfiles1 in Hfiles.
      repeat split; auto.
      * rewrite Herr. unfold failures. cbn [filter length]. lia.
      * exists (written ++ written'). now rewrite Hfiles, <- app_assoc.
Qed.

Lemma write_result_spec folders block io :
  write_result folders block io =
    match first_folder folders with
    | Some _ => if shown_ok io then Some (block_name block io) else None
    | None => None
    end.
Proof.
  unfold write_result, _createFile, shown_ok, block_name. cbn [bare_host workspaceFolders].
  destruct folders as [[|folder others]|]; cbn [first_folder]; try reflexivity.
  destruct (writeFile_error io); [reflexivity|].
  destruct (openTextDocument_error io); [reflexivity|].
  destruct (showTextDocument_error io); reflexivity.
Qed.

(** The writes of the loop: one for each block whose write succeeds. *)
Lemma createFile_writes h content extension io :
  files (fst (_createFile h content extension io)) =
    files h ++
    match first_folder (workspaceFolders h) with
    | Some folder =>
        if written_ok io
        then [(path_join folder (fileNameFor content extension (Date_now io)), content)]
        else []
    | None => []
    end.
Proof.
  unfold _createFile, written_ok.
  destruct (workspaceFolders h) as [[|folder others]|]; cbn [first_folder fst];
    try (cbn; now rewrite app_nil_r).
  destruct (writeFile_error io); [cbn; now rewrite app_nil_r|].
  destruct (openTextDocument_error io); [reflexivity|].
  destruct (showTextDocument_error io); reflexivity.
Qed.

Lemma createFiles_loop_writes blocks :
  forall h ios n createdFiles,
    files (fst (createFiles_loop blocks h ios n createdFiles)) =
      files h ++ flat_map (writes_of (workspaceFolders h) ios) (numbered n blocks).
Proof.
  induction blocks as [|block rest IH]; intros h ios n createdFiles;
    cbn [numbered flat_map createFiles_loop].
  - cbn. now rewrite app_nil_r.
  - pose proof (createFile_spec h (code_text block) (_getFileExtension (language block)) (ios n))
      as Hone.
    pose proof (createFile_writes h (code_text block) (_getFileExtension (language block)) (ios n))
      as Hw.
    destruct (_createFile h (code_text block) (_getFileExtension (language block)) (ios n))
      as [h1 fileName].
    destruct Hone as (Hws & _). cbn [fst] in Hw.
    rewrite IH, Hws, Hw, <- app_assoc. reflexivity.
Qed.

Lemma numbered_length n blocks : length (numbered n blocks) = length blocks.
Proof. revert n; induction blocks; intros n; simpl; auto. Qed.

Lemma successes_failures results :
  length (successes results) + failures results = length results.
Proof.
  unfold successes, failures. induction results as [|[name|] results IH]; simpl; lia.
Qed.

End WriteAll.

(** C7, as the code has it.  For every sequence of blocks, [_createFile]
    is called once for each block, in extraction order, whatever happened
    to the blocks before it ([results] lists what each call returns, and
    the call of a block depends on the earlier ones through nothing but its
    number).  A call returns the name of its file exactly when there is a
    workspace folder and the file was written, opened and shown; the loop
    returns exactly these names, in that order.  Every other call adds one
    error message for the user and no name, and the loop goes on.  What is
    written is decided by the write alone: the file of every block whose
    write succeeded is in the first workspace folder afterwards, also when
    it could not be opened or shown and its name is therefore not
    returned.  [_processResponseForFiles] runs this loop on the extracted
    blocks. *)
Theorem processResponseForFiles_partial_failure
    (blocks : list CodeBlock) (h : host) (ios : nat -> io_answers) :
  let results := map (fun nb => write_result (workspaceFolders h) (snd nb) (ios (fst nb)))
                     (numbered 0 blocks) in
  let run := createFiles_loop blocks h ios 0 [] in
  length results = length blocks /\
  snd run = successes results /\
  (forall folders block io,
     write_result folders block io =
       match first_folder folders with
       | Some _ => if shown_ok io then Some (block_name block io) else None
       | None => None
       end) /\
  length (snd run) + failures results = length blocks /\
  length (errorMessages (fst run)) = length (errorMessages h) + failures results /\
  files (fst run) = files h ++ flat_map (writes_of (workspaceFolders h) ios) (numbered 0 blocks) /\
  (forall name, In name (snd run) ->
     exists folder others code,
       workspaceFolders h = Some (folder :: others) /\
       In (path_join folder name, code) (files (fst run))) /\
  (forall response,
     _processResponseForFiles h response ios
     = createFiles_loop (_extractCodeBlocks response) h ios 0 []).
Proof.
  intros results run.
  pose proof (createFiles_loop_spec blocks h ios 0 []) as H.
  pose proof (createFiles_loop_writes blocks h ios 0 []) as Hwrites.
  fold run in H, Hwrites. destruct run as [h' created]. cbn zeta in H. fold results in H.
  destruct H as (_ & Hcreated & Herr & _ & Hdisk). cbn [app] in Hcreated.
  assert (Hlen : length results = length blocks)
    by (unfold results; now rewrite length_map, numbered_length).
  cbn [fst snd] in *. repeat split; auto.
  - intros folders block io. apply write_result_spec.
  - rewrite Hcreated, <- Hlen. apply successes_failures.
  - intros name Hin. apply Hdisk. now rewrite <- Hcreated.
  - intros response. unfold _processResponseForFiles.
    destruct (_extractCodeBlocks response); reflexivity.
Qed.

Lemma processResponseForFiles_partial_failure_witness :
  let run := _processResponseForFiles sample_host two_plain_blocks one_fails in
  snd run = [js "generated_1700000000001.txt"] /\
  errorMessages (fst run) = [js "Error creating file: EACCES: permission denied"] /\
  exists folder others code,
    workspaceFolders sample_host = Some (folder :: others) /\
    In (path_join folder (js "generated_1700000000001.txt"), code) (files (fst run)).
Proof.
  destruct (processResponseForFiles_partial_failure
              (_extractCodeBlocks two_plain_blocks) sample_host one_fails)
    as (_ & _ & _ & _ & _ & _ & Hdisk & Hrun).
  rewrite Hrun. cbn zeta. split; [reflexivity|]. split; [reflexivity|].
  apply Hdisk. vm_compute. now left.
Defined.

(** C7 fails as stated: a file that was written but could not be opened is
    on disk, yet its name is not returned and the block is reported as a
    failure. *)
Lemma written_but_not_opened_is_not_returned :
  let run := _processResponseForFiles sample_host fenced_python (fun _ => open_fails 0) in
  snd run = [] /\
  files (fst run)
    = [(js "/home/user/project/foo.py", js "def foo():" ++ LF :: js "    pass")] /\
  shown (fst run) = [] /\
  errorMessages (fst run) = [js "Error creating file: cannot open file"].
Proof. repeat split. Qed.

(** ** The completion call (claim C6) *)

Section Completion.

Context {R : Runtime}.

Lemma calls_safePost view h m : calls (safePost view h m) = calls h.
Proof. unfold safePost. destruct view as [v|]; [destruct (has_webview v)|]; reflexivity. Qed.

Lemma calls_createFile h content extension io :
  calls (fst (_createFile h content extension io)) = calls h.
Proof.
  unfold _createFile.
  destruct (workspaceFolders h) as [[|folder others]|]; cbn; auto.
  destruct (writeFile_error io); cbn; auto.
  destruct (openTextDocument_error io); cbn; auto.
  destruct (showTextDocument_error io); cbn; auto.
Qed.

Lemma calls_createFiles_loop blocks h ios n createdFiles :
  calls (fst (createFiles_loop blocks h ios n createdFiles)) = calls h.
Proof.
  revert h n createdFiles; induction blocks as [|b rest IH]; intros h n createdFiles;
    cbn [createFiles_loop]; [reflexivity|].
  pose proof (calls_createFile h (code_text b) (_getFileExtension (language b)) (ios n)) as H.
  destruct (_createFile h (code_text b) (_getFileExtension (language b)) (ios n)) as [h1 f].
  cbn [fst] in H. now rewrite IH.
Qed.

Lemma calls_processResponseForFiles h response ios :
  calls (fst (_processResponseForFiles h response ios)) = calls h.
Proof.
  unfold _processResponseForFiles.
  destruct (length (_extractCodeBlocks response) =? 0); [reflexivity|].
  apply calls_createFiles_loop.
Qed.

Lemma calls_resume p h turn result ios :
  calls (snd (_handleMessage_resume p h turn result ios)) = calls h.
Proof.
  unfold _handleMessage_resume, _safePostMessage. destruct result as [v|msg].
  - destruct (pending_allowEditing turn).
    + pose proof (calls_processResponseForFiles
                    (safePost (_view p) h (setTypingIndicator false)) (text_of v) ios) as H.
      destruct (_processResponseForFiles _ _ _) as [h2 created]. cbn [fst snd] in *.
      now rewrite calls_safePost, H, calls_safePost.
    + cbn [snd]. now rewrite !calls_safePost.
  - cbn [snd]. now rewrite !calls_safePost.
Qed.

(** A turn hands at most one request to the network, whatever the answer:
    nothing is tried again. *)
Lemma handleMessage_one_call p h message model config net ios :
  calls (snd (_handleMessage p h message model config net ios)) =
  calls h ++ match snd (_handleMessage_begin p h message model config) with
             | Some turn => [pending_call turn]
             | None => []
             end.
Proof.
  unfold _handleMessage.
  destruct (_handleMessage_begin p h message model config) as [[p1 h1] [turn|]] eqn:E;
    cbn [snd]; [rewrite calls_resume|]; revert E; unfold _handleMessage_begin;
    destruct (negb (is_attached (_view p)) || _isProcessing p);
    try destruct (get_apiKey config) as [[|c key]|]; intros [= <- <- <-] || intros [= <- <-];
    cbn [calls request]; unfold _safePostMessage; rewrite ?calls_safePost, ?app_nil_r;
    reflexivity.
Qed.

End Completion.

(** C6, as the code has it.  For a response with status 200:
    a body that is not JSON fails with [Failed to parse API response];
    a parsed object whose [choices] is missing or an empty list fails
    with [No response from API]; with a non-empty list of choices the
    call returns [choices[0].message.content] when the first choice is an
    object whose [message] is present and not [null], and fails with
    [Failed to parse API response] when the first choice has no such
    message.  Whatever the body, a value that is returned is the [content]
    of the [message] of the first choice, and a failure carries one of the
    two messages.  No failure is tried again: the turn hands one request to
    the network. *)
Theorem callDeepSeekAPI_ok_response {R : Runtime} (endpoint data : jsstring) :
  let result := _callDeepSeekAPI endpoint (Response 200 data) in
  (JSON_parse data = None -> result = Rejected parse_failed) /\
  (forall fields,
     JSON_parse data = Some (JObject fields) ->
     field fields (js "choices") = None \/ field fields (js "choices") = Some (JArray []) ->
     result = Rejected no_response) /\
  (forall fields first others,
     JSON_parse data = Some (JObject fields) ->
     field fields (js "choices") = Some (JArray (first :: others)) ->
     (forall members message content,
        first = JObject members -> field members (js "message") = Some message ->
        get (Some message) (js "content") = Some content ->
        result = Resolved content) /\
     (get (Some first) (js "message") = None \/
      get (Some first) (js "message") = Some None \/
      get (Some first) (js "message") = Some (Some JNull) ->
      result = Rejected parse_failed)) /\
  (forall content,
     result = Resolved content ->
     exists response choices message,
       JSON_parse data = Some response /\
       get (Some response) (js "choices") = Some choices /\
       truthy choices = true /\ length_gt_zero choices = true /\
       get (first_element choices) (js "message") = Some message /\
       get message (js "content") = Some content) /\
  (forall message, result = Rejected message ->
     message = parse_failed \/ message = no_response) /\
  (forall p h message model config ios,
     length (calls (snd (_handleMessage p h message model config (Response 200 data) ios)))
     <= length (calls h) + 1).
Proof.
  intros result. subst result. cbn [_callDeepSeekAPI]. change (200 =? 200)%N with true. cbv iota.
  unfold on_ok.
  split; [|split; [|split; [|split; [|split]]]].
  - now intros ->.
  - intros fields -> [H|H]; cbn [get]; rewrite H; reflexivity.
  - intros fields first others -> Hchoices. cbn [get]. rewrite Hchoices.
    cbn [truthy length_gt_zero length Nat.ltb Nat.leb andb first_element]. split.
    + intros members message content -> Hmessage Hcontent.
      cbn [get]. rewrite Hmessage. cbn [get]. now rewrite Hcontent.
    + intros [H|[H|H]]; cbn [get] in *; rewrite H; reflexivity.
  - intros content.
    destruct (JSON_parse data) as [response|]; [|easy].
    destruct (get (Some response) (js "choices")) as [choices|] eqn:Ec; [|easy].
    destruct (truthy choices) eqn:Et; [|easy].
    destruct (length_gt_zero choices) eqn:El; [|easy]. cbn [andb].
    destruct (get (first_element choices) (js "message")) as [message|] eqn:Em; [|easy].
    destruct (get message (js "content")) as [v|] eqn:Ev; [|easy].
    intros [= <-]. exists response, choices, message. repeat split; auto.
  - intros message.
    destruct (JSON_parse data) as [response|]; [|intros [= <-]; now left].
    destruct (get (Some response) (js "choices")) as [choices|]; [|intros [= <-]; now left].
    destruct (truthy choices && length_gt_zero choices); [|intros [= <-]; now right].
    destruct (get (first_element choices) (js "message")) as [m|]; [|intros [= <-]; now left].
    destruct (get m (js "content")); [easy|intros [= <-]; now left].
  - intros p h message model config ios. rewrite handleMessage_one_call, length_app.
    destruct (snd (_handleMessage_begin p h message model config)); simpl; lia.
Qed.

Lemma callDeepSeekAPI_ok_response_witness :
  _callDeepSeekAPI default_endpoint (Response 200 body_completion)
    = Resolved (Some (JString fenced_python)) /\
  _callDeepSeekAPI default_endpoint (Response 200 body_no_choices) = Rejected no_response /\
  _callDeepSeekAPI default_endpoint (Response 200 (js "<html>502</html>"))
    = Rejected parse_failed /\
  _callDeepSeekAPI default_endpoint (Response 200 body_no_message) = Rejected parse_failed /\
  (parse_failed = parse_failed \/ parse_failed = no_response).
Proof.
  split; [|split; [|split; [|split]]].
  - destruct (callDeepSeekAPI_ok_response default_endpoint body_completion)
      as (_ & _ & Hfirst & _).
    destruct (Hfirst [(js "choices",
                       JArray [JObject [(js "message",
                                 JObject [(js "content", JString fenced_python)])]])]
                     (JObject [(js "message", JObject [(js "content", JString fenced_python)])])
                     [] eq_refl eq_refl) as (Hcontent & _).
    apply (Hcontent [(js "message", JObject [(js "content", JString fenced_python)])]
                    (JObject [(js "content", JString fenced_python)])
                    (Some (JString fenced_python)));
      reflexivity.
  - destruct (callDeepSeekAPI_ok_response default_endpoint body_no_choices)
      as (_ & Hnone & _).
    apply (Hnone [(js "choices", JArray [])]); [reflexivity|now right].
  - destruct (callDeepSeekAPI_ok_response default_endpoint (js "<html>502</html>"))
      as (Hparse & _).
    apply Hparse. reflexivity.
  - destruct (callDeepSeekAPI_ok_response default_endpoint body_no_message)
      as (_ & _ & Hfirst & _).
    destruct (Hfirst [(js "choices", JArray [JObject []])] (JObject []) []
                     eq_refl eq_refl) as (_ & Hmissing).
    apply Hmissing. right. left. reflexivity.
  - destruct (callDeepSeekAPI_ok_response default_endpoint body_no_message)
      as (_ & _ & _ & _ & Hclass & _).
    apply (Hclass parse_failed).
    destruct (callDeepSeekAPI_ok_response default_endpoint body_no_message)
      as (_ & _ & Hfirst & _).
    destruct (Hfirst [(js "choices", JArray [JObject []])] (JObject []) []
                     eq_refl eq_refl) as (_ & Hmissing).
    apply Hmissing. right. left. reflexivity.
Defined.

(** C6 fails as stated: this body is JSON and its list of choices is not
    empty, but its first choice has no message, and the call fails. *)
Lemma choice_without_message_rejected :
  JSON_parse body_no_message = Some (JObject [(js "choices", JArray [JObject []])]) /\
  _callDeepSeekAPI default_endpoint (Response 200 body_no_message) = Rejected parse_failed /\
  ~ (exists content,
       _callDeepSeekAPI default_endpoint (Response 200 body_no_message) = Resolved content).
Proof.
  split; [reflexivity|]. split; [reflexivity|].
  intros [content H]. vm_compute in H. discriminate H.
Qed.

(** ** Turns of the session (claims C1, C2, C5, C10) *)

Section Turns.

Context {R : Runtime}.

Lemma safePost_attached view h m :
  has_webview view = true -> safePost (Some view) h m = postMessage h m.
Proof. intros H. unfold safePost. now rewrite H. Qed.

(** In the earlier revision nothing keeps a second message out while the
    first turn waits for its probe: both are added to the history and both
    send a request. *)
Lemma earlier_turns_overlap (q : Earlier.provider) h first second config view q1 h1 turn :
  Earlier._view q = Some view ->
  Earlier._handleMessage_begin q h first config = (q1, h1, Some turn) ->
  exists q2 h2 turn2,
    Earlier._handleMessage_begin q1 h1 second config = (q2, h2, Some turn2) /\
    Earlier._conversationHistory q2 =
      Earlier._conversationHistory q ++ [user_message first; user_message second] /\
    length (calls h2) = length (calls h) + 2.
Proof.
  intros Hview. unfold Earlier._handleMessage_begin. rewrite Hview.
  destruct (get_apiKey config) as [[|c key]|]; try discriminate.
  intros [= <- <- <-]. cbn [Earlier._view].
  eexists _, _, _. split; [reflexivity|]. cbn.
  rewrite <- app_assoc, !length_app. split; [reflexivity|]. simpl. lia.
Qed.

End Turns.

(** C2, for the revision that has the guard.  In [extension.ts] a turn
    that is suspended on the completion call has set [_isProcessing]: that
    is the state a message finds that arrives before the answer.  In that
    state an incoming message changes nothing: the provider and the host
    are what they were, so the history keeps its length, no request is
    made, nothing is posted to the view and no error is shown; nothing is
    kept for later either, the call just returns.  The earlier revision
    ([part_000]) has no such state: a message that arrives while a turn of
    a provider with a view waits for its answer is handled like any other,
    it is appended to the history and sends a request of its own. *)
Theorem message_in_flight_is_dropped {R : Runtime}
    (p : provider) (h : host) (message model : jsstring) (config : configuration) :
  (forall p0 h0 message0 model0 config0 turn,
     _handleMessage_begin p0 h0 message0 model0 config0 = (p, h, Some turn) ->
     _isProcessing p = true) /\
  (_isProcessing p = true ->
   _handleMessage_begin p h message model config = (p, h, None) /\
   forall net ios,
     let run := _handleMessage p h message model config net ios in
     run = (p, h) /\
     length (_conversationHistory (fst run)) = length (_conversationHistory p) /\
     calls (snd run) = calls h /\
     posted (snd run) = posted h /\
     errorMessages (snd run) = errorMessages h) /\
  (forall (q : Earlier.provider) h0 first second config0 view q1 h1 turn,
     Earlier._view q = Some view ->
     Earlier._handleMessage_begin q h0 first config0 = (q1, h1, Some turn) ->
     exists q2 h2 turn2,
       Earlier._handleMessage_begin q1 h1 second config0 = (q2, h2, Some turn2) /\
       Earlier._conversationHistory q2 =
         Earlier._conversationHistory q ++ [user_message first; user_message second] /\
       length (calls h2) = length (calls h0) + 2).
Proof.
  split; [|split].
  - intros p0 h0 message0 model0 config0 turn. unfold _handleMessage_begin.
    destruct (negb (is_attached (_view p0)) || _isProcessing p0); [discriminate|].
    destruct (get_apiKey config0) as [[|c key]|]; try discriminate.
    now intros [= <- _ _].
  - intros Hflight.
    assert (Hdrop : _handleMessage_begin p h message model config = (p, h, None)).
    { unfold _handleMessage_begin. now rewrite Hflight, orb_true_r. }
    split; [exact Hdrop|].
    intros net ios. unfold _handleMessage. rewrite Hdrop. cbn. repeat split.
  - intros q h0 first second config0 view q1 h1 turn Hview Hfirst.
    eapply earlier_turns_overlap; eassumption.
Qed.

(** C2 fails as stated for the earlier revision, one of the two sources it
    names: while the first turn waits for the answer to its probe, a second
    message is neither dropped nor refused; the history grows by it and a
    second request is sent. *)
Lemma earlier_message_in_flight_is_handled :
  let config := sample_config (Some (js "sk-test")) None in
  let first := Earlier._handleMessage_begin earlier_idle sample_host (js "first") config in
  let second :=
    Earlier._handleMessage_begin (fst (fst first)) (snd (fst first)) (js "second") config in
  snd first <> None /\
  Earlier._conversationHistory (fst (fst first)) = [user_message (js "first")] /\
  Earlier._conversationHistory (fst (fst second))
    = [user_message (js "first"); user_message (js "second")] /\
  length (Earlier._conversationHistory (fst (fst second)))
    <> length (Earlier._conversationHistory (fst (fst first))) /\
  length (calls (snd (fst first))) = 1 /\
  length (calls (snd (fst second))) = 2 /\
  errorMessages (snd (fst second)) = [].
Proof. cbv zeta. repeat split; discriminate. Qed.

Lemma message_in_flight_is_dropped_witness :
  _handleMessage_begin (fst in_flight) (snd in_flight) (js "second") (js "deepseek-coder")
    (sample_config (Some (js "sk-test")) None)
  = (fst in_flight, snd in_flight, None).
Proof.
  apply (@message_in_flight_is_dropped sample_runtime (fst in_flight) (snd in_flight)
           (js "second") (js "deepseek-coder") (sample_config (Some (js "sk-test")) None)).
  apply (@message_in_flight_is_dropped sample_runtime (fst in_flight) (snd in_flight)
           (js "second") (js "deepseek-coder") (sample_config (Some (js "sk-test")) None)
         ) with (p0 := idle_provider) (h0 := sample_host) (message0 := js "first")
                (model0 := js "deepseek-chat")
                (config0 := sample_config (Some (js "sk-test")) None)
                (turn := match snd (_handleMessage_begin idle_provider sample_host (js "first")
                                      (js "deepseek-chat")
                                      (sample_config (Some (js "sk-test")) None)) with
                         | Some t => t
                         | None => {| pending_call := Earlier.probe_call [] [];
                                      pending_allowEditing := false |}
                         end).
  reflexivity.
Defined.



(** C10.  The key check is [!apiKey], so an API key that is the empty
    string is treated as an absent one: the turn is the same as with the
    key removed from the configuration; it posts the assistant-role message
    that asks for the key, makes no request, suspends on nothing, and
    leaves [_isProcessing] unset.  The earlier revision does the same. *)
Theorem empty_key_is_missing_key {R : Runtime}
    (p : provider) (q : Earlier.provider) (h : host) (message model : jsstring)
    (config : configuration) (probe net : net_answer) (ios : nat -> io_answers)
    (view : WebviewView) :
  has_webview view = true ->
  get_apiKey config = Some [] ->
  (_view p = Some view -> _isProcessing p = false ->
   let run := _handleMessage p h message model config net ios in
   run = _handleMessage p h message model (without_key config) net ios /\
   snd (_handleMessage_begin p h message model config) = None /\
   posted (snd run) = posted h ++ [addMessage missing_key false] /\
   calls (snd run) = calls h /\
   _isProcessing (fst run) = false) /\
  (Earlier._view q = Some view ->
   let run := Earlier._handleMessage q h message config probe net in
   run = Earlier._handleMessage q h message (without_key config) probe net /\
   snd (Earlier._handleMessage_begin q h message config) = None /\
   posted (snd run) = posted h ++ [addMessage missing_key false] /\
   calls (snd run) = calls h).
Proof.
  intros Hweb Hkey. split.
  - intros Hview Hidle run. subst run.
    unfold _handleMessage, _handleMessage_begin.
    rewrite Hview, Hidle, Hkey. cbn [is_attached negb orb without_key get_apiKey].
    unfold _safePostMessage. cbn [_view fst snd _isProcessing].
    rewrite safePost_attached by exact Hweb. repeat split.
  - intros Hview run. subst run.
    unfold Earlier._handleMessage, Earlier._handleMessage_begin.
    rewrite Hview, Hkey. cbn [without_key get_apiKey].
    unfold Earlier._safePostMessage. cbn [Earlier._view fst snd].
    rewrite safePost_attached by exact Hweb. repeat split.
Qed.

Lemma empty_key_is_missing_key_witness :
  let run := _handleMessage idle_provider sample_host (js "hello") (js "deepseek-chat")
               (sample_config (Some []) None) (NetError (js "unused")) (fun _ => all_fine 0) in
  posted (snd run) = [addMessage missing_key false] /\ calls (snd run) = [].
Proof.
  destruct (@empty_key_is_missing_key sample_runtime idle_provider earlier_idle sample_host
              (js "hello") (js "deepseek-chat") (sample_config (Some []) None)
              (NetError (js "unused")) (NetError (js "unused")) (fun _ => all_fine 0)
              sample_view eq_refl eq_refl) as (Hmain & _).
  destruct (Hmain eq_refl eq_refl) as (_ & _ & Hposted & Hcalls & _).
  split; [exact Hposted|exact Hcalls].
Defined.

(** C1, at a configuration with [allowEditing] false.  The value the turn
    tests is [config.get('allowEditing') || true], which is [true] for
    every configuration; so with file editing switched off, a successful
    turn whose response holds a code block still writes the file. *)
Theorem allowEditing_false_still_writes :
  let config := sample_config (Some (js "sk-test")) (Some false) in
  let run := _handleMessage idle_provider sample_host (js "write foo") (js "deepseek-chat")
               config (Response 200 body_completion) (fun _ => all_fine 1700000000000) in
  get_allowEditing config = Some false /\
  option_map pending_allowEditing
    (snd (_handleMessage_begin idle_provider sample_host (js "write foo")
            (js "deepseek-chat") config)) = Some true /\
  files (snd run) =
    [(js "/home/user/project/foo.py", js "def foo():" ++ LF :: js "    pass")] /\
  shown (snd run) = [js "/home/user/project/foo.py"] /\
  (forall any : configuration, boolean_or (get_allowEditing any) true = true).
Proof.
  repeat split. intros any. now destruct (get_allowEditing any) as [[]|].
Qed.

(** * Further properties of the provider *)

(** ** What a turn leaves alone *)

Section HostFrames.

(** The part of the host that file creation never touches. *)
Let same_session (h h' : host) : Prop :=
  posted h' = posted h /\ warnings h' = warnings h /\ calls h' = calls h /\
  workspaceFolders h' = workspaceFolders h.

Lemma createFile_frame h content extension io :
  same_session h (fst (_createFile h content extension io)).
Proof.
  unfold _createFile, same_session.
  destruct (workspaceFolders h) as [[|folder others]|] eqn:E; cbn; auto.
  destruct (writeFile_error io); cbn; auto.
  destruct (openTextDocument_error io); cbn; auto.
  destruct (showTextDocument_error io); cbn; auto.
Qed.

Lemma createFiles_loop_frame blocks h ios n createdFiles :
  same_session h (fst (createFiles_loop blocks h ios n createdFiles)).
Proof.
  revert h n createdFiles; induction blocks as [|b rest IH]; intros h n createdFiles;
    cbn [createFiles_loop]; [now unfold same_session|].
  pose proof (createFile_frame h (code_text b) (_getFileExtension (language b)) (ios n)) as H.
  destruct (_createFile h (code_text b) (_getFileExtension (language b)) (ios n)) as [h1 f].
  cbn [fst] in H. specialize (IH h1 (S n) (push_if_truthy createdFiles f)).
  unfold same_session in *. destruct H as (H1 & H2 & H3 & H4), IH as (I1 & I2 & I3 & I4).
  now rewrite I1, I2, I3, I4.
Qed.

Lemma processResponseForFiles_frame h response ios :
  posted (fst (_processResponseForFiles h response ios)) = posted h /\
  warnings (fst (_processResponseForFiles h response ios)) = warnings h /\
  calls (fst (_processResponseForFiles h response ios)) = calls h /\
  workspaceFolders (fst (_processResponseForFiles h response ios)) = workspaceFolders h.
Proof.
  unfold _processResponseForFiles.
  destruct (length (_extractCodeBlocks response) =? 0); [now cbn|].
  apply createFiles_loop_frame.
Qed.

End HostFrames.

Section TurnShape.

Context {R : Runtime}.

(** A turn that is accepted, step by step. *)
Lemma handleMessage_accepted p h message model config net ios view :
  _view p = Some view -> _isProcessing p = false ->
  _handleMessage p h message model config net ios =
  let history := _conversationHistory p ++ [user_message message] in
  match get_apiKey config with
  | Some (c :: key) =>
      let p1 := {| _view := Some view; _conversationHistory := history;
                   _isProcessing := true; _selectedModel := model |} in
      let call := {| call_endpoint := string_or (get_endpoint config) default_endpoint;
                     call_apiKey := c :: key; call_model := model;
                     call_messages := history;
                     call_maxTokens := number_or (get_maxResponseTokens config) 1024 |} in
      _handleMessage_resume p1
        (request (safePost (Some view) h (setTypingIndicator true)) call)
        {| pending_call := call;
           pending_allowEditing := boolean_or (get_allowEditing config) true |}
        (_callDeepSeekAPI (string_or (get_endpoint config) default_endpoint) net) ios
  | _ =>
      ({| _view := Some view; _conversationHistory := history;
          _isProcessing := false; _selectedModel := model |},
       safePost (Some view) h (addMessage missing_key false))
  end.
Proof.
  intros Hview Hidle. unfold _handleMessage, _handleMessage_begin, _safePostMessage.
  rewrite Hview, Hidle. cbn [is_attached negb orb _view].
  now destruct (get_apiKey config) as [[|c key]|].
Qed.

Lemma handleMessage_refused p h message model config net ios :
  _view p = None \/ _isProcessing p = true ->
  _handleMessage p h message model config net ios = (p, h).
Proof.
  intros H. unfold _handleMessage, _handleMessage_begin.
  replace (negb (is_attached (_view p)) || _isProcessing p) with true; [reflexivity|].
  destruct H as [-> | ->]; [reflexivity|now rewrite orb_true_r].
Qed.

(** The end of a turn whose completion has settled. *)
Lemma resume_resolved p h turn v ios :
  exists h2 createdFiles,
    (h2, createdFiles) =
      (if pending_allowEditing turn
       then _processResponseForFiles (safePost (_view p) h (setTypingIndicator false))
              (text_of v) ios
       else (safePost (_view p) h (setTypingIndicator false), [])) /\
    _handleMessage_resume p h turn (Resolved v) ios =
      ({| _view := _view p;
          _conversationHistory :=
            _conversationHistory p ++ [{| role := assistant; content := text_of v |}];
          _isProcessing := false; _selectedModel := _selectedModel p |},
       safePost (_view p) h2
         (addMessage (if 0 <? length createdFiles
                      then created_message createdFiles (text_of v)
                      else text_of v) false)).
Proof.
  unfold _handleMessage_resume, _safePostMessage.
  destruct (if pending_allowEditing turn
            then _processResponseForFiles (safePost (_view p) h (setTypingIndicator false))
                   (text_of v) ios
            else (safePost (_view p) h (setTypingIndicator false), [])) as [h2 created].
  now exists h2, created.
Qed.

Lemma boolean_or_true v : boolean_or v true = true.
Proof. now destruct v as [[|]|]. Qed.

(** The names file creation returns depend on the host through its
    workspace folders only. *)
Lemma processResponseForFiles_names h h' response ios :
  workspaceFolders h = workspaceFolders h' ->
  snd (_processResponseForFiles h response ios)
  = snd (_processResponseForFiles h' response ios).
Proof.
  intros Hws. unfold _processResponseForFiles.
  destruct (length (_extractCodeBlocks response) =? 0); [reflexivity|].
  pose proof (createFiles_loop_spec (_extractCodeBlocks response) h ios 0 []) as H1.
  pose proof (createFiles_loop_spec (_extractCodeBlocks response) h' ios 0 []) as H2.
  destruct (createFiles_loop (_extractCodeBlocks response) h ios 0 []) as [x1 c1].
  destruct (createFiles_loop (_extractCodeBlocks response) h' ios 0 []) as [x2 c2].
  cbn zeta in H1, H2. destruct H1 as (_ & -> & _), H2 as (_ & -> & _).
  cbn [snd]. now rewrite Hws.
Qed.

(** The start of an accepted turn. *)
Lemma begin_accepted p h message model config view :
  _view p = Some view -> _isProcessing p = false ->
  _handleMessage_begin p h message model config =
  let history := _conversationHistory p ++ [user_message message] in
  match get_apiKey config with
  | Some (c :: key) =>
      let call := {| call_endpoint := string_or (get_endpoint config) default_endpoint;
                     call_apiKey := c :: key; call_model := model;
                     call_messages := history;
                     call_maxTokens := number_or (get_maxResponseTokens config) 1024 |} in
      ({| _view := Some view; _conversationHistory := history;
          _isProcessing := true; _selectedModel := model |},
       request (safePost (Some view) h (setTypingIndicator true)) call,
       Some {| pending_call := call;
               pending_allowEditing := boolean_or (get_allowEditing config) true |})
  | _ =>
      ({| _view := Some view; _conversationHistory := history;
          _isProcessing := false; _selectedModel := model |},
       safePost (Some view) h (addMessage missing_key false), None)
  end.
Proof.
  intros Hview Hidle. unfold _handleMessage_begin, _safePostMessage.
  rewrite Hview, Hidle. cbn [is_attached negb orb _view].
  now destruct (get_apiKey config) as [[|c key]|].
Qed.

(** A whole turn whose completion resolves, with a view that takes the
    messages. *)
Lemma resolved_turn p h message model config net ios view c key v :
  _view p = Some view -> has_webview view = true -> _isProcessing p = false ->
  get_apiKey config = Some (c :: key) ->
  _callDeepSeekAPI (string_or (get_endpoint config) default_endpoint) net = Resolved v ->
  exists h1,
    workspaceFolders h1 = workspaceFolders h /\ shown h1 = shown h /\
    files h1 = files h /\
    posted h1 = posted h ++ [setTypingIndicator true; setTypingIndicator false] /\
    warnings h1 = warnings h /\
    _handleMessage p h message model config net ios =
      let result := _processResponseForFiles h1 (text_of v) ios in
      ({| _view := Some view;
          _conversationHistory :=
            _conversationHistory p ++
            [user_message message; {| role := assistant; content := text_of v |}];
          _isProcessing := false; _selectedModel := model |},
       postMessage (fst result)
         (addMessage (if 0 <? length (snd result)
                      then created_message (snd result) (text_of v)
                      else text_of v) false)).
Proof.
  intros Hview Hweb Hidle Hkey Hcall.
  erewrite handleMessage_accepted by eassumption. cbn zeta. rewrite Hkey, Hcall.
  unfold _handleMessage_resume, _safePostMessage.
  cbn [_view pending_allowEditing _conversationHistory _selectedModel].
  rewrite boolean_or_true, !safePost_attached by exact Hweb.
  match goal with
  | |- context [_processResponseForFiles ?h0 (text_of v) ios] => exists h0
  end.
  do 5 (split; [cbn; rewrite <- ?app_assoc; reflexivity|]).
  cbn zeta.
  match goal with
  | |- context [_processResponseForFiles ?h0 (text_of v) ios] =>
      destruct (_processResponseForFiles h0 (text_of v) ios) as [h2 created]
  end.
  cbn [fst snd]. rewrite safePost_attached by exact Hweb.
  rewrite <- app_assoc. reflexivity.
Qed.

End TurnShape.

(** ** The session over whole turns *)

(** X1.  A turn that starts from the idle state ends in the idle state
    whenever its completion call settles, whichever way it leaves: no view,
    no key, a failed completion or a successful one with any number of
    files written or refused; and it keeps the view.  Until the call
    settles the turn is in flight, and it stays so for ever when the call
    never settles (the request has no timeout, and a response that is
    aborted has no handler): [_isProcessing] is then set exactly when the
    provider has a view and the configuration a key, and in that state
    every message that arrives, whatever it is and whatever would answer
    it, is dropped.  The end of a suspended turn clears [_isProcessing]
    whatever the state it resumes in. *)
Theorem turn_ends_idle {R : Runtime} (p : provider) (h : host) (message model : jsstring)
    (config : configuration) (ios : nat -> io_answers) :
  (_isProcessing p = false ->
   (forall net,
      let run := _handleMessage_so_far p h message model config (Settles net) ios in
      _isProcessing (fst run) = false /\ _view (fst run) = _view p) /\
   (let run := _handleMessage_so_far p h message model config Stays_pending ios in
    _view (fst run) = _view p /\
    (_isProcessing (fst run) = true <->
     is_attached (_view p) = true /\ exists c key, get_apiKey config = Some (c :: key)) /\
    (_isProcessing (fst run) = true ->
     forall message' model' config' answer ios',
       _handleMessage_so_far (fst run) (snd run) message' model' config' answer ios'
       = run))) /\
  (forall turn result,
     _isProcessing (fst (_handleMessage_resume p h turn result ios)) = false).
Proof.
  assert (Hresume : forall p1 h1 turn result,
            _isProcessing (fst (_handleMessage_resume p1 h1 turn result ios)) = false /\
            _view (fst (_handleMessage_resume p1 h1 turn result ios)) = _view p1).
  { intros p1 h1 turn [v|e]; [|now cbn].
    destruct (resume_resolved p1 h1 turn v ios) as (h2 & created & _ & ->). now cbn. }
  split; [|intros; apply Hresume].
  intros Hidle. split.
  - intros net. cbn [_handleMessage_so_far]. cbn zeta.
    destruct (_view p) as [view|] eqn:Hview.
    + erewrite handleMessage_accepted by eassumption. cbn zeta.
      destruct (get_apiKey config) as [[|c key]|]; first [now cbn | apply Hresume].
    + rewrite handleMessage_refused by now left. now split.
  - cbn [_handleMessage_so_far]. cbn zeta.
    assert (Hdropped : forall q g, _isProcessing q = true ->
              forall message' model' config' answer ios',
                _handleMessage_so_far q g message' model' config' answer ios' = (q, g)).
    { intros q g Hq message' model' config' [net|] ios'; cbn [_handleMessage_so_far].
      - apply handleMessage_refused. now right.
      - unfold _handleMessage_begin. now rewrite Hq, orb_true_r. }
    destruct (_view p) as [view|] eqn:Hview.
    + erewrite begin_accepted by eassumption. cbn zeta.
      destruct (get_apiKey config) as [[|c key]|]; cbn [fst snd _view _isProcessing is_attached].
      * split; [reflexivity|]. split; [|discriminate].
        split; [discriminate|]. now intros (_ & c & key & [=]).
      * split; [reflexivity|]. split.
        -- split; [|reflexivity]. intros _. split; [reflexivity|]. now exists c, key.
        -- intros _. now apply Hdropped.
      * split; [reflexivity|]. split; [|discriminate].
        split; [discriminate|]. now intros (_ & c & key & [=]).
    + unfold _handleMessage_begin. rewrite Hview. cbn [is_attached negb orb fst snd].
      split; [exact Hview|]. rewrite Hidle. split; [|discriminate].
      split; [discriminate|]. now intros ([=] & _).
Qed.

Lemma turn_ends_idle_witness :
  _isProcessing
    (fst (_handleMessage idle_provider sample_host (js "write foo") (js "deepseek-chat")
            (sample_config (Some (js "sk-test")) None)
            (Response 200 body_completion) one_fails)) = false /\
  _handleMessage_so_far (fst in_flight) (snd in_flight) (js "second") (js "deepseek-chat")
    (sample_config (Some (js "sk-test")) None) (Settles (Response 200 body_completion))
    one_fails
  = in_flight.
Proof.
  destruct (@turn_ends_idle sample_runtime idle_provider sample_host (js "first")
              (js "deepseek-chat") (sample_config (Some (js "sk-test")) None) one_fails)
    as (Hturn & _).
  destruct (Hturn eq_refl) as (_ & _ & _ & Hdropped).
  split.
  - destruct (@turn_ends_idle sample_runtime idle_provider sample_host (js "write foo")
                (js "deepseek-chat") (sample_config (Some (js "sk-test")) None) one_fails)
      as (Hsettled & _).
    destruct (Hsettled eq_refl) as (Hnet & _).
    apply (Hnet (Response 200 body_completion)).
  - apply Hdropped. reflexivity.
Defined.

(** X2.  The history only grows, and by whole turns: a turn adds nothing (when
    there is no view or a turn is in flight), the user's message alone, or
    the user's message followed by one assistant message.  It never adds an
    assistant message without the user's message before it, and never
    changes an earlier entry. *)
Theorem history_grows_by_turns {R : Runtime} (p : provider) (h : host)
    (message model : jsstring) (config : configuration) (net : net_answer)
    (ios : nat -> io_answers) :
  exists added,
    _conversationHistory (fst (_handleMessage p h message model config net ios))
      = _conversationHistory p ++ added /\
    (added = [] \/ added = [user_message message] \/
     exists response,
       added = [user_message message; {| role := assistant; content := response |}]) /\
    (added = [] <-> _view p = None \/ _isProcessing p = true).
Proof.
  destruct (_view p) as [view|] eqn:Hview; [destruct (_isProcessing p) eqn:Hidle|].
  - exists []. rewrite handleMessage_refused by now right.
    rewrite app_nil_r. repeat split; auto.
  - erewrite handleMessage_accepted by eassumption. cbn zeta.
    assert (Hno : forall (m : Message) l, m :: l = [] <-> (Some view = None \/ false = true))
      by (intros; split; [discriminate|intros [?|?]; discriminate]).
    destruct (get_apiKey config) as [[|c key]|];
      try (exists [user_message message]; cbn; repeat split; auto; apply Hno).
    destruct (_callDeepSeekAPI (string_or (get_endpoint config) default_endpoint) net)
      as [v|e].
    + destruct (resume_resolved
                  {| _view := Some view;
                     _conversationHistory := _conversationHistory p ++ [user_message message];
                     _isProcessing := true; _selectedModel := model |}
                  (request (safePost (Some view) h (setTypingIndicator true))
                     {| call_endpoint := string_or (get_endpoint config) default_endpoint;
                        call_apiKey := c :: key; call_model := model;
                        call_messages := _conversationHistory p ++ [user_message message];
                        call_maxTokens := number_or (get_maxResponseTokens config) 1024 |})
                  {| pending_call :=
                       {| call_endpoint := string_or (get_endpoint config) default_endpoint;
                          call_apiKey := c :: key; call_model := model;
                          call_messages := _conversationHistory p ++ [user_message message];
                          call_maxTokens := number_or (get_maxResponseTokens config) 1024 |};
                     pending_allowEditing := boolean_or (get_allowEditing config) true |}
                  v ios) as (h2 & created & _ & ->).
      exists [user_message message; {| role := assistant; content := text_of v |}].
      cbn. rewrite <- app_assoc. repeat split; eauto; apply Hno.
    + exists [user_message message]. cbn. repeat split; auto; apply Hno.
  - exists []. rewrite handleMessage_refused by now left.
    rewrite app_nil_r. repeat split; auto.
Qed.

Section AcceptedTurns.

Context {R : Runtime}.

Lemma extract_without_fence response :
  includes fence response = false -> _extractCodeBlocks response = [].
Proof.
  intros H. unfold _extractCodeBlocks.
  destruct (length response); [reflexivity|]. cbn [extract_loop].
  erewrite exec_codeBlock_needs; [reflexivity|left; reflexivity|exact H].
Qed.

(** What an accepted turn does to the provider. *)
Lemma accepted_turn_summary p h message model config net ios view :
  _view p = Some view -> _isProcessing p = false ->
  exists reply,
    _conversationHistory (fst (_handleMessage p h message model config net ios))
      = _conversationHistory p ++ user_message message :: reply /\
    (reply = [] \/ exists response, reply = [{| role := assistant; content := response |}]) /\
    _isProcessing (fst (_handleMessage p h message model config net ios)) = false /\
    _view (fst (_handleMessage p h message model config net ios)) = Some view.
Proof.
  intros Hview Hidle. erewrite handleMessage_accepted by eassumption. cbn zeta.
  destruct (get_apiKey config) as [[|c key]|];
    try solve [exists []; cbn; repeat split; auto].
  destruct (_callDeepSeekAPI (string_or (get_endpoint config) default_endpoint) net)
    as [v|e].
  - match goal with
    | |- context [_handleMessage_resume ?p1 ?h1 ?t (Resolved v) ios] =>
        destruct (resume_resolved p1 h1 t v ios) as (h2 & created & _ & ->)
    end.
    exists [{| role := assistant; content := text_of v |}].
    cbn. rewrite <- app_assoc. repeat split; eauto.
  - exists []. cbn. repeat split; auto.
Qed.

Lemma user_contents_app l1 l2 :
  user_contents (l1 ++ l2) = user_contents l1 ++ user_contents l2.
Proof. unfold user_contents. now rewrite filter_app, map_app. Qed.

(** Without a workspace folder the loop writes nothing, returns no name and
    shows one error for each block. *)
Lemma createFiles_loop_no_workspace blocks :
  forall h ios n createdFiles,
  workspaceFolders h = None ->
  snd (createFiles_loop blocks h ios n createdFiles) = createdFiles /\
  files (fst (createFiles_loop blocks h ios n createdFiles)) = files h /\
  shown (fst (createFiles_loop blocks h ios n createdFiles)) = shown h /\
  errorMessages (fst (createFiles_loop blocks h ios n createdFiles))
    = errorMessages h ++ repeat (js "No workspace folder open") (length blocks).
Proof.
  induction blocks as [|b rest IH]; intros h ios n createdFiles Hws; cbn [createFiles_loop].
  - cbn. now rewrite app_nil_r.
  - assert (E : _createFile h (code_text b) (_getFileExtension (language b)) (ios n)
                = (showErrorMessage h (js "No workspace folder open"), None))
      by (unfold _createFile; now rewrite Hws).
    rewrite E.
    specialize (IH (showErrorMessage h (js "No workspace folder open")) ios (S n)
                   createdFiles Hws).
    cbn [push_if_truthy]. destruct IH as (I1 & I2 & I3 & I4).
    rewrite I1, I2, I3, I4. cbn [showErrorMessage files shown errorMessages length repeat].
    rewrite <- app_assoc. repeat split.
Qed.

End AcceptedTurns.

(** X3.  What an accepted turn posts to a view that takes the messages;
    nothing is logged instead of being posted.  Without a key it posts the
    request for the key and nothing else.  With a key it switches the
    typing indicator on, and as long as the completion call has not settled
    that is all: the indicator stays on and there is no assistant message.
    When the call settles the turn switches the indicator off and posts
    exactly one assistant-role message, as its last event: the error
    behind [Error: ] when the call failed, the reply when it succeeded and
    no file was created for it, and the reply after the list of the created
    files otherwise. *)
Theorem turn_posts_one_reply {R : Runtime} (p : provider) (h : host)
    (message model : jsstring) (config : configuration)
    (ios : nat -> io_answers) (view : WebviewView) :
  _view p = Some view -> has_webview view = true -> _isProcessing p = false ->
  let run := fun answer => _handleMessage_so_far p h message model config answer ios in
  (forall answer, warnings (snd (run answer)) = warnings h) /\
  (get_apiKey config = None \/ get_apiKey config = Some [] ->
   forall answer, posted (snd (run answer)) = posted h ++ [addMessage missing_key false]) /\
  (forall c key,
     get_apiKey config = Some (c :: key) ->
     posted (snd (run Stays_pending)) = posted h ++ [setTypingIndicator true] /\
     exists mark,
     forall net,
       posted (snd (run (Settles net))) =
         posted h ++
         [setTypingIndicator true; setTypingIndicator false;
          addMessage
            match _callDeepSeekAPI (string_or (get_endpoint config) default_endpoint) net with
            | Rejected errorMessage => js "Error: " ++ errorMessage
            | Resolved v =>
                let created := snd (_processResponseForFiles h (text_of v) ios) in
                if 0 <? length created
                then mark ++ js " Created " ++ number_to_string (N.of_nat (length created))
                       ++ js " file(s):" ++ LF :: join_lines created
                       ++ LF :: LF :: text_of v
                else text_of v
            end false]).
Proof.
  intros Hview Hweb Hidle run. subst run. cbn beta.
  assert (Hsettled : forall net c key,
            get_apiKey config = Some (c :: key) ->
            posted (snd (_handleMessage p h message model config net ios)) =
              posted h ++
              [setTypingIndicator true; setTypingIndicator false;
               addMessage
                 match _callDeepSeekAPI (string_or (get_endpoint config) default_endpoint) net
                 with
                 | Rejected errorMessage => js "Error: " ++ errorMessage
                 | Resolved v =>
                     let created := snd (_processResponseForFiles h (text_of v) ios) in
                     if 0 <? length created
                     then check_mark ++ js " Created "
                            ++ number_to_string (N.of_nat (length created))
                            ++ js " file(s):" ++ LF :: join_lines created
                            ++ LF :: LF :: text_of v
                     else text_of v
                 end false] /\
            warnings (snd (_handleMessage p h message model config net ios)) = warnings h).
  { intros net c key Hkey.
    destruct (_callDeepSeekAPI (string_or (get_endpoint config) default_endpoint) net)
      as [v|e] eqn:Hcall.
    - destruct (@resolved_turn R p h message model config net ios view c key v
                  Hview Hweb Hidle Hkey Hcall)
        as (h1 & Hws & _ & _ & Hposted & Hwarn & ->).
      cbn zeta. cbn [snd posted warnings postMessage].
      destruct (processResponseForFiles_frame h1 (text_of v) ios) as (F1 & F2 & _).
      rewrite F1, F2, Hposted, Hwarn.
      rewrite (@processResponseForFiles_names h1 h (text_of v) ios Hws).
      rewrite <- app_assoc. split; [|reflexivity].
      unfold created_message. repeat (rewrite <- ?app_assoc; cbn [app]). reflexivity.
    - erewrite handleMessage_accepted by eassumption. cbn zeta. rewrite Hkey, Hcall.
      unfold _handleMessage_resume, _safePostMessage. cbn [_view snd].
      rewrite !safePost_attached by exact Hweb. cbn. now rewrite <- !app_assoc. }
  assert (Hnokey : get_apiKey config = None \/ get_apiKey config = Some [] ->
            forall answer,
              snd (_handleMessage_so_far p h message model config answer ios)
              = postMessage h (addMessage missing_key false)).
  { intros Hkey [net|]; cbn [_handleMessage_so_far].
    - erewrite handleMessage_accepted by eassumption. cbn zeta.
      rewrite safePost_attached by exact Hweb. now destruct Hkey as [-> | ->].
    - erewrite begin_accepted by eassumption. cbn zeta.
      rewrite safePost_attached by exact Hweb. now destruct Hkey as [-> | ->]. }
  split; [|split].
  - intros answer. destruct (get_apiKey config) as [[|c key]|] eqn:Hkey.
    + rewrite Hnokey by now right. reflexivity.
    + destruct answer as [net|]; cbn [_handleMessage_so_far].
      * now destruct (Hsettled net c key eq_refl).
      * erewrite begin_accepted by eassumption. cbn zeta. rewrite Hkey.
        rewrite safePost_attached by exact Hweb. reflexivity.
    + rewrite Hnokey by now left. reflexivity.
  - intros Hkey answer. now rewrite Hnokey.
  - intros c key Hkey. split.
    + cbn [_handleMessage_so_far]. erewrite begin_accepted by eassumption.
      cbn zeta. rewrite Hkey. rewrite safePost_attached by exact Hweb. reflexivity.
    + exists check_mark. intros net. cbn [_handleMessage_so_far].
      now destruct (Hsettled net c key Hkey).
Qed.

Lemma turn_posts_one_reply_witness :
  posted (snd (_handleMessage_so_far idle_provider sample_host (js "write foo")
                 (js "deepseek-chat") (sample_config (Some (js "sk-test")) None)
                 Stays_pending one_fails))
  = [setTypingIndicator true] /\
  exists mark,
    posted (snd (_handleMessage_so_far idle_provider sample_host (js "write foo")
                   (js "deepseek-chat") (sample_config (Some (js "sk-test")) None)
                   (Settles (Response 401 (js "Unauthorized"))) one_fails))
    = [setTypingIndicator true; setTypingIndicator false;
       addMessage (js "Error: " ++ auth_failed) false] /\
    posted (snd (_handleMessage_so_far idle_provider sample_host (js "write foo")
                   (js "deepseek-chat") (sample_config (Some (js "sk-test")) None)
                   (Settles (Response 200 body_completion)) (fun _ => all_fine 0)))
    = [setTypingIndicator true; setTypingIndicator false;
       addMessage (mark ++ js " Created 1 file(s):" ++ LF :: js "foo.py"
                     ++ LF :: LF :: fenced_python) false].
Proof.
  destruct (@turn_posts_one_reply sample_runtime idle_provider sample_host (js "write foo")
              (js "deepseek-chat") (sample_config (Some (js "sk-test")) None)
              one_fails sample_view eq_refl eq_refl eq_refl) as (_ & _ & Hkey).
  destruct (Hkey (ascii_of_N 115) (js "k-test") eq_refl) as (Hpending & mark & Hsettled).
  split; [exact Hpending|].
  destruct (@turn_posts_one_reply sample_runtime idle_provider sample_host (js "write foo")
              (js "deepseek-chat") (sample_config (Some (js "sk-test")) None)
              (fun _ => all_fine 0) sample_view eq_refl eq_refl eq_refl) as (_ & _ & Hkey').
  destruct (Hkey' (ascii_of_N 115) (js "k-test") eq_refl) as (_ & mark' & Hsettled').
  exists mark'. split.
  - exact (Hsettled (Response 401 (js "Unauthorized"))).
  - exact (Hsettled' (Response 200 body_completion)).
Defined.

(** X4.  The request of a turn carries the whole history, the user's new message
    included as its last entry, the model chosen in the view and the
    configured key; its endpoint is never empty and its token budget never
    zero: an endpoint that is unset or empty is replaced by the default, and
    a budget that is unset or zero by 1024.  It is the only call the start
    of the turn makes. *)
Theorem request_carries_history (p : provider) (h : host) (message model : jsstring)
    (config : configuration) (p1 : provider) (h1 : host) (turn : pending) :
  _handleMessage_begin p h message model config = (p1, h1, Some turn) ->
  let call := pending_call turn in
  call_messages call = _conversationHistory p ++ [user_message message] /\
  call_messages call = _conversationHistory p1 /\
  call_model call = model /\
  get_apiKey config = Some (call_apiKey call) /\
  call_apiKey call <> [] /\
  call_endpoint call <> [] /\
  call_maxTokens call <> 0%Z /\
  (get_endpoint config = None \/ get_endpoint config = Some [] ->
   call_endpoint call = default_endpoint) /\
  (get_maxResponseTokens config = None \/ get_maxResponseTokens config = Some 0%Z ->
   call_maxTokens call = 1024%Z) /\
  calls h1 = calls h ++ [call].
Proof.
  unfold _handleMessage_begin.
  destruct (negb (is_attached (_view p)) || _isProcessing p); [discriminate|].
  destruct (get_apiKey config) as [[|c key]|]; try discriminate.
  intros [= <- <- <-]. cbn.
  repeat split; try discriminate.
  - destruct (get_endpoint config) as [[|a e]|]; cbn; discriminate.
  - unfold number_or. destruct (get_maxResponseTokens config) as [n|]; [|discriminate].
    destruct (n =? 0)%Z eqn:E; [discriminate|]. now apply Z.eqb_neq.
  - now intros [-> | ->].
  - now intros [-> | ->].
  - unfold _safePostMessage. now rewrite calls_safePost.
Qed.

Lemma request_carries_history_witness :
  call_messages
    (pending_call
       {| pending_call :=
            {| call_endpoint := default_endpoint; call_apiKey := js "sk-test";
               call_model := js "deepseek-chat";
               call_messages := [user_message (js "first")];
               call_maxTokens := 1024 |};
          pending_allowEditing := true |})
  = _conversationHistory idle_provider ++ [user_message (js "first")].
Proof.
  apply (@request_carries_history idle_provider sample_host (js "first")
           (js "deepseek-chat") (sample_config (Some (js "sk-test")) None)
           (fst in_flight) (snd in_flight)).
  reflexivity.
Defined.

(** X5.  A successful turn whose reply holds no fence: the history gains the
    user's message and then the reply, the reply is posted word for word
    after the typing indicator went on and off, and the file system, the
    editor and the error notifications are left alone. *)
Theorem reply_without_code_is_passed_on {R : Runtime} (p : provider) (h : host)
    (message model : jsstring) (config : configuration) (net : net_answer)
    (ios : nat -> io_answers) (view : WebviewView) (c : ascii) (key : jsstring) (v : value) :
  _view p = Some view -> has_webview view = true -> _isProcessing p = false ->
  get_apiKey config = Some (c :: key) ->
  _callDeepSeekAPI (string_or (get_endpoint config) default_endpoint) net = Resolved v ->
  includes fence (text_of v) = false ->
  let run := _handleMessage p h message model config net ios in
  _conversationHistory (fst run) =
    _conversationHistory p ++
    [user_message message; {| role := assistant; content := text_of v |}] /\
  posted (snd run) =
    posted h ++ [setTypingIndicator true; setTypingIndicator false;
                 addMessage (text_of v) false] /\
  files (snd run) = files h /\
  shown (snd run) = shown h /\
  errorMessages (snd run) = errorMessages h.
Proof.
  intros Hview Hweb Hidle Hkey Hcall Hplain run. subst run.
  erewrite handleMessage_accepted by eassumption. cbn zeta. rewrite Hkey, Hcall.
  unfold _handleMessage_resume, _processResponseForFiles, _safePostMessage.
  rewrite (extract_without_fence _ Hplain).
  unfold safePost. cbn [length Nat.eqb _view]. rewrite Hweb.
  destruct (boolean_or (get_allowEditing config) true); cbn;
    rewrite <- !app_assoc; repeat split.
Qed.

Lemma reply_without_code_is_passed_on_witness :
  posted (snd (@_handleMessage plain_runtime idle_provider sample_host (js "hi")
                 (js "deepseek-chat") (sample_config (Some (js "sk-test")) None)
                 (Response 200 body_plain) (fun _ => all_fine 0)))
  = [setTypingIndicator true; setTypingIndicator false; addMessage (js "Hello!") false].
Proof.
  apply (@reply_without_code_is_passed_on plain_runtime idle_provider sample_host (js "hi")
           (js "deepseek-chat") (sample_config (Some (js "sk-test")) None)
           (Response 200 body_plain) (fun _ => all_fine 0) sample_view
           (ascii_of_N 115) (js "k-test") (Some (JString (js "Hello!"))));
    reflexivity.
Defined.

(** X6.  Without an open workspace folder the chat still works: whatever blocks
    the reply holds, nothing is written or opened, one [No workspace folder
    open] notification is shown for each block, and the reply is posted
    word for word, without a list of created files, and recorded in the
    history. *)
Theorem no_workspace_no_files {R : Runtime} (p : provider) (h : host)
    (message model : jsstring) (config : configuration) (net : net_answer)
    (ios : nat -> io_answers) (view : WebviewView) (c : ascii) (key : jsstring) (v : value) :
  _view p = Some view -> has_webview view = true -> _isProcessing p = false ->
  get_apiKey config = Some (c :: key) ->
  _callDeepSeekAPI (string_or (get_endpoint config) default_endpoint) net = Resolved v ->
  workspaceFolders h = None ->
  let run := _handleMessage p h message model config net ios in
  files (snd run) = files h /\
  shown (snd run) = shown h /\
  errorMessages (snd run) =
    errorMessages h ++
    repeat (js "No workspace folder open") (length (_extractCodeBlocks (text_of v))) /\
  posted (snd run) =
    posted h ++ [setTypingIndicator true; setTypingIndicator false;
                 addMessage (text_of v) false] /\
  _conversationHistory (fst run) =
    _conversationHistory p ++
    [user_message message; {| role := assistant; content := text_of v |}].
Proof.
  intros Hview Hweb Hidle Hkey Hcall Hws run. subst run.
  erewrite handleMessage_accepted by eassumption. cbn zeta. rewrite Hkey, Hcall.
  replace (boolean_or (get_allowEditing config) true) with true
    by (now destruct (get_allowEditing config) as [[]|]).
  unfold _handleMessage_resume, _processResponseForFiles, _safePostMessage.
  cbn [_view pending_allowEditing]. rewrite !safePost_attached by exact Hweb.
  set (h1 := postMessage _ (setTypingIndicator false)).
  assert (Hws1 : workspaceFolders h1 = None) by exact Hws.
  destruct (_extractCodeBlocks (text_of v)) as [|b blocks] eqn:Eblocks.
  - cbn. rewrite Hweb. subst h1. cbn. rewrite <- !app_assoc, app_nil_r. repeat split.
  - cbn [length Nat.eqb].
    pose proof (createFiles_loop_no_workspace (b :: blocks) h1 ios 0 [] Hws1)
      as (L1 & L2 & L3 & L4).
    pose proof (createFiles_loop_frame (b :: blocks) h1 ios 0 []) as (F1 & _).
    destruct (createFiles_loop (b :: blocks) h1 ios 0 []) as [h2 created].
    cbn [fst snd] in *. subst created.
    cbn [length Nat.ltb Nat.leb _conversationHistory fst snd].
    rewrite safePost_attached by exact Hweb.
    cbn [files shown errorMessages posted postMessage].
    rewrite L2, L3, L4, F1. subst h1. cbn. rewrite <- !app_assoc. repeat split.
Qed.

Lemma no_workspace_no_files_witness :
  let run := _handleMessage idle_provider (bare_host None) (js "write foo")
               (js "deepseek-chat") (sample_config (Some (js "sk-test")) None)
               (Response 200 body_completion) (fun _ => all_fine 0) in
  files (snd run) = [] /\
  errorMessages (snd run) = [js "No workspace folder open"].
Proof.
  destruct (@no_workspace_no_files sample_runtime idle_provider (bare_host None)
              (js "write foo") (js "deepseek-chat") (sample_config (Some (js "sk-test")) None)
              (Response 200 body_completion) (fun _ => all_fine 0) sample_view
              (ascii_of_N 115) (js "k-test") (Some (JString fenced_python))
              eq_refl eq_refl eq_refl eq_refl eq_refl eq_refl) as (Hfiles & _ & Herr & _).
  split; [exact Hfiles|exact Herr].
Defined.

(** X7.  Over a whole session of turns taken one after the other from the idle
    state, every user message is kept: the user entries of the history are
    the earlier ones followed by the messages of the turns, in the order
    they were sent; the earlier history stays as a prefix; each turn adds
    at most two entries; and the session ends idle. *)
Theorem session_keeps_user_messages {R : Runtime} (turns : list turn_input) :
  forall (p : provider) (h : host) (view : WebviewView),
  _view p = Some view -> _isProcessing p = false ->
  let p' := fst (run_turns p h turns) in
  user_contents (_conversationHistory p') =
    user_contents (_conversationHistory p) ++ map turn_message turns /\
  firstn (length (_conversationHistory p)) (_conversationHistory p')
    = _conversationHistory p /\
  length (_conversationHistory p) + length turns <= length (_conversationHistory p') /\
  length (_conversationHistory p') <= length (_conversationHistory p) + 2 * length turns /\
  _isProcessing p' = false.
Proof.
  induction turns as [|t rest IH]; intros p h view Hview Hidle; cbn [run_turns].
  - cbn. rewrite app_nil_r, firstn_all. repeat split; auto; lia.
  - pose proof (@accepted_turn_summary R p h (turn_message t) (turn_model t) (turn_config t)
                  (turn_net t) (turn_ios t) view Hview Hidle)
      as (reply & Hhist & Hreply & Hidle1 & Hview1).
    destruct (_handleMessage p h (turn_message t) (turn_model t) (turn_config t)
                (turn_net t) (turn_ios t)) as [p1 h1].
    cbn [fst] in *.
    specialize (IH p1 h1 view Hview1 Hidle1). cbn zeta in IH.
    destruct IH as (Iusers & Iprefix & Ilow & Ihigh & Iidle).
    assert (Hlen : length (_conversationHistory p1)
                   = length (_conversationHistory p) + 1 + length reply)
      by (rewrite Hhist, length_app; cbn [length]; lia).
    assert (Hreplylen : length reply <= 1)
      by (destruct Hreply as [-> | (r & ->)]; cbn; lia).
    assert (Husers1 : user_contents (_conversationHistory p1)
                      = user_contents (_conversationHistory p) ++ [turn_message t]).
    { rewrite Hhist, user_contents_app.
      destruct Hreply as [-> | (r & ->)]; reflexivity. }
    cbn zeta. repeat split.
    + rewrite Iusers, Husers1, <- app_assoc. reflexivity.
    + transitivity (firstn (length (_conversationHistory p))
                      (firstn (length (_conversationHistory p1))
                         (_conversationHistory (fst (run_turns p1 h1 rest))))).
      * rewrite firstn_firstn. f_equal. lia.
      * rewrite Iprefix, Hhist, firstn_app, Nat.sub_diag, firstn_all. cbn.
        now rewrite app_nil_r.
    + cbn [length]. lia.
    + cbn [length]. lia.
    + exact Iidle.
Qed.

Lemma session_keeps_user_messages_witness :
  user_contents (_conversationHistory (fst (run_turns idle_provider sample_host two_turns)))
  = [js "first"; js "second"].
Proof.
  apply (@session_keeps_user_messages sample_runtime two_turns idle_provider sample_host
           sample_view); reflexivity.
Defined.

(** ** Replaying the history *)

Section Replay.

Lemma replay_fold (history : list Message) (h : host) :
  let h' := fold_left (fun h0 msg => postMessage h0 (replayed msg)) history h in
  posted h' = posted h ++ map replayed history /\
  warnings h' = warnings h /\ files h' = files h /\ shown h' = shown h /\
  errorMessages h' = errorMessages h /\ calls h' = calls h /\
  workspaceFolders h' = workspaceFolders h.
Proof.
  revert h; induction history as [|m rest IH]; intros h; cbn [fold_left map].
  - cbn. now rewrite app_nil_r.
  - destruct (IH (postMessage h (replayed m))) as (I1 & I2 & I3 & I4 & I5 & I6 & I7).
    cbn zeta. rewrite I1, I2, I3, I4, I5, I6, I7. cbn. rewrite <- app_assoc.
    repeat split.
Qed.

Lemma fold_left_ext_host (f g : host -> Message -> host) l h :
  (forall h0 m, f h0 m = g h0 m) -> fold_left f l h = fold_left g l h.
Proof.
  intros E. revert h; induction l as [|m l IH]; intros h; cbn; [reflexivity|].
  now rewrite E, IH.
Qed.

End Replay.

(** X8.  When the view announces itself, [_restoreConversation] posts the
    history back: one message for each entry, in the order of the
    conversation, marked as the user's exactly for the entries of role
    [user].  It changes nothing else, neither the history nor the rest of
    the host, and without a view it does nothing at all. *)
Theorem restoreConversation_replays (p : provider) (h : host) (view : WebviewView) :
  _view p = Some view -> has_webview view = true ->
  posted (_restoreConversation p h) = posted h ++ map replayed (_conversationHistory p) /\
  length (posted (_restoreConversation p h))
    = length (posted h) + length (_conversationHistory p) /\
  warnings (_restoreConversation p h) = warnings h /\
  files (_restoreConversation p h) = files h /\
  errorMessages (_restoreConversation p h) = errorMessages h /\
  calls (_restoreConversation p h) = calls h /\
  (forall q, _view q = None -> _restoreConversation q h = h).
Proof.
  intros Hview Hweb. unfold _restoreConversation at 1 2 3 4 5 6. rewrite Hview.
  rewrite (fold_left_ext_host _ (fun h0 msg => postMessage h0 (replayed msg)))
    by (intros; unfold _safePostMessage; rewrite Hview; now apply safePost_attached).
  destruct (replay_fold (_conversationHistory p) h) as (H1 & H2 & H3 & _ & H5 & H6 & _).
  cbn zeta in *. rewrite H1, H2, H3, H5, H6, length_app, length_map. repeat split.
  intros q Hq. unfold _restoreConversation. now rewrite Hq.
Qed.

Lemma restoreConversation_replays_witness :
  posted (_restoreConversation
            (fst (run_turns idle_provider sample_host two_turns)) sample_host)
  = [addMessage (js "first") true; addMessage (js "second") true;
     addMessage fenced_python false].
Proof.
  destruct (@restoreConversation_replays
              (fst (run_turns idle_provider sample_host two_turns)) sample_host sample_view)
    as (Hposted & _); [reflexivity|reflexivity|].
  rewrite Hposted. reflexivity.
Defined.

(** ** Failures of the completion call *)

(** X9.  A response whose status is not 200 never yields a completion.  Status
    401 fails with the message about the API key, whatever the body.  Any
    other status fails with [API error: <status> - <detail>], where the
    detail is the [error.message] of the body when the body is JSON with
    such a non-empty string, and the raw body when the body is not JSON or
    is JSON without an [error].  A transport error passes its message on
    unchanged, and an endpoint that is no URL fails with a message that
    names it. *)
Theorem error_status_is_rejected {R : Runtime} (endpoint : jsstring) (statusCode : N)
    (data : jsstring) :
  statusCode <> 200%N ->
  let result := _callDeepSeekAPI endpoint (Response statusCode data) in
  (exists message, result = Rejected message) /\
  (statusCode = 401%N -> result = Rejected auth_failed) /\
  (statusCode <> 401%N ->
   exists detail,
     result = Rejected (js "API error: " ++ number_to_string statusCode ++ js " - " ++ detail) /\
     (JSON_parse data = None -> detail = data) /\
     (forall fields, JSON_parse data = Some (JObject fields) ->
        field fields (js "error") = None -> detail = data) /\
     (forall fields members c text,
        JSON_parse data = Some (JObject fields) ->
        field fields (js "error") = Some (JObject members) ->
        field members (js "message") = Some (JString (c :: text)) ->
        detail = c :: text)) /\
  (forall message, _callDeepSeekAPI endpoint (NetError message) = Rejected message) /\
  _callDeepSeekAPI endpoint InvalidUrl = Rejected (js "Invalid API endpoint: " ++ endpoint).
Proof.
  intros H200 result. subst result. cbn [_callDeepSeekAPI].
  apply N.eqb_neq in H200. rewrite H200.
  destruct (statusCode =? 401)%N eqn:E401.
  - apply N.eqb_eq in E401. repeat split; eauto. intros H. contradiction.
  - apply N.eqb_neq in E401. unfold on_error_status.
    assert (Hshape : exists detail,
              match JSON_parse data with
              | Some errorResponse =>
                  match get (Some errorResponse) (js "error") with
                  | Some error =>
                      Rejected (js "API error: " ++ number_to_string statusCode ++ js " - " ++
                                (if truthy match get error (js "message") with
                                           | Some m => m
                                           | None => None
                                           end
                                 then text_of match get error (js "message") with
                                              | Some m => m
                                              | None => None
                                              end
                                 else data))
                  | None =>
                      Rejected (js "API error: " ++ number_to_string statusCode ++ js " - " ++ data)
                  end
              | None =>
                  Rejected (js "API error: " ++ number_to_string statusCode ++ js " - " ++ data)
              end
              = Rejected (js "API error: " ++ number_to_string statusCode ++ js " - " ++ detail) /\
              (JSON_parse data = None -> detail = data) /\
              (forall fields, JSON_parse data = Some (JObject fields) ->
                 field fields (js "error") = None -> detail = data) /\
              (forall fields members c text,
                 JSON_parse data = Some (JObject fields) ->
                 field fields (js "error") = Some (JObject members) ->
                 field members (js "message") = Some (JString (c :: text)) ->
                 detail = c :: text)).
    { destruct (JSON_parse data) as [errorResponse|].
      - destruct (get (Some errorResponse) (js "error")) as [error|] eqn:Eerr.
        + eexists. split; [reflexivity|]. split; [discriminate|]. split.
          * intros fields [= ->] Hnone. cbn [get] in Eerr. rewrite Hnone in Eerr.
            injection Eerr as <-. reflexivity.
          * intros fields members c text [= ->] Herror Hmessage.
            cbn [get] in Eerr. rewrite Herror in Eerr. injection Eerr as <-.
            cbn [get]. rewrite Hmessage. reflexivity.
        + exists data. split; [reflexivity|]. split; [reflexivity|]. split.
          * reflexivity.
          * intros fields members c text [= ->] Herror. cbn [get] in Eerr. discriminate.
      - exists data. repeat split; discriminate. }
    destruct Hshape as (detail & Hres & Hd).
    repeat split; eauto.
    + intros ->; contradiction.
Qed.

Lemma error_status_is_rejected_witness :
  @_callDeepSeekAPI plain_runtime default_endpoint (Response 429 body_rate_limited)
  = Rejected (js "API error: 429 - Rate limit reached").
Proof.
  destruct (@error_status_is_rejected plain_runtime default_endpoint 429 body_rate_limited)
    as (_ & _ & Hother & _); [lia|].
  destruct Hother as (detail & -> & _ & _ & Hmessage); [lia|].
  rewrite (Hmessage
             [(js "error", JObject [(js "message", JString (js "Rate limit reached"))])]
             [(js "message", JString (js "Rate limit reached"))]
             (ascii_of_N 82) (js "ate limit reached") eq_refl eq_refl eq_refl).
  reflexivity.
Defined.

(** ** The earlier revision: the probe before the completion *)

(** X10.  In the earlier revision every turn with a key first probes the key with
    a fixed small request, and only a probe answered with status 200 lets
    the completion be called.  After a failed probe the turn posts the
    invalid-key message, has made the probe as its only call, never shows
    the typing indicator, and still keeps the user's message in the
    history.  After a successful probe the turn makes exactly two calls,
    the second with the configured model (or [deepseek-chat]) and the whole
    history, and a completion that resolves is appended to the history and
    posted after both typing-indicator events: the indicator is added
    before the call and removed again before the reply is posted. *)
Theorem earlier_probe_guards_completion {R : Runtime} (q : Earlier.provider) (h : host)
    (message : jsstring) (config : configuration) (probe net : net_answer)
    (view : WebviewView) (c : ascii) (key : jsstring) :
  Earlier._view q = Some view -> has_webview view = true ->
  get_apiKey config = Some (c :: key) ->
  let endpoint := string_or (get_endpoint config) default_endpoint in
  let history := Earlier._conversationHistory q ++ [user_message message] in
  let run := Earlier._handleMessage q h message config probe net in
  (Earlier._testApiKey probe = true <-> exists body, probe = Response 200 body) /\
  (Earlier._testApiKey probe = false ->
   Earlier._conversationHistory (fst run) = history /\
   posted (snd run) = posted h ++ [addMessage Earlier.invalid_key false] /\
   calls (snd run) = calls h ++ [Earlier.probe_call (c :: key) endpoint]) /\
  (Earlier._testApiKey probe = true ->
   calls (snd run) =
     calls h ++
     [Earlier.probe_call (c :: key) endpoint;
      {| call_endpoint := endpoint; call_apiKey := c :: key;
         call_model := string_or (get_model config) (js "deepseek-chat");
         call_messages := history;
         call_maxTokens := number_or (get_maxResponseTokens config) 1024 |}] /\
   forall v,
     _callDeepSeekAPI endpoint net = Resolved v ->
     Earlier._conversationHistory (fst run) =
       history ++ [{| role := assistant; content := text_of v |}] /\
     posted (snd run) =
       posted h ++ [addTypingIndicator; removeTypingIndicator;
                    addMessage (text_of v) false]).
Proof.
  intros Hview Hweb Hkey endpoint history run. subst endpoint history run.
  split; [|split].
  - destruct probe as [|m|status body]; cbn; split; try discriminate.
    + intros [body H]; discriminate.
    + intros [body H]; discriminate.
    + intros H. apply N.eqb_eq in H. subst. now exists body.
    + intros [b [= -> _]]. reflexivity.
  - intros Hprobe.
    unfold Earlier._handleMessage, Earlier._handleMessage_begin.
    rewrite Hview, Hkey, Hprobe.
    unfold Earlier._handleMessage_probed, Earlier._safePostMessage.
    cbn [Earlier._view fst snd Earlier._conversationHistory].
    rewrite safePost_attached by exact Hweb. cbn. repeat split.
  - intros Hprobe.
    unfold Earlier._handleMessage, Earlier._handleMessage_begin.
    rewrite Hview, Hkey, Hprobe.
    unfold Earlier._handleMessage_probed, Earlier._handleMessage_resume,
      Earlier._safePostMessage.
    cbn [Earlier._view Earlier.endpoint Earlier.apiKey Earlier.model Earlier.maxTokens
         call_endpoint Earlier._conversationHistory].
    unfold safePost. rewrite Hweb. split.
    + destruct (_callDeepSeekAPI (string_or (get_endpoint config) default_endpoint) net);
        cbn; rewrite <- ?app_assoc; reflexivity.
    + intros v ->. cbn. rewrite <- !app_assoc. split; reflexivity.
Qed.

Lemma earlier_probe_guards_completion_witness :
  let run := Earlier._handleMessage earlier_idle sample_host (js "hello")
               (sample_config (Some (js "sk-revoked")) None)
               (Response 401 (js "Unauthorized")) (Response 200 body_completion) in
  posted (snd run) = [addMessage Earlier.invalid_key false] /\
  length (calls (snd run)) = 1.
Proof.
  destruct (@earlier_probe_guards_completion sample_runtime earlier_idle sample_host
              (js "hello") (sample_config (Some (js "sk-revoked")) None)
              (Response 401 (js "Unauthorized")) (Response 200 body_completion)
              sample_view (ascii_of_N 115) (js "k-revoked") eq_refl eq_refl eq_refl)
    as (_ & Hfailed & _).
  destruct (Hfailed eq_refl) as (_ & Hposted & Hcalls).
  cbn zeta. rewrite Hposted, Hcalls. split; reflexivity.
Defined.

(** ** The nonce of the view *)

Section Nonce.

Lemma getNonce_loop_spec steps :
  forall i random_index text,
  getNonce_loop steps i random_index text =
  text ++ flat_map (fun j => charAt possible (random_index j)) (seq i steps).
Proof.
  induction steps as [|steps IH]; intros i random_index text; cbn [getNonce_loop seq flat_map].
  - now rewrite app_nil_r.
  - now rewrite IH, <- app_assoc.
Qed.

Lemma charAt_possible n :
  n < length possible ->
  exists c, charAt possible n = [c] /\ is_alnum c = true /\ nth_error possible n = Some c.
Proof.
  intros Hn. unfold charAt.
  destruct (nth_error possible n) as [c|] eqn:E.
  - exists c. repeat split.
    assert (Hall : forallb is_alnum possible = true) by reflexivity.
    rewrite forallb_forall in Hall. apply Hall. eapply nth_error_In; eauto.
  - apply nth_error_None in E. lia.
Qed.

Lemma nonce_chars random_index (l : list nat) :
  (forall j, In j l -> random_index j < length possible) ->
  length (flat_map (fun j => charAt possible (random_index j)) l) = length l /\
  forallb is_alnum (flat_map (fun j => charAt possible (random_index j)) l) = true.
Proof.
  induction l as [|j l IH]; intros H; cbn [flat_map]; [now split|].
  destruct (charAt_possible (H j (or_introl eq_refl))) as (c & -> & Hc & _).
  destruct IH as [IH1 IH2]; [intros k Hk; apply H; now right|].
  cbn [app length forallb]. now rewrite IH1, Hc, IH2.
Qed.

End Nonce.

(** X11.  When every random index falls inside the alphabet (as the floor of a
    number below one times its length does), the nonce has exactly 32
    characters, each a letter or a digit, and the character at each place
    is the one of the alphabet at that iteration's index. *)
Theorem getNonce_alphanumeric (random_index : nat -> nat) :
  (forall i, i < 32 -> random_index i < length possible) ->
  length (getNonce random_index) = 32 /\
  forallb is_alnum (getNonce random_index) = true /\
  forall i, i < 32 ->
    nth_error (getNonce random_index) i = nth_error possible (random_index i).
Proof.
  intros H. unfold getNonce. rewrite getNonce_loop_spec. cbn [app].
  assert (Hin : forall j, In j (seq 0 32) -> random_index j < length possible)
    by (intros j Hj; apply in_seq in Hj; apply H; lia).
  destruct (nonce_chars random_index (seq 0 32) Hin) as [Hlen Hall].
  split; [now rewrite Hlen, length_seq|]. split; [exact Hall|].
  intros i Hi.
  assert (Hgen : forall n start k, k < n ->
            (forall j, In j (seq start n) -> random_index j < length possible) ->
            nth_error (flat_map (fun j => charAt possible (random_index j)) (seq start n)) k
            = nth_error possible (random_index (start + k))).
  { induction n as [|n IH]; intros start k Hk Hb; [lia|]. cbn [seq flat_map].
    destruct (charAt_possible (Hb start (or_introl eq_refl))) as (c & -> & _ & Hc).
    destruct k as [|k]; cbn.
    - now rewrite Nat.add_0_r.
    - rewrite IH by (try lia; intros j Hj; apply Hb; now right).
      f_equal. f_equal. lia. }
  now rewrite (Hgen 32 0 i Hi Hin).
Qed.

Lemma getNonce_alphanumeric_witness :
  length (getNonce (fun i => (7 * i + 3) mod 62)) = 32.
Proof.
  apply (getNonce_alphanumeric (fun i => (7 * i + 3) mod 62)).
  intros i _. change (length possible) with 62. apply Nat.mod_upper_bound. lia.
Defined.

(** ** The extensions of the known languages *)

Section KnownLanguages.

Lemma str_eqb_eq a b : str_eqb a b = true -> a = b.
Proof.
  revert b; induction a as [|x a IH]; intros [|y b] H; simpl in H; try easy.
  apply andb_prop in H as [Hxy Hab]. apply Ascii.eqb_eq in Hxy.
  now rewrite Hxy, (IH _ Hab).
Qed.

Lemma own_property_In o key v : own_property o key = Some v -> In (key, v) o.
Proof.
  induction o as [|[k w] o IH]; cbn; [discriminate|].
  destruct (str_eqb k key) eqn:E.
  - intros [= ->]. left. now rewrite (str_eqb_eq _ _ E).
  - intros H. right. now apply IH.
Qed.

End KnownLanguages.

(** X12.  A tag that names one of the twenty languages, in any mix of upper and
    lower case, gets the extension the table pairs with its lower-case
    form: a string of one to five lower-case letters, the same for every
    case variant of the tag. *)
Theorem known_language_extension (tag : jsstring) :
  known_language tag = true ->
  exists ext,
    _getFileExtension tag = Str ext /\
    In (toLowerCase tag, ext) extensionMap /\
    1 <= length ext <= 5 /\
    forallb is_lower ext = true /\
    forall other, case_variant tag other = true -> _getFileExtension other = Str ext.
Proof.
  unfold known_language. intros H.
  destruct (own_property extensionMap (toLowerCase tag)) as [ext|] eqn:E; [|discriminate].
  apply own_property_In in E as Hin.
  assert (Hall : Forall (fun kv => 1 <= length (snd kv) <= 5 /\
                                   forallb is_lower (snd kv) = true) extensionMap)
    by (repeat constructor).
  rewrite Forall_forall in Hall. destruct (Hall _ Hin) as [Hlen Hlower]. cbn [snd] in *.
  assert (Hext : _getFileExtension tag = Str ext).
  { unfold _getFileExtension, get_property. rewrite E.
    destruct ext; [cbn in Hlen; lia|reflexivity]. }
  exists ext. repeat split; auto; try lia.
  intros other Hother. now rewrite <- (getFileExtension_case_insensitive _ _ Hother).
Qed.

Lemma known_language_extension_witness :
  exists ext, _getFileExtension (js "TypeScript") = Str ext /\
              In (js "typescript", ext) extensionMap.
Proof.
  destruct (known_language_extension (js "TypeScript") eq_refl)
    as (ext & Hext & Hin & _).
  exists ext. split; [exact Hext|exact Hin].
Defined.

(** ** The blocks that extraction delivers *)

Section Blocks.

Lemma trimStart_clean s : starts_clean (trimStart s) = true.
Proof.
  induction s as [|c s IH]; cbn; [reflexivity|].
  destruct (is_space c) eqn:E; [exact IH|]. cbn. now rewrite E.
Qed.

Lemma trimStart_split s :
  exists sp, s = sp ++ trimStart s /\ forallb is_space sp = true.
Proof.
  induction s as [|c s (sp & Hs & Hsp)]; cbn.
  - now exists [].
  - destruct (is_space c) eqn:E.
    + exists (c :: sp). cbn. rewrite E, Hsp. split; [now rewrite Hs at 1|reflexivity].
    + now exists [].
Qed.

Lemma trimEnd_clean_end s : starts_clean (rev (trimEnd s)) = true.
Proof. unfold trimEnd. rewrite rev_involutive. apply trimStart_clean. Qed.

Lemma trimEnd_clean_start s : starts_clean s = true -> starts_clean (trimEnd s) = true.
Proof.
  intros H. unfold trimEnd.
  destruct (trimStart_split (rev s)) as (sp & Hs & _).
  apply (f_equal (@rev ascii)) in Hs. rewrite rev_involutive, rev_app_distr in Hs.
  destruct (rev (trimStart (rev s))) as [|d u]; [reflexivity|].
  rewrite Hs in H. exact H.
Qed.

Lemma trim_is_trimmed s : is_trimmed (trim s) = true.
Proof.
  unfold is_trimmed, trim.
  now rewrite trimEnd_clean_start, trimEnd_clean_end by apply trimStart_clean.
Qed.

Lemma all_matches_count fuel :
  forall s, 8 * length (all_matches fuel codeBlockRegex s) <= length s.
Proof.
  induction fuel as [|fuel IH]; intros s; cbn [all_matches]; [cbn; lia|].
  destruct (exec codeBlockRegex s) as [m|] eqn:E; [|cbn; lia].
  apply exec_codeBlock_inv in E as (skipped & tag & ws & raw & Hs & Ht & _).
  specialize (IH (m_rest m)).
  assert (Hlen : length s = length skipped + length (m_text m) + length (m_rest m))
    by (rewrite Hs at 1; rewrite !length_app; lia).
  assert (Htext : 8 <= length (m_text m)).
  { rewrite Ht. repeat (rewrite ?length_app; cbn [length fence js list_ascii_of_string]). lia. }
  cbn [length]. lia.
Qed.

End Blocks.

(** X13.  Every block that [_extractCodeBlocks] delivers has a language tag made
    of word characters only (letters, digits, underscore; possibly none),
    and a code that neither starts nor ends with white space; and a
    response of [n] characters holds at most [n / 8] blocks. *)
Theorem extracted_blocks_are_clean (response : jsstring) :
  (forall block, In block (_extractCodeBlocks response) ->
     forallb is_word (language block) = true /\
     is_trimmed (code_text block) = true) /\
  8 * length (_extractCodeBlocks response) <= length response.
Proof.
  unfold _extractCodeBlocks. rewrite extract_loop_matches. cbn [app]. split.
  - intros block Hin. apply in_map_iff in Hin as (m & <- & Hm).
    apply all_matches_exec in Hm as (s' & Hexec).
    apply exec_codeBlock_inv in Hexec as (_ & tag & ws & raw & _ & _ & Hw & _ & -> & _).
    cbn. split; [exact Hw|apply trim_is_trimmed].
  - rewrite length_map. apply all_matches_count.
Qed.

Lemma extracted_blocks_are_clean_witness :
  forallb is_word (js "python") = true /\
  is_trimmed (js "def foo():" ++ LF :: js "    pass") = true.
Proof.
  destruct (extracted_blocks_are_clean fenced_python) as (Hclean & _).
  apply (Hclean {| language := js "python";
                   code_text := js "def foo():" ++ LF :: js "    pass" |}).
  vm_compute. now left.
Defined.

(** ** File names from a Python function *)

Section PythonNames.

Let finish : continuation := fun rest c => Some (c, rest).

Lemma ident_start_facts c :
  is_ident_start c = true -> is_word c = true /\ is_space c = false.
Proof. destruct c as [[] [] [] [] [] [] [] []]; cbn; intros H; try discriminate H; now split. Qed.

Lemma word_no_separator c : is_word c = true -> is_separator c = false.
Proof. destruct c as [[] [] [] [] [] [] [] []]; cbn; intros H; try discriminate H; reflexivity. Qed.

Lemma digit_no_separator c : is_digit c = true -> is_separator c = false.
Proof. destruct c as [[] [] [] [] [] [] [] []]; cbn; intros H; try discriminate H; reflexivity. Qed.

Lemma slug_no_separator c : is_separator (slug_char c) = false.
Proof. destruct c as [[] [] [] [] [] [] [] []]; reflexivity. Qed.

(** A definition right at the start of the text is matched, and the group
    is its name. *)
Lemma func_match_forward ws name ws2 post :
  0 < length ws -> forallb is_space ws = true ->
  is_identifier name = true ->
  forallb is_space ws2 = true ->
  match_here funcRegex (js "def" ++ ws ++ name ++ ws2 ++ js "(" ++ post)
  = Some (capture 1 name no_captures, post).
Proof.
  intros Hlen Hws Hname Hws2.
  destruct ws as [|w0 ws']; [cbn in Hlen; lia|].
  destruct name as [|n0 name']; [discriminate|].
  cbn in Hws, Hname.
  apply andb_prop in Hws as [Hw0 Hws'], Hname as [Hn0 Hname'].
  destruct (ident_start_facts _ Hn0) as [Hn0w Hn0s].
  unfold match_here, funcRegex, Plus.
  rewrite rmatch_Seq, rmatch_Lit, starts_with_app, skipn_exact.
  rewrite !rmatch_Seq. cbn [app]. rewrite rmatch_Class, Hw0, rmatch_greedy_class.
  apply greedy_scan_max; [exact Hws'|now rewrite Hn0s|].
  rewrite rmatch_Seq, rmatch_Group, rmatch_Seq, rmatch_Class, Hn0, rmatch_greedy_class.
  apply greedy_scan_max; [exact Hname'| |].
  - destruct ws2 as [|w ws2']; [reflexivity|].
    cbn in Hws2. apply andb_prop in Hws2 as [Hw _].
    cbn. now rewrite (space_not_word _ Hw).
  - rewrite rmatch_Seq, rmatch_greedy_class.
    apply greedy_scan_max; [exact Hws2|reflexivity|].
    cbn [app js list_ascii_of_string]. rewrite rmatch_Class.
    replace (is_char (ascii_of_N 40) "("%char) with true by reflexivity.
    do 2 f_equal. f_equal.
    change (n0 :: name' ++ ws2 ++ "("%char :: post)
      with ((n0 :: name') ++ ws2 ++ "("%char :: post).
    apply firstn_exact.
Qed.

(** Whatever the pattern matches, the group is a run of word characters. *)
Lemma func_match_inv s c rest :
  match_here funcRegex s = Some (c, rest) ->
  exists name, c 1 = Some name /\ forallb is_word name = true.
Proof.
  unfold match_here, funcRegex, Plus.
  rewrite rmatch_Seq, rmatch_Lit.
  destruct (starts_with (js "def") s); [|discriminate].
  rewrite !rmatch_Seq, rmatch_Class.
  destruct (skipn (length (js "def")) s) as [|a s1]; [discriminate|].
  destruct (is_space a); [|discriminate].
  rewrite rmatch_greedy_class. intros H.
  apply greedy_scan_inv in H as (j & _ & _ & H).
  rewrite rmatch_Seq, rmatch_Group, rmatch_Seq, rmatch_Class in H.
  destruct (skipn j s1) as [|b s3]; [discriminate|].
  destruct (is_ident_start b) eqn:Hb; [|discriminate].
  rewrite rmatch_greedy_class in H.
  apply greedy_scan_inv in H as (j2 & Hj2 & Hword & H).
  rewrite rmatch_Seq, rmatch_greedy_class in H.
  apply greedy_scan_inv in H as (j3 & _ & _ & H).
  rewrite rmatch_Class in H.
  destruct (skipn j3 (skipn j2 s3)) as [|d s6]; [discriminate|].
  destruct (is_char (ascii_of_N 40) d); [|discriminate].
  injection H as <- _.
  assert (E : match length (skipn j2 s3) with
              | 0 => S (length s3)
              | S l => length s3 - l
              end = S j2)
    by (rewrite length_skipn; destruct (length s3 - j2) eqn:D; lia).
  rewrite E. exists (b :: firstn j2 s3). split; [reflexivity|].
  cbn. rewrite Hword. now destruct (ident_start_facts _ Hb) as [-> _].
Qed.

End PythonNames.

Section NamesAndWrites.

Lemma func_needs_def s : starts_with (js "def") s = false -> match_here funcRegex s = None.
Proof.
  intros H. unfold match_here, funcRegex. now rewrite rmatch_Seq, rmatch_Lit, H.
Qed.

Lemma no_separator_app a b :
  no_separator (a ++ b) = no_separator a && no_separator b.
Proof. unfold no_separator. apply forallb_app. Qed.

Lemma no_separator_of (f : ascii -> bool) s :
  (forall c, f c = true -> is_separator c = false) ->
  forallb f s = true -> no_separator s = true.
Proof.
  intros Hf. unfold no_separator. induction s as [|c s IH]; cbn; [reflexivity|].
  intros H. apply andb_prop in H as [Hc Hs]. now rewrite (Hf _ Hc), IH.
Qed.

Lemma slug_safe title : no_separator (toLowerCase (replace_non_alnum title)) = true.
Proof.
  rewrite slug_char_map. unfold no_separator.
  induction title as [|c t IH]; cbn; [reflexivity|].
  now rewrite slug_no_separator, IH.
Qed.

(** The extension of any tag, as text, holds no path separator. *)
Lemma extension_safe tag :
  no_separator (to_string (_getFileExtension tag)) = true /\
  0 < length (to_string (_getFileExtension tag)).
Proof.
  unfold _getFileExtension, get_property.
  destruct (own_property extensionMap (toLowerCase tag)) as [ext|] eqn:E.
  - apply own_property_In in E.
    assert (Hall : Forall (fun kv => no_separator (snd kv) = true /\ 0 < length (snd kv))
                     extensionMap) by (repeat constructor).
    rewrite Forall_forall in Hall. destruct (Hall _ E) as [Hsafe Hlen]. cbn [snd] in *.
    destruct ext; [cbn in Hlen; lia|]. cbn [or_default to_string]. now split.
  - destruct (existsb (str_eqb (toLowerCase tag)) Object_prototype) eqn:Ep.
    + apply existsb_exists in Ep as (name & Hin & Heq).
      apply str_eqb_eq in Heq. rewrite Heq. cbn [or_default].
      assert (Hall : Forall (fun name => no_separator (to_string (Inherited name)) = true /\
                                         0 < length (to_string (Inherited name)))
                       Object_prototype) by (repeat constructor).
      rewrite Forall_forall in Hall. now apply Hall.
    + cbn. split; [reflexivity|lia].
Qed.

(** A name made from an extension without separator has none, and is
    longer than [..]. *)
Lemma fileNameFor_safe content extension now :
  no_separator (to_string extension) = true ->
  0 < length (to_string extension) ->
  no_separator (fileNameFor content extension now) = true /\
  3 < length (fileNameFor content extension now).
Proof.
  intros Hsafe Hlen.
  assert (Hdefault : no_separator (default_name extension now) = true /\
                     3 < length (default_name extension now)).
  { unfold default_name. rewrite !no_separator_app, Hsafe, !length_app.
    rewrite (no_separator_of is_digit _ digit_no_separator (number_to_string_digits now)).
    split; [reflexivity|]. cbn. lia. }
  unfold fileNameFor.
  destruct (strict_eq extension (js "html")) eqn:Ehtml.
  - destruct (first_group (exec titleRegex content)) as [title|] eqn:Et; [|exact Hdefault].
    rewrite !no_separator_app, slug_safe, Hsafe, !length_app. split; [reflexivity|].
    destruct extension as [ext|name]; [|discriminate].
    cbn in Ehtml. apply str_eqb_eq in Ehtml. subst ext. cbn. lia.
  - destruct (strict_eq extension (js "py")); [|exact Hdefault].
    destruct (first_group (exec funcRegex content)) as [name|] eqn:En; [|exact Hdefault].
    unfold first_group in En.
    destruct (exec funcRegex content) as [m|] eqn:Em; [|discriminate].
    apply exec_from_inv in Em as (skipped & s' & _ & _ & Hm & _).
    apply func_match_inv in Hm as (g & Hg & Hword). rewrite Hg in En.
    destruct g as [|c g]; [discriminate|]. injection En as <-.
    rewrite no_separator_app, length_app.
    rewrite (no_separator_of is_word _ word_no_separator Hword).
    split; [reflexivity|]. cbn. lia.
Qed.

Lemma file_content_app a b path :
  file_content (a ++ b) path =
    match file_content b path with
    | Some data => Some data
    | None => file_content a path
    end.
Proof.
  induction a as [|[written data] a IH]; cbn [app file_content].
  - now destruct (file_content b path).
  - rewrite IH. now destruct (file_content b path).
Qed.

Lemma numbered_In n b blocks k : In (n, b) (numbered k blocks) -> In b blocks.
Proof.
  revert k; induction blocks as [|b0 rest IH]; intros k; cbn [numbered]; [easy|].
  intros [[= _ ->]|H]; [now left|right; eauto].
Qed.

(** What one call writes: nothing, or the code of its block under a name
    without separators in the first workspace folder. *)
Lemma writes_of_cases folders ios nb :
  writes_of folders ios nb = [] \/
  exists folder others name,
    folders = Some (folder :: others) /\
    writeFile_error (ios (fst nb)) = None /\
    no_separator name = true /\ 3 < length name /\
    writes_of folders ios nb = [(path_join folder name, code_text (snd nb))].
Proof.
  unfold writes_of, written_ok.
  destruct folders as [[|folder others]|]; cbn [first_folder]; auto.
  destruct (writeFile_error (ios (fst nb))) eqn:E; auto.
  right. exists folder, others, (block_name (snd nb) (ios (fst nb))).
  destruct (extension_safe (language (snd nb))) as [Hsafe Hlen].
  destruct (fileNameFor_safe (code_text (snd nb)) (_getFileExtension (language (snd nb)))
              (Date_now (ios (fst nb))) Hsafe Hlen) as [Hname Hlong].
  repeat split; auto.
Qed.

End NamesAndWrites.

(** X14.  For a [py] block whose first [def] is a function definition (the word
    [def], white space, an identifier, optional white space and an opening
    parenthesis), the file is named after that function: [<name>.py].  A
    [py] block without the word [def] gets the default name. *)
Theorem python_function_file_name (content : jsstring) (i : nat)
    (ws name ws2 post : jsstring) (now : N) :
  indexOf (js "def") content = Some i ->
  skipn i content = js "def" ++ ws ++ name ++ ws2 ++ js "(" ++ post ->
  0 < length ws -> forallb is_space ws = true ->
  is_identifier name = true ->
  forallb is_space ws2 = true ->
  fileNameFor content (Str (js "py")) now = name ++ js ".py" /\
  (forall other, includes (js "def") other = false ->
     fileNameFor other (Str (js "py")) now = default_name (Str (js "py")) now).
Proof.
  intros Hindex Hat Hlen Hws Hname Hws2. split.
  - apply indexOf_inv in Hindex as (Hi & _ & Hmin).
    destruct (@exec_from_first funcRegex 0 content i (capture 1 name no_captures) post)
      as (m & Hm & Hg & _).
    + exact Hi.
    + intros k Hk. apply func_needs_def. now apply Hmin.
    + rewrite Hat. now apply func_match_forward.
    + unfold fileNameFor.
      replace (strict_eq (Str (js "py")) (js "html")) with false by reflexivity.
      replace (strict_eq (Str (js "py")) (js "py")) with true by reflexivity.
      unfold exec. rewrite Hm. cbn [first_group]. rewrite Hg.
      destruct name as [|c name']; [discriminate|]. reflexivity.
  - intros other Hnone. unfold fileNameFor.
    replace (strict_eq (Str (js "py")) (js "html")) with false by reflexivity.
    replace (strict_eq (Str (js "py")) (js "py")) with true by reflexivity.
    unfold exec. rewrite exec_from_nowhere; [reflexivity|].
    intros j. apply func_needs_def. now apply starts_with_none.
Qed.

Lemma python_function_file_name_witness :
  fileNameFor python_script (Str (js "py")) 0 = js "main.py".
Proof.
  apply (@python_function_file_name python_script 11 (js "  ") (js "main") (js " ")
           (js "argv):" ++ LF :: js "    return 0") 0%N);
    [reflexivity | reflexivity | cbn; lia | reflexivity | reflexivity | reflexivity].
Defined.

(** X15.  Whatever the content and the language tag of a block, the name its file
    gets holds neither a slash nor a backslash and is longer than three
    characters: it cannot be [.] or [..] and names nothing outside the
    workspace folder it is joined to. *)
Theorem file_name_has_no_separator (content tag : jsstring) (now : N) :
  no_separator (fileNameFor content (_getFileExtension tag) now) = true /\
  3 < length (fileNameFor content (_getFileExtension tag) now).
Proof.
  destruct (extension_safe tag) as [Hsafe Hlen].
  now apply fileNameFor_safe.
Qed.

(** X16.  What a response makes the provider write.  There is one write for each
    extracted block whose [fs.writeFile] succeeds when a workspace folder
    is open, in extraction order, and no other: it puts the code of that
    block, which is trimmed, into the first workspace folder under a name
    without separators.  A write replaces what its path held, so
    afterwards a path holds the code of the last block written to it (two
    blocks that get the same name leave one file, with the code of the
    second), and a path that no block was written to holds what it held
    before. *)
Theorem written_files_are_block_code (h : host) (response : jsstring)
    (ios : nat -> io_answers) :
  let run := _processResponseForFiles h response ios in
  let written :=
    flat_map (writes_of (workspaceFolders h) ios)
      (numbered 0 (_extractCodeBlocks response)) in
  files (fst run) = files h ++ written /\
  (forall nb,
     writes_of (workspaceFolders h) ios nb = [] \/
     exists folder others name,
       workspaceFolders h = Some (folder :: others) /\
       writeFile_error (ios (fst nb)) = None /\
       no_separator name = true /\ 3 < length name /\
       writes_of (workspaceFolders h) ios nb
       = [(path_join folder name, code_text (snd nb))]) /\
  (forall path data, In (path, data) written ->
     exists block,
       In block (_extractCodeBlocks response) /\ data = code_text block /\
       is_trimmed data = true) /\
  (forall path,
     file_content (files (fst run)) path =
       match file_content written path with
       | Some data => Some data
       | None => file_content (files h) path
       end).
Proof.
  intros run written.
  assert (Hfiles : files (fst run) = files h ++ written).
  { subst run written. unfold _processResponseForFiles.
    destruct (_extractCodeBlocks response) as [|b blocks] eqn:E.
    - cbn. now rewrite app_nil_r.
    - cbn [length Nat.eqb]. apply createFiles_loop_writes. }
  split; [exact Hfiles|]. split; [|split].
  - intros nb. apply writes_of_cases.
  - intros path data Hin. subst written.
    apply in_flat_map in Hin as ([n block] & Hnb & Hin).
    apply numbered_In in Hnb.
    destruct (writes_of_cases (workspaceFolders h) ios (n, block))
      as [Hnone | (folder & others & name & _ & _ & _ & _ & Hone)].
    + rewrite Hnone in Hin. contradiction.
    + rewrite Hone in Hin. destruct Hin as [[= _ <-]|[]].
      exists block. cbn [snd]. repeat split; auto.
      unfold _extractCodeBlocks in Hnb. rewrite extract_loop_matches in Hnb. cbn [app] in Hnb.
      apply in_map_iff in Hnb as (m & <- & _). apply trim_is_trimmed.
  - intros path. rewrite Hfiles. apply file_content_app.
Qed.

Lemma written_files_are_block_code_witness :
  let run := _processResponseForFiles sample_host two_main_blocks (fun _ => all_fine 0) in
  length (files (fst run)) = 2 /\
  file_content (files (fst run)) (path_join (js "/home/user/project") (js "main.py"))
  = Some (js "def main():" ++ LF :: js "    return 2").
Proof.
  destruct (written_files_are_block_code sample_host two_main_blocks (fun _ => all_fine 0))
    as (Hfiles & _ & _ & Hcontent).
  cbv zeta. split.
  - rewrite Hfiles. reflexivity.
  - rewrite Hcontent. reflexivity.
Defined.

(** ** What the user is told about the files *)

Section Shown.

Lemma createFile_shown h content extension io :
  match snd (_createFile h content extension io) with
  | Some name =>
      exists folder others c rest,
        workspaceFolders h = Some (folder :: others) /\ name = c :: rest /\
        shown (fst (_createFile h content extension io))
          = shown h ++ [path_join folder name]
  | None => shown (fst (_createFile h content extension io)) = shown h
  end.
Proof.
  unfold _createFile.
  destruct (workspaceFolders h) as [[|folder others]|]; cbn; auto.
  destruct (writeFile_error io); cbn; auto.
  destruct (openTextDocument_error io); cbn; auto.
  destruct (showTextDocument_error io); cbn; auto.
  destruct (fileNameFor_nonempty content extension (Date_now io)) as (c & rest & E).
  exists folder, others, c, rest. now rewrite E.
Qed.

Lemma createFiles_loop_shown blocks :
  forall h ios n createdFiles,
  exists names,
    snd (createFiles_loop blocks h ios n createdFiles) = createdFiles ++ names /\
    forall folder others, workspaceFolders h = Some (folder :: others) ->
      shown (fst (createFiles_loop blocks h ios n createdFiles))
        = shown h ++ map (path_join folder) names.
Proof.
  induction blocks as [|b rest IH]; intros h ios n createdFiles; cbn [createFiles_loop].
  - exists []. cbn. rewrite app_nil_r. split; [reflexivity|].
    intros. now rewrite app_nil_r.
  - pose proof (createFile_shown h (code_text b) (_getFileExtension (language b)) (ios n))
      as Hone.
    pose proof (createFile_frame h (code_text b) (_getFileExtension (language b)) (ios n))
      as (_ & _ & _ & Hws).
    destruct (_createFile h (code_text b) (_getFileExtension (language b)) (ios n))
      as [h1 f]. cbn [fst snd] in *.
    destruct (IH h1 ios (S n) (push_if_truthy createdFiles f)) as (names & Hcreated & Hshown).
    rewrite Hws in Hshown.
    destruct f as [name|].
    + destruct Hone as (folder & others & c & r & Hfolder & -> & Hone).
      exists ((c :: r) :: names). cbn [push_if_truthy] in *.
      split; [now rewrite Hcreated, <- app_assoc|].
      intros folder' others' Hfolder'. rewrite (Hshown _ _ Hfolder'), Hone.
      rewrite Hfolder in Hfolder'. injection Hfolder' as <- <-.
      now rewrite <- app_assoc.
    + exists names. cbn [push_if_truthy] in *. split; [exact Hcreated|].
      intros folder others Hfolder. now rewrite (Hshown _ _ Hfolder), Hone.
Qed.

End Shown.

(** X17.  The names a response is reported to have created are exactly the files
    that were opened in the editor for it, in the same order: each reported
    name, joined to the first workspace folder, was shown, and nothing else
    was. *)
Theorem created_files_are_shown (h : host) (response : jsstring) (ios : nat -> io_answers)
    (folder : jsstring) (others : list jsstring) :
  workspaceFolders h = Some (folder :: others) ->
  shown (fst (_processResponseForFiles h response ios))
    = shown h ++ map (path_join folder) (snd (_processResponseForFiles h response ios)).
Proof.
  intros Hfolder. unfold _processResponseForFiles.
  destruct (length (_extractCodeBlocks response) =? 0).
  - cbn. now rewrite app_nil_r.
  - destruct (createFiles_loop_shown (_extractCodeBlocks response) h ios 0 [])
      as (names & Hcreated & Hshown).
    rewrite Hcreated. cbn [app]. now apply (Hshown folder others).
Qed.

Lemma created_files_are_shown_witness :
  shown (fst (_processResponseForFiles sample_host two_plain_blocks one_fails))
  = [js "/home/user/project/generated_1700000000001.txt"].
Proof.
  rewrite (@created_files_are_shown sample_host two_plain_blocks one_fails
             (js "/home/user/project") [] eq_refl).
  reflexivity.
Defined.

(** X18.  After a successful turn the user sees the whole reply, and is told
    of the files created for it.  When file creation returns no name for
    the reply, the message posted last is the reply, word for word.
    Otherwise it is a header followed by the reply: a mark, the number of
    the returned names, and those names, one on each line, in the order
    they were created in; and these names are the files the turn opened in
    the editor.  The history keeps the reply alone, without the header, so
    later requests send the model its own words only. *)
Theorem reply_is_shown_in_full {R : Runtime} (p : provider) (h : host)
    (message model : jsstring) (config : configuration) (net : net_answer)
    (ios : nat -> io_answers) (view : WebviewView) (c : ascii) (key : jsstring) (v : value) :
  _view p = Some view -> has_webview view = true -> _isProcessing p = false ->
  get_apiKey config = Some (c :: key) ->
  _callDeepSeekAPI (string_or (get_endpoint config) default_endpoint) net = Resolved v ->
  let run := _handleMessage p h message model config net ios in
  let created := snd (_processResponseForFiles h (text_of v) ios) in
  _conversationHistory (fst run) =
    _conversationHistory p ++
    [user_message message; {| role := assistant; content := text_of v |}] /\
  (forall folder others,
     workspaceFolders h = Some (folder :: others) ->
     shown (snd run) = shown h ++ map (path_join folder) created) /\
  (created = [] ->
   posted (snd run) =
     posted h ++ [setTypingIndicator true; setTypingIndicator false;
                  addMessage (text_of v) false]) /\
  (created <> [] ->
   exists mark,
     posted (snd run) =
       posted h ++ [setTypingIndicator true; setTypingIndicator false;
                    addMessage
                      (mark ++ js " Created "
                         ++ number_to_string (N.of_nat (length created))
                         ++ js " file(s):" ++ LF :: join_lines created
                         ++ LF :: LF :: text_of v) false]).
Proof.
  intros Hview Hweb Hidle Hkey Hcall run created.
  destruct (@resolved_turn R p h message model config net ios view c key v
              Hview Hweb Hidle Hkey Hcall)
    as (h1 & Hws & Hshown & _ & Hposted & _ & Hrun).
  subst run. rewrite Hrun. cbn zeta. cbn [fst snd _conversationHistory posted shown postMessage].
  destruct (processResponseForFiles_frame h1 (text_of v) ios) as (F1 & _).
  rewrite F1, Hposted, (@processResponseForFiles_names h1 h (text_of v) ios Hws).
  subst created. rewrite <- app_assoc. cbn [app].
  split; [reflexivity|]. split; [|split].
  - intros folder others Hfolder.
    rewrite <- (@processResponseForFiles_names h1 h (text_of v) ios Hws).
    rewrite <- Hshown. rewrite <- Hws in Hfolder.
    unfold _processResponseForFiles.
    destruct (length (_extractCodeBlocks (text_of v)) =? 0).
    + cbn. now rewrite app_nil_r.
    + destruct (createFiles_loop_shown (_extractCodeBlocks (text_of v)) h1 ios 0 [])
        as (names & Hcreated & Hall).
      rewrite Hcreated. cbn [app]. now apply (Hall folder others).
  - intros Hnone. rewrite Hnone. reflexivity.
  - intros Hsome. exists check_mark.
    destruct (snd (_processResponseForFiles h (text_of v) ios)) as [|name names];
      [contradiction|].
    cbn [length Nat.ltb Nat.leb]. unfold created_message.
    repeat (rewrite <- ?app_assoc; cbn [app]). reflexivity.
Qed.

Lemma reply_is_shown_in_full_witness :
  exists mark,
    posted (snd (_handleMessage idle_provider sample_host (js "write foo")
                   (js "deepseek-chat") (sample_config (Some (js "sk-test")) None)
                   (Response 200 body_completion) (fun _ => all_fine 0)))
    = posted sample_host ++
      [setTypingIndicator true; setTypingIndicator false;
       addMessage (mark ++ js " Created 1 file(s):" ++ LF :: js "foo.py"
                     ++ LF :: LF :: fenced_python) false].
Proof.
  destruct (@reply_is_shown_in_full sample_runtime idle_provider sample_host (js "write foo")
              (js "deepseek-chat") (sample_config (Some (js "sk-test")) None)
              (Response 200 body_completion) (fun _ => all_fine 0) sample_view
              (ascii_of_N 115) (js "k-test") (Some (JString fenced_python))
              eq_refl eq_refl eq_refl eq_refl eq_refl) as (_ & _ & _ & Hposted).
  apply Hposted. discriminate.
Defined.
